(** * sims_movingObjects: Chebyshev granularity control and segment evaluation

    A shallow embedding of [python/lsst/sims/movingObjects/chebyshev.py]
    and [python/lsst/sims/movingObjects/chebyValues.py].

    Conventions of the embedding.
    - Python floats are modelled by exact rationals ([Q]); every property
      below is about comparisons, the step tables and the data flow, not
      about rounding.
    - A method of a Python object is a state transformer over the
      attributes it touches; a raised exception keeps the mutations that
      happened before it.
    - Exceptions carry the Python class and, for [ValueError], the message
      of the [raise] statement.
    - A function is modelled by its body, statement by statement; a name
      is resolved as Python resolves it, among the parameters and locals
      of the function first and the globals of its module next. *)

From Stdlib Require Import QArith Lqa DecimalString DecimalNat.
From stdpp Require Import gmap strings list sorting.

Open Scope Q_scope.

(** ** Python exceptions and results *)

Inductive exn : Type :=
  | NameError (name : string)
  | AttributeError (attr : string)
  | KeyError (key : string)
  | IndexError
  | TypeError
  | AxisError
  | IOError (msg : string)
  | ValueError (msg : string).

(** The exceptions that are not a [ValueError]. *)
Definition plain (e : exn) : Prop := ∀ msg, e ≠ ValueError msg.

(** The exceptions that are not an [IOError]. *)
Definition not_io (e : exn) : Prop := ∀ msg, e ≠ IOError msg.

Inductive result (A : Type) : Type :=
  | OK (a : A)
  | Raise (e : exn).
Arguments OK {A} a.
Arguments Raise {A} e.

(** A method body over a mutable receiver of type [S]. *)
Definition M (S A : Type) : Type := S → result A * S.

Definition ret {S A} (a : A) : M S A := λ s, (OK a, s).
Definition raise {S A} (e : exn) : M S A := λ s, (Raise e, s).
Definition bind {S A B} (m : M S A) (k : A → M S B) : M S B :=
  λ s, match m s with
       | (OK a, s') => k a s'
       | (Raise e, s') => (Raise e, s')
       end.
Definition get {S} : M S S := λ s, (OK s, s).
Definition put {S} (s : S) : M S unit := λ _, (OK tt, s).

(** Code that can raise but touches no mutable object. *)
#[global] Instance result_ret : MRet result := λ _ a, OK a.
#[global] Instance result_bind : MBind result := λ _ _ k m,
  match m with
  | OK a => k a
  | Raise e => Raise e
  end.
Definition lift {S A} (r : result A) : M S A := λ s, (r, s).

(** [wp m s Q]: running [m] from the state [s] ends in a result and a
    state that satisfy [Q]. *)
Definition wp {S A} (m : M S A) (s : S) (Q : result A → S → Prop) : Prop :=
  Q (fst (m s)) (snd (m s)).

Notation "'do' x <- m ; k" := (bind m (λ x, k))
  (at level 10, x name, m at level 100, k at level 200).
Notation "m ;; k" := (bind m (λ _, k))
  (at level 100, k at level 200, right associativity).

(** ** Comparisons on floats *)

Definition Qltb (x y : Q) : bool := negb (Qle_bool y x).
Infix "<?" := Qltb : Q_scope.

(** * chebyshev.py *)

Module Chebyshev.

(** [v_three_sixy_to_neg(element, min, max)], lines 10-17.  The bitwise
    [&] is applied to two Python booleans.  (Line 18 asks
    [np.vectorize] for a function called [three_sixy_to_neg], a name
    the module does not bind: no vectorised form of the helper
    exists.) *)
Definition v_three_sixy_to_neg (element min max : Q) : Q :=
  if (min <? 100) && (270 <? max) then
    if 270 <? element then element - 360
    else element
  else element.

(** The names bound at module level are [os], [np], [haversine], [cheb],
    [Orbits], [PyEphemerides], [v_three_sixy_to_neg] and [ChebyFits]; no
    numeric global exists, in particular none called [distance]. *)
Definition module_globals : gmap string Q := ∅.

(** Reading a free name of a function body: the module globals are
    searched when the expression is evaluated. *)
Definition load_global {S} (globals : gmap string Q) (name : string) : M S Q :=
  match globals !! name with
  | Some v => ret v
  | None => raise (NameError name)
  end.

(** The table that the docstring and the branches of
    [_setGranularity] spell out: the speed thresholds in degrees per
    day, and the band of a speed, the number of thresholds it has
    reached (band 0 is the slowest, band 8 the fastest). *)
Definition speed_thresholds : list Q :=
  [0.8; 1.6; 3.2; 6.4; 12.8; 25.6; 51.2; 102.4].
Definition band (speed : Q) : nat :=
  length (List.filter (λ threshold, Qle_bool threshold speed) speed_thresholds).

Module ChebyFits.

(** The granularity attributes of a [ChebyFits] instance.  [None] is an
    attribute that has not been assigned yet: [__init__] sets none of
    the three. *)
Record self : Type := Self {
  ngran : option Z;
  timestep : option Q;
  length : option Q
}.

Definition set_ngran (v : Z) : M self unit :=
  λ s, (OK tt, Self (Some v) (timestep s) (length s)).
Definition set_timestep (v : Q) : M self unit :=
  λ s, (OK tt, Self (ngran s) (Some v) (length s)).
Definition set_length (v : Q) : M self unit :=
  λ s, (OK tt, Self (ngran s) (timestep s) (Some v)).

Definition getattr {A} (name : string) (field : self → option A) : M self A :=
  λ s, match field s with
       | Some v => (OK v, s)
       | None => (Raise (AttributeError name), s)
       end.

(** [_setGranularity(self, distance_moved)], lines 78-118.  Only the
    first test reads the parameter; every [elif] reads the free name
    [distance]. *)
Definition _setGranularity (globals : gmap string Q) (distance_moved : Q)
  : M self unit :=
  set_ngran 64 ;;
  (if distance_moved <? 0.8 then set_timestep 0.03125
   else do distance <- load_global globals "distance";
     if distance <? 1.6 then set_timestep 0.015625
   else do distance <- load_global globals "distance";
     if distance <? 3.2 then set_timestep 0.0078125
   else do distance <- load_global globals "distance";
     if distance <? 6.4 then set_timestep 0.00390625
   else do distance <- load_global globals "distance";
     if distance <? 12.8 then set_timestep 0.001953125
   else do distance <- load_global globals "distance";
     if distance <? 25.6 then set_timestep 0.0009765625
   else do distance <- load_global globals "distance";
     if distance <? 51.2 then set_timestep 0.00048828125
   else do distance <- load_global globals "distance";
     if distance <? 102.4 then set_timestep 0.000244140625
   else set_timestep 0.0001220703125) ;;
  set_ngran 64 ;;
  do n <- getattr "ngran" ngran;
  do ts <- getattr "timestep" timestep;
  set_length (inject_Z n * ts).

(** [_updateGranularity(self, p_resid, dec)], lines 120-146.  The
    quotients are the exact ones: the rounding and the underflow of
    binary64 division are outside the model, and the properties below
    are about the factor table, the order of the results and the data
    flow. *)
Definition _updateGranularity (p_resid dec : Q) : M self unit :=
  let factor : Q :=
    if 1000 <? p_resid then 16
    else if 100 <? p_resid then 8
    else if 15 <? p_resid then 6
    else if 5 <? p_resid then 4
    else if 2 <? p_resid then 2
    else 1 in
  do ts <- getattr "timestep" timestep;
  set_timestep (ts / factor) ;;
  do len <- getattr "length" length;
  set_length (len / factor) ;;
  if (dec <? -75) || (75 <? dec) then
    do ts <- getattr "timestep" timestep;
    set_timestep (ts / 2) ;;
    do len <- getattr "length" length;
    set_length (len / 2)
  else ret tt.

(** ** The constructor *)

Section Construction.

(** [PyEphemerides] is the ephemeris generator of the package
    ([ephemerides.py], not in this file) and [engine] the type of its
    instances; [os.getenv] gives [None] for a variable that is not set,
    and [os.path.join] fails on [None]. *)
Variable engine : Type.
Variable PyEphemerides : option string → result engine.
Variable os_getenv : string → option string.
Variable os_path_join : option string → string → result string.

(** The attributes that [__init__] assigns; [None] is an attribute
    that has not been assigned yet. *)
Record instance : Type := Instance {
  skyTolerance : option Q;
  pyephems : option engine
}.

Definition set_skyTolerance (v : Q) : M instance unit :=
  λ s, (OK tt, Instance (Some v) (pyephems s)).
Definition set_pyephems (v : engine) : M instance unit :=
  λ s, (OK tt, Instance (skyTolerance s) (Some v)).

(** Reading a local variable.  A name that the body of a function
    assigns anywhere is local to the whole body and is never looked up
    among the globals; read before its first assignment it raises
    [UnboundLocalError], which is a [NameError] (a subclass of it) and
    is recorded as one. *)
Definition load_fast {S V} (locals : gmap string V) (name : string) : M S V :=
  match locals !! name with
  | Some v => ret v
  | None => raise (NameError name)
  end.

(** [__init__(self, skyTolerance=2.5, ephFile=None)], lines 41-45.
    The parameter is called [ephFile]; the body tests and assigns
    [ephfile], a local of its own. *)
Definition __init__ (skyTolerance : Q) (ephFile : option string)
  : M instance unit :=
  let locals : gmap string (option string) := {["ephFile" := ephFile]} in
  set_skyTolerance skyTolerance ;;
  do ephfile <- load_fast locals "ephfile";
  do locals <-
    match ephfile with
    | None =>
        do path <- lift (os_path_join (os_getenv "OORB_DATA") "de405.dat");
        ret (<["ephfile" := Some path]> locals)
    | Some _ => ret locals
    end;
  do ephfile <- load_fast locals "ephfile";
  do e <- lift (PyEphemerides ephfile);
  set_pyephems e.

End Construction.

End ChebyFits.
End Chebyshev.

(** * chebyValues.py *)

Module ChebyValues.

(** ** numpy arrays and Python sequences *)

(** A two-dimensional float array of shape [(nrow, ncol)]. *)
Record matrix : Type := Mat {
  nrow : nat;
  ncol : nat;
  rows : list (list Q)
}.

(** The arrays that occur as values of a coefficient dictionary.
    [ObjArr] is the one-dimensional object array numpy builds from a
    list of lists of unequal lengths. *)
Inductive ndarray : Type :=
  | IntArr (v : list Z)
  | FloatArr (v : list Q)
  | FloatMat (m : matrix)
  | ObjArr (v : list (list Q)).

(** The values of [chebyFits.coeffs]: lists of ids, lists of floats,
    lists of coefficient lists, or arrays. *)
Inductive pyval : Type :=
  | PyInts (l : list Z)
  | PyFloats (l : list Q)
  | PyLists (l : list (list Q))
  | PyArray (a : ndarray).

(** [np.array(v)].  An empty list gives an empty float array. *)
Definition np_array (v : pyval) : ndarray :=
  match v with
  | PyInts [] => FloatArr []
  | PyInts l => IntArr l
  | PyFloats l => FloatArr l
  | PyLists [] => FloatArr []
  | PyLists (r :: rs) =>
      if forallb (λ r', Nat.eqb (length r') (length r)) rs
      then FloatMat (Mat (S (length rs)) (length r) (r :: rs))
      else ObjArr (r :: rs)
  | PyArray a => a
  end.

(** [len(a)]: the size of the first axis. *)
Definition np_len (a : ndarray) : nat :=
  match a with
  | IntArr v => length v
  | FloatArr v => length v
  | FloatMat m => nrow m
  | ObjArr v => length v
  end.

Definition transpose (ncols : nat) (rs : list (list Q)) : list (list Q) :=
  (λ j, (λ r, nth j r 0) <$> rs) <$> seq 0 ncols.

Definition swapped (m : matrix) : matrix :=
  Mat (ncol m) (nrow m) (transpose (ncol m) (rows m)).

(** [a.swapaxes(0, 1)] needs two axes. *)
Definition swapaxes01 (a : ndarray) : result ndarray :=
  match a with
  | FloatMat m => OK (FloatMat (swapped m))
  | _ => Raise AxisError
  end.

(** [a[0]] on a two-dimensional array: its first row.  (On a
    one-dimensional array the result is a scalar, which no caller below
    can reach; [TypeError] stands for it.) *)
Definition item0 (a : ndarray) : result ndarray :=
  match a with
  | FloatMat m =>
      match rows m with
      | r :: _ => OK (FloatArr r)
      | [] => Raise IndexError
      end
  | _ => Raise TypeError
  end.

(** [d[k]] on a dictionary. *)
Definition getitem {V} (d : gmap string V) (k : string) : result V :=
  match d !! k with
  | Some v => OK v
  | None => Raise (KeyError k)
  end.

(** Typed views of a column of the table: times are floats (or
    integers, read as floats), object ids are integers, a quantity is a
    two-dimensional array.  Tables with columns of another kind are
    outside the model; [TypeError] stands for what numpy does with
    them. *)
Definition vector (a : ndarray) : result (list Q) :=
  match a with
  | FloatArr v => OK v
  | IntArr v => OK (inject_Z <$> v)
  | _ => Raise TypeError
  end.

Definition idvector (a : ndarray) : result (list Z) :=
  match a with
  | IntArr v => OK v
  | FloatArr [] => OK []
  | _ => Raise TypeError
  end.

Definition rowvector (a : ndarray) : result (list (list Q)) :=
  match a with
  | FloatMat m => OK (rows m)
  | FloatArr [] => OK []
  | _ => Raise TypeError
  end.

(** [v[mask]] with a boolean mask over the first axis: the entries
    where the mask is [True], when mask and axis have the same length. *)
Fixpoint select {A} (mask : list bool) (v : list A) : list A :=
  match mask, v with
  | b :: mask', x :: v' =>
      if b then x :: select mask' v' else select mask' v'
  | _, _ => []
  end.

Definition mask_index {A} (v : list A) (mask : list bool) : result (list A) :=
  if Nat.eqb (length v) (length mask)
  then OK (select mask v)
  else Raise IndexError.

(** [v[i]] with a Python integer: negative indices count from the end. *)
Definition py_index {A} (v : list A) (i : Z) : result A :=
  let n := Z.of_nat (length v) in
  let j := if (i <? 0)%Z then (i + n)%Z else i in
  if (0 <=? j)%Z && (j <? n)%Z then
    match v !! Z.to_nat j with
    | Some x => OK x
    | None => Raise IndexError
    end
  else Raise IndexError.

(** [np.where(mask)[0]]: the positions where the mask is [True]. *)
Fixpoint where_from (i : nat) (mask : list bool) : list Z :=
  match mask with
  | [] => []
  | b :: mask' =>
      if b then Z.of_nat i :: where_from (S i) mask'
      else where_from (S i) mask'
  end.

Definition np_where (mask : list bool) : list Z := where_from 0 mask.

(** [np.in1d(a, b)]. *)
Definition np_in1d (a b : list Z) : list bool :=
  (λ x, bool_decide (x ∈ b)) <$> a.

(** [np.unique(a)]: the sorted distinct elements. *)
Definition np_unique (a : list Z) : list Z :=
  merge_sort Z.le (remove_dups a).

(** ** The class attributes set by [__init__] *)

Definition coeffKeys : list string :=
  ["objId"; "tStart"; "tEnd"; "ra"; "dec"; "delta"; "vmag"; "elongation"].
Definition ephemerisKeys : list string :=
  ["ra"; "dradt"; "dec"; "ddecdt"; "delta"; "vmag"; "elongation"].

(** The receiver's mutable attribute is [self.coeffs]; [__init__] binds
    it to an empty dictionary. *)
Definition init_coeffs : gmap string ndarray := ∅.

Definition setitem {V} (k : string) (v : V) : M (gmap string V) unit :=
  λ d, (OK tt, <[k := v]> d).

Definition missing_keys_msg : string :=
  "Did not receive all expected coefficient keys from chebyFitsCoefficients".

(** ** [setCoefficients(self, chebyFits)], lines 20-37 *)

(** Line 29 binds [self.coeffs] to the dictionary of the [ChebyFits]
    object itself, which therefore sees the conversions and additions
    that follow; the model keeps the receiver only. *)

Definition setCoefficients (chebyFits_coeffs : gmap string pyval)
  : M (gmap string ndarray) unit :=
  put (np_array <$> chebyFits_coeffs) ;;
  do coeffs <- get;
  if bool_decide (0 < size ((list_to_set coeffKeys : gset string) ∖ dom coeffs))%nat
  then raise (ValueError missing_keys_msg)
  else
    do coeffs <- get;
    do meanRA <- lift (a ← getitem coeffs "ra"; m ← swapaxes01 a; item0 m);
    setitem "meanRA" meanRA ;;
    do coeffs <- get;
    do meanDec <- lift (a ← getitem coeffs "dec"; m ← swapaxes01 a; item0 m);
    setitem "meanDec" meanDec.

(** ** [readCoefficients(self, chebyFitsFile)], lines 39-71 *)

(** A column of a pandas [DataFrame]. *)
Inductive column : Type :=
  | IntCol (v : list Z)
  | FloatCol (v : list Q).

(** A [DataFrame]: its columns in header order.  All columns of a frame
    have the same length, the number of rows. *)
Definition dataframe : Type := list (string * column).

Definition df_columns (df : dataframe) : list string := fst <$> df.

(** [len(df)]. *)
Definition df_len (df : dataframe) : nat :=
  match df with
  | (_, IntCol v) :: _ => length v
  | (_, FloatCol v) :: _ => length v
  | [] => 0%nat
  end.

Definition df_find (df : dataframe) (name : string) : option column :=
  snd <$> find (λ c, bool_decide (fst c = name)) df.

(** [df.name]. *)
Definition df_attr (df : dataframe) (name : string) : result column :=
  match df_find df name with
  | Some c => OK c
  | None => Raise (AttributeError name)
  end.

(** [df[name]]. *)
Definition df_getitem (df : dataframe) (name : string) : result column :=
  match df_find df name with
  | Some c => OK c
  | None => Raise (KeyError name)
  end.

(** [c.as_matrix()]. *)
Definition as_matrix (c : column) : ndarray :=
  match c with
  | IntCol v => IntArr v
  | FloatCol v => FloatArr v
  end.

(** The values of a column once stored in a row of a float array. *)
Definition as_floats (c : column) : list Q :=
  match c with
  | IntCol v => inject_Z <$> v
  | FloatCol v => v
  end.

(** ['%s_%d' % (k, i)]. *)
Definition coeff_name (k : string) (i : nat) : string :=
  k +:+ "_" +:+ NilEmpty.string_of_uint (Nat.to_uint i).

Definition coeff_cols : list string :=
  ["ra"; "dec"; "delta"; "vmag"; "elongation"].

(** [np.empty([n, m], float)].  The content of the fresh array is
    unspecified; zero stands for it, and [readCoefficients] overwrites
    every row before it reads one. *)
Definition np_empty (n m : nat) : matrix :=
  Mat n m (replicate n (replicate m 0)).

(** [a[i] = c.as_matrix()] on the two-dimensional array stored under
    [k]; the column has one entry per row of the frame, the width of
    the array. *)
Definition setrow (k : string) (i : nat) (c : column)
  : M (gmap string ndarray) unit :=
  λ d, match d !! k with
       | Some (FloatMat m) =>
           if bool_decide (i < nrow m)%nat
           then
             let rows' := <[i := as_floats c]> (rows m) in
             (OK tt, <[k := FloatMat (Mat (nrow m) (ncol m) rows')]> d)
           else (Raise IndexError, d)
       | Some _ => (Raise TypeError, d)
       | None => (Raise (KeyError k), d)
       end.

(** A [for] loop whose body may raise. *)
Fixpoint for_each {S A} (l : list A) (body : A → M S unit) : M S unit :=
  match l with
  | [] => ret tt
  | x :: l' => body x ;; for_each l' body
  end.

(** [readCoefficients(self, chebyFitsFile)], lines 39-71.  The files
    [fs]: the paths of the map are those that [os.path.isfile] accepts,
    and the entry of a path is what
    [pd.read_table(path, delim_whitespace=True)] does with the file: the
    frame it returns, or the exception it raises for a file that it
    cannot read or parse.  (The [%s] of the error text is left
    unformatted.) *)
Definition readCoefficients (fs : gmap string (result dataframe))
    (chebyFitsFile : string) : M (gmap string ndarray) unit :=
  match fs !! chebyFitsFile with
  | None => raise (IOError "Could not find chebyFitsFile at %s")
  | Some read_table =>
      do coeffs <- lift read_table;
      let datacols := df_columns coeffs in
      let cols (k : string) := filter (λ x, String.prefix k x = true) datacols in
      do objId <- lift (df_attr coeffs "objId");
      setitem "objId" (as_matrix objId) ;;
      do tStart <- lift (df_attr coeffs "tStart");
      setitem "tStart" (as_matrix tStart) ;;
      do tEnd <- lift (df_attr coeffs "tEnd");
      setitem "tEnd" (as_matrix tEnd) ;;
      for_each coeff_cols (λ k,
        setitem k (FloatMat (np_empty (length (cols k)) (df_len coeffs))) ;;
        for_each (seq 0 (length (cols k))) (λ i,
          do c <- lift (df_getitem coeffs (coeff_name k i));
          setrow k i c)) ;;
      do d <- get;
      do meanRA <- lift (a ← getitem d "ra"; item0 a);
      setitem "meanRA" meanRA ;;
      do d <- get;
      do meanDec <- lift (a ← getitem d "dec"; item0 a);
      setitem "meanDec" meanDec ;;
      for_each coeff_cols (λ k,
        do d <- get;
        do m <- lift (a ← getitem d k; swapaxes01 a);
        setitem k m)
  end.

(** ** Evaluation *)

(** The integer arrays (or lists) of object ids that the caller and
    [getEphemerides] hold references to: a reference is an index into
    the store.  A reference that was never allocated reads as an empty
    array. *)
Definition heap : Type := list (list Z).

Definition alloc (v : list Z) : M heap nat :=
  λ h, (OK (length h), h ++ [v]).
Definition load (ref : nat) : M heap (list Z) :=
  λ h, (OK (default [] (h !! ref)), h).
(** [a[i] = x] on the array behind [ref]. *)
Definition store (ref i : nat) (x : Z) : M heap unit :=
  λ h, let a := default [] (h !! ref) in
       if bool_decide (i < length a)%nat
       then (OK tt, <[ref := <[i := x]> a]> h)
       else (Raise IndexError, h).

(** The [objIds] argument when it is not [None]: one id, or a
    reference to a sequence of ids. *)
Inductive objIds_arg : Type :=
  | ObjId (id : Z)
  | ObjIdArray (ref : nat).

(** The values of the dictionary [getEphemerides] returns: the id
    array by reference, the float arrays (allocated by the call and
    owned by the dictionary) by value. *)
Inductive eph_column : Type :=
  | IdsRef (ref : nat)
  | Floats (v : list Q).

(** [ephemerides[k][i] = v]. *)
Definition setcell (ephemerides : gmap string eph_column) (k : string)
    (i : nat) (v : Q) : result (gmap string eph_column) :=
  c ← getitem ephemerides k;
  match c with
  | Floats a =>
      if bool_decide (i < length a)%nat
      then OK (<[k := Floats (<[i := v]> a)]> ephemerides)
      else Raise IndexError
  | IdsRef _ => Raise TypeError
  end.

(** A [for] loop that updates a local variable. *)
Fixpoint foldM {S A B} (body : B → A → M S B) (b : B) (l : list A) : M S B :=
  match l with
  | [] => ret b
  | x :: l' => do b' <- body b x; foldM body b' l'
  end.

(** Texts of the errors raised by [_evalSegment] (the [%f] fields are
    left unformatted) and by [getEphemerides]. *)
Definition out_of_bounds_msg : string :=
  "Time requested (%f) is out of bounds for segment index (valid %f to %f).".
Definition no_match_msg : string :=
  "Expected to find match between objIds provided and ephemeride objIds, but did not".

(** [(tStart <= time) & (tEnd > time)], element by element. *)
Definition covers (time : Q) (tStart tEnd : list Q) : list bool :=
  zip_with andb ((λ t, Qle_bool t time) <$> tStart) ((λ t, time <? t) <$> tEnd).

(** Line 139: the positions, among the segments selected by
    [objMatch], of those with [tStart <= time] and [tEnd > time]. *)
Definition segments (coeffs : gmap string ndarray) (time : Q)
    (objMatch : list bool) : result (list Z) :=
  tStart ← (a ← getitem coeffs "tStart"; v ← vector a; mask_index v objMatch);
  tEnd ← (a ← getitem coeffs "tEnd"; v ← vector a; mask_index v objMatch);
  mret (np_where (covers time tStart tEnd)).

Section Evaluation.

(** [chebyshevUtils.chebeval(x, p, interval, doVelocity)] returns a
    pair: the value of the expansion [p] at [x] and, with
    [doVelocity=True], its first derivative (the callers below discard
    the second component when [doVelocity=False]).  [np.cos] and
    [np.radians] are numpy's. *)
Variable chebeval : Q → list Q → Q * Q → bool → Q * Q.
Variable np_cos : Q → Q.
Variable np_radians : Q → Q.

(** [_evalSegment(self, segmentIdx, time, subsetSegments=None)], lines
    73-110.  [self.coeffs] is only read. *)
Definition _evalSegment (coeffs : gmap string ndarray) (segmentIdx : Z)
    (time : Q) (subsetSegments : option (list bool))
  : result (gmap string Q) :=
  subsetSegments ←
    match subsetSegments with
    | None => a ← getitem coeffs "objId"; mret (replicate (np_len a) true)
    | Some mask => mret mask
    end;
  tStart ← (a ← getitem coeffs "tStart"; v ← vector a;
            s ← mask_index v subsetSegments; py_index s segmentIdx);
  tEnd ← (a ← getitem coeffs "tEnd"; v ← vector a;
          s ← mask_index v subsetSegments; py_index s segmentIdx);
  if (time <? tStart) || (tEnd <? time) then
    Raise (ValueError out_of_bounds_msg)
  else
    let tScaled := time - tStart in
    let tInterval := (tStart - tStart, tEnd - tStart) in
    let segment (k : string) : result (list Q) :=
      a ← getitem coeffs k; r ← rowvector a;
      s ← mask_index r subsetSegments; py_index s segmentIdx in
    let ephemeris : gmap string Q := ∅ in
    p ← segment "ra";
    let '(ra, dradt) := chebeval tScaled p tInterval true in
    let ephemeris := <["dradt" := dradt]> (<["ra" := ra]> ephemeris) in
    p ← segment "dec";
    let '(dec, ddecdt) := chebeval tScaled p tInterval true in
    let ephemeris := <["ddecdt" := ddecdt]> (<["dec" := dec]> ephemeris) in
    dradt ← getitem ephemeris "dradt";
    dec ← getitem ephemeris "dec";
    let ephemeris := <["dradt" := dradt * np_cos (np_radians dec)]> ephemeris in
    foldl (λ acc k,
        ephemeris ← acc;
        p ← segment k;
        let '(v, _) := chebeval tScaled p tInterval false in
        mret (<[k := v]> ephemeris))
      (OK ephemeris) ["delta"; "vmag"; "elongation"].

(** What lines 98-109 put into [ephemeris] for a segment [[tStart,
    tEnd]] with the coefficient lists [p_ra] ... [p_elongation]: the
    value and the derivative of the [ra] and [dec] expansions at
    [time - tStart] over the interval [[0, tEnd - tStart]], the [ra]
    derivative multiplied by the cosine of the declination, the values
    of the three other expansions, and no further entry. *)
Definition evaluates (ephemeris : gmap string Q) (time tStart tEnd : Q)
    (p_ra p_dec p_delta p_vmag p_elongation : list Q) : Prop :=
  let x := time - tStart in
  let interval := (tStart - tStart, tEnd - tStart) in
  let raw_ra := chebeval x p_ra interval true in
  let raw_dec := chebeval x p_dec interval true in
  ephemeris !! "ra" = Some (fst raw_ra) ∧
  ephemeris !! "dradt" = Some (snd raw_ra * np_cos (np_radians (fst raw_dec))) ∧
  ephemeris !! "dec" = Some (fst raw_dec) ∧
  ephemeris !! "ddecdt" = Some (snd raw_dec) ∧
  ephemeris !! "delta" = Some (fst (chebeval x p_delta interval false)) ∧
  ephemeris !! "vmag" = Some (fst (chebeval x p_vmag interval false)) ∧
  ephemeris !! "elongation"
  = Some (fst (chebeval x p_elongation interval false)) ∧
  dom ephemeris = list_to_set ephemerisKeys.

(** [getEphemerides(self, time, objIds=None)], lines 112-148, in four
    blocks.  With [objIds] given, [ephemerides['objId']] is bound to
    the very sequence the caller passed (line 135), so the assignments
    of line 144 write into the caller's sequence and the two operands
    of the comparison of line 146 are read from the same object. *)

(** Lines 128-135: the mask [objMatch], the reference stored under
    [ephemerides['objId']] and the (rebound) local [objIds]. *)
Definition match_objIds (coeffs : gmap string ndarray)
    (objIds : option objIds_arg) : M heap (list bool * nat * option nat) :=
  match objIds with
  | None =>
      do a <- lift (getitem coeffs "objId");
      let objMatch := replicate (np_len a) true in
      do ids <- lift (a ← getitem coeffs "objId"; idvector a);
      do ref <- alloc (np_unique ids);
      ret (objMatch, ref, None)
  | Some arg =>
      do objIds <- match arg with
                   | ObjId id => alloc [id]
                   | ObjIdArray ref => ret ref
                   end;
      do ids <- lift (a ← getitem coeffs "objId"; idvector a);
      do wanted <- load objIds;
      ret (np_in1d ids wanted, objIds, Some objIds)
  end.

(** Lines 136-138: the arrays created for [n] ids. *)
Definition zero_filled (ref n : nat) (time : Q) : gmap string eph_column :=
  let ephemerides : gmap string eph_column := <["objId" := IdsRef ref]> ∅ in
  let ephemerides :=
    <["time" := Floats ((λ z, z + time) <$> replicate n 0)]> ephemerides in
  foldl (λ e k, <[k := Floats (replicate n 0)]> e) ephemerides ephemerisKeys.

(** Lines 141-144: the body of the loop over [enumerate(segments)]. *)
Definition fill_row (coeffs : gmap string ndarray) (time : Q)
    (objMatch : list bool) (ephemerides : gmap string eph_column)
    (entry : nat * Z) : M heap (gmap string eph_column) :=
  let '(i, segmentIdx) := entry in
  do ephemeris <- lift (_evalSegment coeffs segmentIdx time (Some objMatch));
  do ephemerides <- lift (foldl (λ acc k,
      e ← acc; v ← getitem ephemeris k; setcell e k i v)
    (OK ephemerides) ephemerisKeys);
  do id <- lift (a ← getitem coeffs "objId"; v ← idvector a;
                 s ← mask_index v objMatch; py_index s segmentIdx);
  do target <- lift (getitem ephemerides "objId");
  match target with
  | IdsRef r => store r i id
  | Floats _ => raise TypeError
  end ;;
  ret ephemerides.

(** Lines 145-147. *)
Definition check_match (ephemerides : gmap string eph_column)
    (objIds : option nat) : M heap unit :=
  match objIds with
  | Some objIds =>
      do target <- lift (getitem ephemerides "objId");
      do found <- match target with
                  | IdsRef r => load r
                  | Floats _ => raise TypeError
                  end;
      do wanted <- load objIds;
      if bool_decide ((list_to_set found : gset Z) ≠ list_to_set wanted)
      then raise (ValueError no_match_msg)
      else ret tt
  | None => ret tt
  end.

Definition getEphemerides (coeffs : gmap string ndarray) (time : Q)
    (objIds : option objIds_arg) : M heap (gmap string eph_column) :=
  do sel <- match_objIds coeffs objIds;
  let '(objMatch, ref, objIds) := sel in
  do ids <- load ref;
  let ephemerides := zero_filled ref (length ids) time in
  do segments <- lift (segments coeffs time objMatch);
  do ephemerides <- foldM (fill_row coeffs time objMatch) ephemerides
                          (imap pair segments);
  check_match ephemerides objIds ;;
  ret ephemerides.

End Evaluation.

(** The result of a query for [n] ids: every array of [ephemerides],
    and the id array behind [ref], has [n] entries. *)
Definition sized (ref n : nat) (eph : gmap string eph_column) (h : heap) : Prop :=
  eph !! "objId" = Some (IdsRef ref) ∧
  (∀ k, k ∈ ephemerisKeys → ∃ v, eph !! k = Some (Floats v) ∧ length v = n) ∧
  length (default [] (h !! ref)) = n.

(** ** The coefficient table, column by column *)

(** One entry per segment in every column; [t_ra] ... [t_elongation]
    hold one coefficient list per segment. *)
Record table : Type := Table {
  t_objId : list Z;
  t_tStart : list Q;
  t_tEnd : list Q;
  t_ra : list (list Q);
  t_dec : list (list Q);
  t_delta : list (list Q);
  t_vmag : list (list Q);
  t_elongation : list (list Q)
}.

Definition t_quantity (t : table) (k : string) : list (list Q) :=
  if String.eqb k "ra" then t_ra t
  else if String.eqb k "dec" then t_dec t
  else if String.eqb k "delta" then t_delta t
  else if String.eqb k "vmag" then t_vmag t
  else if String.eqb k "elongation" then t_elongation t
  else [].

(** Every column has [n] entries and quantity [k] has [width k]
    coefficients in every segment. *)
Definition rectangular (n m : nat) (rs : list (list Q)) : bool :=
  Nat.eqb (length rs) n && forallb (λ r, Nat.eqb (length r) m) rs.

Definition well_formed (t : table) (n : nat) (width : string → nat) : bool :=
  Nat.eqb (length (t_objId t)) n && Nat.eqb (length (t_tStart t)) n &&
  Nat.eqb (length (t_tEnd t)) n &&
  forallb (λ k, rectangular n (width k) (t_quantity t k)) coeff_cols.

(** The object ids of the segments of [t] that cover [time].  The
    segments of one object do not overlap, so a table in use never
    lists an id twice here. *)
Definition covering_ids (t : table) (time : Q) : list Z :=
  select (covers time (t_tStart t) (t_tEnd t)) (t_objId t).

(** The segments of one object do not overlap: of two segments with
    the same id, one ends no later than the other starts. *)
Definition non_overlapping (t : table) : Prop :=
  ∀ i j id tS tE tS' tE',
    i ≠ j →
    t_objId t !! i = Some id → t_objId t !! j = Some id →
    t_tStart t !! i = Some tS → t_tEnd t !! i = Some tE →
    t_tStart t !! j = Some tS' → t_tEnd t !! j = Some tE' →
    tE <= tS' ∨ tE' <= tS.

(** [coeffs] is the dictionary of arrays of the table [t]. *)
Definition represents (coeffs : gmap string ndarray) (t : table) : Prop :=
  coeffs !! "objId" = Some (IntArr (t_objId t)) ∧
  coeffs !! "tStart" = Some (FloatArr (t_tStart t)) ∧
  coeffs !! "tEnd" = Some (FloatArr (t_tEnd t)) ∧
  ∀ k, k ∈ coeff_cols →
    ∃ m, coeffs !! k = Some (FloatMat m) ∧ rows m = t_quantity t k.

(** The attribute [coeffs] of a [ChebyFits] object as the docstring of
    [setCoefficients] describes it: a dictionary of the lists [objId],
    [tStart], [tEnd], [ra], [dec], [delta], [vmag] and [elongation]. *)
Definition fit_coeffs (t : table) : gmap string pyval :=
  <["objId" := PyInts (t_objId t)]> (
  <["tStart" := PyFloats (t_tStart t)]> (
  <["tEnd" := PyFloats (t_tEnd t)]> (
  <["ra" := PyLists (t_ra t)]> (
  <["dec" := PyLists (t_dec t)]> (
  <["delta" := PyLists (t_delta t)]> (
  <["vmag" := PyLists (t_vmag t)]> (
  <["elongation" := PyLists (t_elongation t)]> ∅))))))).

(** The run of coefficient columns [k_0 .. k_{m-1}] of one quantity:
    column [k_i] holds coefficient [i] of every segment. *)
Definition coeff_columns (k : string) (m : nat) (rs : list (list Q))
  : dataframe :=
  (λ i, (coeff_name k i, FloatCol ((λ r, nth i r 0) <$> rs))) <$> seq 0 m.

(** Modelled from the spec: the writer of the coefficients file is not
    in the source.  The persisted table has the columns [objId],
    [tStart], [tEnd] and, per tracked quantity, a run of coefficient
    columns [quantity_0 .. quantity_{k-1}], one row per segment. *)
Definition persisted (t : table) (width : string → nat) : dataframe :=
  [("objId", IntCol (t_objId t));
   ("tStart", FloatCol (t_tStart t));
   ("tEnd", FloatCol (t_tEnd t))]
  ++ coeff_columns "ra" (width "ra") (t_ra t)
  ++ coeff_columns "dec" (width "dec") (t_dec t)
  ++ coeff_columns "delta" (width "delta") (t_delta t)
  ++ coeff_columns "vmag" (width "vmag") (t_vmag t)
  ++ coeff_columns "elongation" (width "elongation") (t_elongation t).

(** The dictionary of arrays of the table [t], with the two derived
    columns of zero-order coefficients. *)
Definition loaded (t : table) (n : nat) (width : string → nat)
  : gmap string ndarray :=
  <["meanDec" := FloatArr ((λ r, nth 0 r 0) <$> t_dec t)]> (
  <["meanRA" := FloatArr ((λ r, nth 0 r 0) <$> t_ra t)]> (
  <["objId" := IntArr (t_objId t)]> (
  <["tStart" := FloatArr (t_tStart t)]> (
  <["tEnd" := FloatArr (t_tEnd t)]> (
  <["ra" := FloatMat (Mat n (width "ra") (t_ra t))]> (
  <["dec" := FloatMat (Mat n (width "dec") (t_dec t))]> (
  <["delta" := FloatMat (Mat n (width "delta") (t_delta t))]> (
  <["vmag" := FloatMat (Mat n (width "vmag") (t_vmag t))]> (
  <["elongation" := FloatMat (Mat n (width "elongation") (t_elongation t))]> ∅))))))))).

(** ** A small table for the examples *)

(** Two objects: object 1 with the segments [[0, 10)] and [[10, 20)],
    object 2 with the segment [[0, 10)]; two coefficients for [ra] and
    [dec], one for the other quantities. *)
Definition example_table : table := {|
  t_objId := [1; 1; 2]%Z;
  t_tStart := [0; 10; 0];
  t_tEnd := [10; 20; 10];
  t_ra := [[10; 1]; [20; 1]; [30; 2]];
  t_dec := [[-5; 1]; [5; 1]; [60; 0]];
  t_delta := [[2]; [2]; [3]];
  t_vmag := [[18]; [19]; [21]];
  t_elongation := [[90]; [95]; [120]]
|}.

Definition example_width (k : string) : nat :=
  if String.eqb k "ra" then 2%nat
  else if String.eqb k "dec" then 2%nat
  else 1%nat.

Definition example_coeffs : gmap string ndarray :=
  snd (setCoefficients (fit_coeffs example_table) init_coeffs).

(** Stand-ins for the numeric primitives, to run the examples: a
    first-degree expansion [p0 + p1 * x] with derivative [p1]. *)
Definition example_chebeval (x : Q) (p : list Q) (interval : Q * Q)
    (doVelocity : bool) : Q * Q :=
  (nth 0 p 0 + nth 1 p 0 * x, nth 1 p 0).
Definition example_cos (x : Q) : Q := 1 - x * x / 2.
Definition example_radians (x : Q) : Q := x * (314159 # 18000000).

(** A table that breaks the data model: two segments of object 1,
    [[0, 10)] and [[5, 15)], overlap. *)
Definition overlapping_table : table := {|
  t_objId := [1; 1]%Z;
  t_tStart := [0; 5];
  t_tEnd := [10; 15];
  t_ra := [[10; 1]; [15; 1]];
  t_dec := [[-5; 1]; [0; 1]];
  t_delta := [[2]; [2]];
  t_vmag := [[18]; [18]];
  t_elongation := [[90]; [92]]
|}.

End ChebyValues.

(** * Properties *)

(** ** Comparisons and quotients of floats *)

Lemma Qltb_lt (x y : Q) : (x <? y) = true ↔ x < y.
Proof.
  unfold Qltb. rewrite negb_true_iff, <- not_true_iff_false, Qle_bool_iff.
  split; [apply Qnot_le_lt | apply Qlt_not_le].
Qed.

Lemma Qltb_ge (x y : Q) : (x <? y) = false ↔ y <= x.
Proof. unfold Qltb. rewrite negb_false_iff. apply Qle_bool_iff. Qed.

Ltac case_Qltb :=
  match goal with
  | |- context [Qltb ?a ?b] =>
      let E := fresh "E" in
      destruct (Qltb a b) eqn:E;
      [apply Qltb_lt in E | apply Qltb_ge in E]
  end.

Lemma Qdiv_pos (x f : Q) : 0 < x → 0 < f → 0 < x / f.
Proof. intros Hx Hf. apply Qlt_shift_div_l; lra. Qed.

Lemma Qdiv_le_self (x f : Q) : 0 < x → 1 <= f → x / f <= x.
Proof. intros Hx Hf. apply Qle_shift_div_r; [lra | nra]. Qed.

Lemma Qdiv_lt_self (x f : Q) : 0 < x → 1 < f → x / f < x.
Proof. intros Hx Hf. apply Qlt_shift_div_r; [lra | nra]. Qed.

(** ** chebyshev.py: the unwrap helper *)

Section Unwrap.
Import Chebyshev.

(** C7.  With a window whose minimum is below 100 degrees and whose
    maximum is above 270 degrees, [v_three_sixy_to_neg] maps an element
    above 270 degrees to the element minus 360 degrees and returns any
    other element unchanged; with a window that does not straddle the
    wrap (minimum at least 100 or maximum at most 270) it returns every
    element unchanged. *)
Theorem v_three_sixy_to_neg_rule (element min max : Q) :
  (min < 100 ∧ 270 < max →
     (270 < element → v_three_sixy_to_neg element min max = element - 360) ∧
     (element <= 270 → v_three_sixy_to_neg element min max = element)) ∧
  (100 <= min ∨ max <= 270 → v_three_sixy_to_neg element min max = element).
Proof.
  unfold v_three_sixy_to_neg. split.
  - intros [Hmin Hmax].
    apply Qltb_lt in Hmin, Hmax. rewrite Hmin, Hmax. simpl.
    split; intros H.
    + apply Qltb_lt in H. now rewrite H.
    + apply Qltb_ge in H. now rewrite H.
  - intros [H | H]; apply Qltb_ge in H; rewrite H; [reflexivity|].
    now rewrite andb_false_r.
Qed.

Lemma v_three_sixy_to_neg_rule_witness :
  v_three_sixy_to_neg 350 10 355 = 350 - 360 ∧
  v_three_sixy_to_neg 20 10 355 = 20 ∧
  v_three_sixy_to_neg 350 120 355 = 350.
Proof.
  split; [|split].
  - apply (proj1 (v_three_sixy_to_neg_rule 350 10 355)); [split|]; reflexivity.
  - apply (proj1 (v_three_sixy_to_neg_rule 20 10 355)); [split; reflexivity|].
    discriminate.
  - apply (proj2 (v_three_sixy_to_neg_rule 350 120 355)). left. discriminate.
Defined.

End Unwrap.

(** ** chebyshev.py: granularity *)

Section Granularity.
Import Chebyshev.

(** The slowest band does not reach the misspelt name: below 0.8
    degrees per day the first pass is 64 samples of 1/32 day. *)
Lemma setGranularity_slowest_band (s : ChebyFits.self) (distance_moved : Q) :
  distance_moved < 0.8 →
  ChebyFits._setGranularity module_globals distance_moved s
  = (OK tt, ChebyFits.Self (Some 64%Z) (Some 0.03125) (Some (64 * 0.03125))).
Proof.
  intros H. apply Qltb_lt in H.
  unfold ChebyFits._setGranularity, bind, ChebyFits.set_ngran.
  rewrite H. reflexivity.
Qed.

(** C3 (the code departs from the claim).  For every speed of at
    least 0.8 degrees per day [_setGranularity] reaches the first
    [elif], whose test reads the name [distance]; no such name exists,
    so the call raises [NameError] after setting [ngran] and sets
    neither [timestep] nor [length]. *)
Theorem setGranularity_name_error (s : ChebyFits.self) (distance_moved : Q) :
  0.8 <= distance_moved →
  ChebyFits._setGranularity module_globals distance_moved s
  = (Raise (NameError "distance"),
     ChebyFits.Self (Some 64%Z) (ChebyFits.timestep s) (ChebyFits.length s)).
Proof.
  intros H. apply Qltb_ge in H.
  unfold ChebyFits._setGranularity, bind, ChebyFits.set_ngran.
  rewrite H. reflexivity.
Qed.

Lemma setGranularity_name_error_witness :
  ChebyFits._setGranularity module_globals 1 (ChebyFits.Self None None None)
  = (Raise (NameError "distance"), ChebyFits.Self (Some 64%Z) None None).
Proof.
  apply (setGranularity_name_error (ChebyFits.Self None None None) 1).
  discriminate.
Defined.

Lemma Qle_bool_false_mono (a b x : Q) :
  a <= b → Qle_bool a x = false → Qle_bool b x = false.
Proof.
  intros Hab Ha. apply not_true_iff_false. rewrite Qle_bool_iff.
  apply not_true_iff_false in Ha. rewrite Qle_bool_iff in Ha.
  intros Hb. apply Ha. by eapply Qle_trans.
Qed.

Lemma band_monotone (speed speed' : Q) :
  speed <= speed' → (band speed <= band speed')%nat.
Proof.
  intros H. unfold band.
  induction speed_thresholds as [|th l IH]; simpl; [done|].
  destruct (Qle_bool th speed) eqn:E.
  - apply Qle_bool_iff in E.
    assert (Qle_bool th speed' = true) as -> by (apply Qle_bool_iff; lra).
    simpl. lia.
  - destruct (Qle_bool th speed'); simpl; lia.
Qed.

(** What the branches compute once the name [distance] is bound to the
    speed: nine bands, 64 samples in each, a timestep of 1/32 day
    halved once per band, and a length of 64 timesteps. *)
Lemma setGranularity_intended_table (globals : gmap string Q)
    (s : ChebyFits.self) (distance_moved : Q) :
  globals !! "distance" = Some distance_moved →
  ∃ ts,
    ChebyFits._setGranularity globals distance_moved s
    = (OK tt, ChebyFits.Self (Some 64%Z) (Some ts) (Some (64 * ts))) ∧
    ts == 0.03125 * (1 # 2) ^ Z.of_nat (band distance_moved) ∧
    (band distance_moved <= 8)%nat.
Proof.
  intros Hg.
  unfold ChebyFits._setGranularity, load_global, bind, ChebyFits.set_ngran,
    ChebyFits.set_timestep, ChebyFits.set_length, ChebyFits.getattr, ret.
  rewrite Hg. unfold band, speed_thresholds, Qltb. cbn [List.filter].
  repeat lazymatch goal with
  | |- context [Qle_bool ?a distance_moved] =>
      let E := fresh "E" in
      destruct (Qle_bool a distance_moved) eqn:E;
      [| repeat match goal with
         | |- context [Qle_bool ?b distance_moved] =>
             rewrite (Qle_bool_false_mono a b distance_moved
                        ltac:(discriminate) E)
         end ]
  end;
  (eexists; split; [reflexivity|]; split; [reflexivity | simpl; lia]).
Qed.

(** The run of [_updateGranularity] on an instance whose [timestep]
    and [length] are set. *)
Lemma updateGranularity_run (s : ChebyFits.self) (ts len p_resid dec : Q) :
  ChebyFits.timestep s = Some ts → ChebyFits.length s = Some len →
  ∃ factor : Q,
    factor = (if 1000 <? p_resid then 16 else if 100 <? p_resid then 8
              else if 15 <? p_resid then 6 else if 5 <? p_resid then 4
              else if 2 <? p_resid then 2 else 1) ∧
    ChebyFits._updateGranularity p_resid dec s
    = (OK tt,
       if (dec <? -75) || (75 <? dec)
       then ChebyFits.Self (ChebyFits.ngran s)
              (Some (ts / factor / 2)) (Some (len / factor / 2))
       else ChebyFits.Self (ChebyFits.ngran s)
              (Some (ts / factor)) (Some (len / factor))).
Proof.
  intros Hts Hlen. eexists. split; [reflexivity|].
  unfold ChebyFits._updateGranularity, bind, ChebyFits.getattr,
    ChebyFits.set_timestep, ChebyFits.set_length, ret.
  rewrite Hts. simpl. rewrite Hlen. simpl.
  destruct ((dec <? -75) || (75 <? dec)); reflexivity.
Qed.

(** C4.  [_updateGranularity] divides [timestep] and [length] by a
    factor that is a step function of the residual with the values 1,
    2, 4, 6, 8 and 16 (thresholds 2, 5, 15, 100 and 1000 mas), and
    halves both once more exactly when the declination is below -75 or
    above 75 degrees.  A residual of 20 mas gives the factor 6, and
    with a declination of -80 degrees the new length is one twelfth of
    the old one. *)
Theorem updateGranularity_shrink (s : ChebyFits.self) (ts len p_resid dec : Q) :
  ChebyFits.timestep s = Some ts → ChebyFits.length s = Some len →
  ∃ factor : Q,
    factor ∈ [1; 2; 4; 6; 8; 16] ∧
    ((factor = 16 ↔ 1000 < p_resid) ∧
     (factor = 8 ↔ 100 < p_resid <= 1000) ∧
     (factor = 6 ↔ 15 < p_resid <= 100) ∧
     (factor = 4 ↔ 5 < p_resid <= 15) ∧
     (factor = 2 ↔ 2 < p_resid <= 5) ∧
     (factor = 1 ↔ p_resid <= 2)) ∧
    (dec < -75 ∨ 75 < dec →
       ChebyFits._updateGranularity p_resid dec s
       = (OK tt, ChebyFits.Self (ChebyFits.ngran s)
                   (Some (ts / factor / 2)) (Some (len / factor / 2)))) ∧
    (-75 <= dec <= 75 →
       ChebyFits._updateGranularity p_resid dec s
       = (OK tt, ChebyFits.Self (ChebyFits.ngran s)
                   (Some (ts / factor)) (Some (len / factor)))) ∧
    (p_resid == 20 → factor = 6) ∧
    (p_resid == 20 → dec == -80 →
       ∃ ts' len',
         ChebyFits._updateGranularity p_resid dec s
         = (OK tt, ChebyFits.Self (ChebyFits.ngran s) (Some ts') (Some len')) ∧
         ts' == ts / 12 ∧ len' == len / 12).
Proof.
  intros Hts Hlen.
  destruct (updateGranularity_run s ts len p_resid dec Hts Hlen)
    as (factor & Hf & Hrun).
  exists factor. rewrite Hrun. clear Hrun.
  split; [|split; [|split; [|split; [|split]]]].
  - subst factor. repeat case_Qltb; set_solver.
  - subst factor.
    repeat case_Qltb; repeat split; intros;
      try discriminate; try lra; try reflexivity.
  - intros Hd. replace ((dec <? -75) || (75 <? dec)) with true; [reflexivity|].
    symmetry. apply orb_true_iff. rewrite !Qltb_lt. exact Hd.
  - intros [Hd1 Hd2]. apply Qltb_ge in Hd1, Hd2. now rewrite Hd1, Hd2.
  - intros Hp. subst factor. repeat case_Qltb; try reflexivity; lra.
  - intros Hp Hd.
    assert (Hpol : (dec <? -75) || (75 <? dec) = true).
    { apply orb_true_iff. left. apply Qltb_lt. lra. }
    rewrite Hpol.
    assert (factor = 6) as ->
      by (subst factor; repeat case_Qltb; try reflexivity; lra).
    eexists _, _. split; [reflexivity|]. split; field.
Qed.

(** The scenario of the claim: first pass of a slow object (1/32 day,
    2 days), residual 20 mas, declination -80 degrees. *)
Lemma updateGranularity_shrink_witness :
  ∃ ts' len',
    ChebyFits._updateGranularity 20 (-80)
      (ChebyFits.Self (Some 64%Z) (Some 0.03125) (Some 2))
    = (OK tt, ChebyFits.Self (Some 64%Z) (Some ts') (Some len')) ∧
    ts' == 0.03125 / 12 ∧ len' == 2 / 12.
Proof.
  destruct (updateGranularity_shrink
              (ChebyFits.Self (Some 64%Z) (Some 0.03125) (Some 2))
              0.03125 2 20 (-80) eq_refl eq_refl)
    as (factor & _ & _ & _ & _ & _ & H).
  exact (H (Qeq_refl 20) (Qeq_refl (-80))).
Defined.

(** C5.  On positive [timestep] and [length], [_updateGranularity]
    returns positive values that are not larger than the old ones, for
    every residual and declination; with a residual above the tolerance
    of 2.5 mas both are strictly smaller. *)
Theorem updateGranularity_never_coarser
    (s : ChebyFits.self) (ts len p_resid dec : Q) :
  ChebyFits.timestep s = Some ts → ChebyFits.length s = Some len →
  0 < ts → 0 < len →
  ∃ ts' len',
    ChebyFits._updateGranularity p_resid dec s
    = (OK tt, ChebyFits.Self (ChebyFits.ngran s) (Some ts') (Some len')) ∧
    0 < ts' ∧ 0 < len' ∧ ts' <= ts ∧ len' <= len ∧
    (2.5 < p_resid → ts' < ts ∧ len' < len).
Proof.
  intros Hts Hlen Hpts Hplen.
  destruct (updateGranularity_run s ts len p_resid dec Hts Hlen)
    as (factor & Hf & Hrun).
  rewrite Hrun. clear Hrun.
  assert (Hf1 : 1 <= factor) by (subst factor; repeat case_Qltb; lra).
  assert (Hf2 : 2.5 < p_resid → 2 <= factor)
    by (intros; subst factor; repeat case_Qltb; lra).
  clear Hf.
  assert (Hq : ∀ x, 0 < x →
            0 < x / factor ∧ x / factor <= x ∧ (2 <= factor → x / factor < x)).
  { intros x Hx. split; [apply Qdiv_pos; lra|].
    split; [apply Qdiv_le_self; lra|].
    intros. apply Qdiv_lt_self; lra. }
  destruct (Hq ts Hpts) as (T1 & T2 & T3).
  destruct (Hq len Hplen) as (L1 & L2 & L3).
  destruct ((dec <? -75) || (75 <? dec)); eexists _, _;
    (split; [reflexivity|]).
  - change (ts / factor / 2) with (ts / factor * (1 # 2)).
    change (len / factor / 2) with (len / factor * (1 # 2)).
    repeat split; lra.
  - repeat split; try lra; intros Hp; specialize (Hf2 Hp); auto.
Qed.

Lemma updateGranularity_never_coarser_witness :
  ∃ ts' len',
    ChebyFits._updateGranularity 3 0
      (ChebyFits.Self (Some 64%Z) (Some 0.03125) (Some 2))
    = (OK tt, ChebyFits.Self (Some 64%Z) (Some ts') (Some len')) ∧
    ts' < 0.03125 ∧ len' < 2.
Proof.
  destruct (updateGranularity_never_coarser
              (ChebyFits.Self (Some 64%Z) (Some 0.03125) (Some 2))
              0.03125 2 3 0 eq_refl eq_refl eq_refl eq_refl)
    as (ts' & len' & Hrun & _ & _ & _ & _ & Hlt).
  exists ts', len'. split; [exact Hrun|]. apply Hlt. reflexivity.
Defined.

End Granularity.

(** * chebyValues.py: properties *)

Section Values.
Import ChebyValues.

(** ** Rules for method bodies *)

Lemma wp_bind {S A B} (m : M S A) (k : A → M S B) (s : S)
    (Q : result B → S → Prop) :
  wp m s (λ r s', match r with
                  | OK a => wp (k a) s' Q
                  | Raise e => Q (Raise e) s'
                  end) →
  wp (bind m k) s Q.
Proof. unfold wp, bind. destruct (m s) as [[a|e] s']; auto. Qed.

Lemma wp_bind_post {S A B} (m : M S A) (k : A → M S B) (s : S)
    (P : result A → S → Prop) (Q : result B → S → Prop) :
  wp m s P →
  (∀ r s', P r s' → match r with
                    | OK a => wp (k a) s' Q
                    | Raise e => Q (Raise e) s'
                    end) →
  wp (bind m k) s Q.
Proof. intros Hm HP. apply wp_bind. apply HP, Hm. Qed.

Lemma wp_ret {S A} (a : A) (s : S) (Q : result A → S → Prop) :
  Q (OK a) s → wp (ret a) s Q.
Proof. auto. Qed.

Lemma wp_raise {S A} (e : exn) (s : S) (Q : result A → S → Prop) :
  Q (Raise e) s → wp (raise e) s Q.
Proof. auto. Qed.

Lemma wp_lift {S A} (r : result A) (s : S) (Q : result A → S → Prop) :
  Q r s → wp (lift r) s Q.
Proof. auto. Qed.

Lemma wp_foldM {S A B} (body : B → A → M S B) (I : B → S → Prop)
    (Q : result B → S → Prop) (l : list A) (b : B) (s : S) :
  I b s →
  (∀ b s x, x ∈ l → I b s →
     wp (body b x) s (λ r s', match r with
                              | OK b' => I b' s'
                              | Raise e => Q (Raise e) s'
                              end)) →
  (∀ b s, I b s → Q (OK b) s) →
  wp (foldM body b l) s Q.
Proof.
  revert b s. induction l as [|x l IH]; intros b s Hb Hbody Hend; simpl.
  - apply wp_ret. auto.
  - apply wp_bind. specialize (Hbody b s x (list_elem_of_here _ _) Hb) as Hx.
    unfold wp in *. destruct (body b x s) as [[b'|e] s']; simpl in *; [|done].
    apply IH; [done| |done].
    intros b0 s0 y Hy. apply Hbody. by apply list_elem_of_further.
Qed.

Lemma bind_lift_OK {S A B} (a : A) (k : A → M S B) : bind (lift (OK a)) k = k a.
Proof. reflexivity. Qed.

Lemma bind_run {S A B} (m : M S A) (k : A → M S B) (s s' : S) (a : A) :
  m s = (OK a, s') → bind m k s = k a s'.
Proof. intros H. unfold bind. by rewrite H. Qed.

(** ** Errors of the array primitives *)

Lemma result_bind_OK {A B} (m : result A) (k : A → result B) (b : B) :
  m ≫= k = OK b → ∃ a, m = OK a ∧ k a = OK b.
Proof. destruct m as [a|e]; [eauto | discriminate]. Qed.

Lemma result_bind_Raise {A B} (m : result A) (k : A → result B) (e : exn) :
  m ≫= k = Raise e → m = Raise e ∨ ∃ a, m = OK a ∧ k a = Raise e.
Proof. destruct m as [a|e']; [eauto | intros [= ->]; auto]. Qed.

Lemma getitem_plain {V} (d : gmap string V) k e :
  getitem d k = Raise e → plain e.
Proof. unfold getitem. destruct (d !! k); intros [= <-]; done. Qed.

Lemma vector_plain a e : vector a = Raise e → plain e.
Proof. destruct a; intros [= <-]; done. Qed.

Lemma idvector_plain a e : idvector a = Raise e → plain e.
Proof. destruct a as [|[|]| |]; intros [= <-]; done. Qed.

Lemma rowvector_plain a e : rowvector a = Raise e → plain e.
Proof. destruct a as [|[|]| |]; intros [= <-]; done. Qed.

Lemma mask_index_plain {A} (v : list A) mask e :
  mask_index v mask = Raise e → plain e.
Proof. unfold mask_index. case_match; intros [= <-]; done. Qed.

Lemma py_index_plain {A} (v : list A) i e : py_index v i = Raise e → plain e.
Proof. unfold py_index. repeat case_match; intros [= <-]; done. Qed.

Lemma setcell_plain eph k i v e : setcell eph k i v = Raise e → plain e.
Proof.
  unfold setcell. intros H. apply result_bind_Raise in H as [H|(c & _ & H)].
  - by eapply getitem_plain.
  - destruct c; [by injection H as <-|].
    case_bool_decide; [done|]. by injection H as <-.
Qed.

(** ** Masks, indices and dictionaries *)

Lemma select_length_mask {A B} (mask : list bool) (v : list A) (w : list B) :
  length v = length mask → length w = length mask →
  length (select mask v) = length (select mask w).
Proof.
  revert v w. induction mask as [|b mask IH]; intros [|x v] [|y w]; simpl; try done.
  intros [= Hv] [= Hw]. destruct b; simpl; auto.
Qed.

Lemma select_all {A} (v : list A) : select (replicate (length v) true) v = v.
Proof. induction v; simpl; congruence. Qed.

Lemma mask_index_ok {A} (v : list A) (mask : list bool) :
  length v = length mask → mask_index v mask = OK (select mask v).
Proof. intros H. unfold mask_index. by rewrite H, Nat.eqb_refl. Qed.

Lemma py_index_nat {A} (v : list A) (j : nat) (x : A) :
  v !! j = Some x → py_index v (Z.of_nat j) = OK x.
Proof.
  intros H. unfold py_index.
  assert (j < length v)%nat by (eapply lookup_lt_Some; eauto).
  replace (Z.of_nat j <? 0)%Z with false by (symmetry; apply Z.ltb_ge; lia).
  replace (0 <=? Z.of_nat j)%Z with true by (symmetry; apply Z.leb_le; lia).
  replace (Z.of_nat j <? Z.of_nat (length v))%Z with true
    by (symmetry; apply Z.ltb_lt; lia).
  simpl. by rewrite Nat2Z.id, H.
Qed.

Lemma getitem_Some {V} (d : gmap string V) (k : string) (v : V) :
  d !! k = Some v → getitem d k = OK v.
Proof. intros H. unfold getitem. by rewrite H. Qed.

Lemma well_formed_lengths (t : table) (n : nat) (width : string → nat) :
  well_formed t n width = true →
  length (t_objId t) = n ∧ length (t_tStart t) = n ∧ length (t_tEnd t) = n ∧
  ∀ k, k ∈ coeff_cols →
    length (t_quantity t k) = n ∧ Forall (λ r, length r = width k) (t_quantity t k).
Proof.
  unfold well_formed. rewrite !andb_true_iff, !Nat.eqb_eq, forallb_forall.
  intros [[[H1 H2] H3] H4]. repeat split; try done.
  - apply list_elem_of_In, H4 in H. unfold rectangular in H.
    apply andb_true_iff in H as [H _]. by apply Nat.eqb_eq.
  - apply list_elem_of_In, H4 in H. unfold rectangular in H.
    apply andb_true_iff in H as [_ H]. rewrite forallb_forall in H.
    apply Forall_forall. intros r Hr. apply Nat.eqb_eq, H. by apply list_elem_of_In.
Qed.

(** ** The lookup of line 139 *)

Lemma where_from_spec (mask : list bool) (i : nat) (z : Z) :
  z ∈ where_from i mask ↔ ∃ j, z = Z.of_nat (i + j) ∧ mask !! j = Some true.
Proof.
  revert i. induction mask as [|b mask IH]; intros i; simpl.
  - split; [by intros ?%elem_of_nil | by intros (j & _ & ?)].
  - assert (z ∈ where_from (S i) mask ↔
            ∃ j, z = Z.of_nat (i + S j) ∧ mask !! j = Some true) as IH'.
    { rewrite IH. by setoid_rewrite Nat.add_succ_r. }
    destruct b.
    + rewrite elem_of_cons, IH'. split.
      * intros [->|(j & -> & Hj)]; [exists 0%nat | exists (S j)]; split;
          try done. by rewrite Nat.add_0_r.
      * intros ([|j] & -> & Hj); [left; by rewrite Nat.add_0_r | right; eauto].
    + rewrite IH'. split.
      * intros (j & -> & Hj). exists (S j). eauto.
      * intros ([|j] & -> & Hj); [done | eauto].
Qed.

Lemma covering_spec (ts te : list Q) (time : Q) (z : Z) :
  z ∈ np_where (covers time ts te)
  ↔ ∃ j tS tE, z = Z.of_nat j ∧ ts !! j = Some tS ∧ te !! j = Some tE ∧
               tS <= time ∧ time < tE.
Proof.
  unfold np_where, covers. rewrite where_from_spec. split.
  - intros (j & -> & Hj). apply lookup_zip_with_Some in Hj as (a & b & Hab & Ha & Hb).
    apply list_lookup_fmap_Some in Ha as (tS & -> & HtS).
    apply list_lookup_fmap_Some in Hb as (tE & -> & HtE).
    symmetry in Hab. apply andb_true_iff in Hab as [H1 H2].
    exists j, tS, tE. repeat split; try done.
    + by apply Qle_bool_iff.
    + by apply Qltb_lt.
  - intros (j & tS & tE & -> & HtS & HtE & H1 & H2). exists j. split; [done|].
    apply lookup_zip_with_Some. exists true, true. split; [done|].
    apply Qle_bool_iff in H1. apply Qltb_lt in H2.
    split; apply list_lookup_fmap_Some; eauto.
Qed.

Lemma segments_inv (coeffs : gmap string ndarray) (time : Q) (mask : list bool)
    (segs : list Z) :
  segments coeffs time mask = OK segs →
  ∃ a_s a_e ts te,
    coeffs !! "tStart" = Some a_s ∧ vector a_s = OK ts ∧ length ts = length mask ∧
    coeffs !! "tEnd" = Some a_e ∧ vector a_e = OK te ∧ length te = length mask ∧
    segs = np_where (covers time (select mask ts) (select mask te)).
Proof.
  unfold segments, getitem, mask_index. intros H.
  destruct (coeffs !! "tStart") as [a_s|]; [|done]. simpl in H.
  destruct (vector a_s) as [ts|] eqn:Hts; [|done]. simpl in H.
  destruct (length ts =? length mask)%nat eqn:Els; [|done]. simpl in H.
  destruct (coeffs !! "tEnd") as [a_e|]; [|done]. simpl in H.
  destruct (vector a_e) as [te|] eqn:Hte; [|done]. simpl in H.
  destruct (length te =? length mask)%nat eqn:Ele; [|done]. simpl in H.
  injection H as <-. apply Nat.eqb_eq in Els, Ele.
  by exists a_s, a_e, ts, te.
Qed.

Lemma segments_plain coeffs time mask e :
  segments coeffs time mask = Raise e → plain e.
Proof.
  unfold segments. intros H.
  repeat match type of H with
  | _ ≫= _ = Raise _ =>
      apply result_bind_Raise in H as [H|(? & _ & H)]
  end;
  eauto using @getitem_plain, vector_plain, @mask_index_plain.
  done.
Qed.

(** ** Counting the selected segments *)

Lemma where_from_length (mask : list bool) (i : nat) :
  length (where_from i mask) = length (select mask mask).
Proof.
  revert i. induction mask as [|[] mask IH]; intros i; simpl; auto.
Qed.

Lemma select_elem_of {A} (mask : list bool) (v : list A) (x : A) :
  x ∈ select mask v → x ∈ v.
Proof.
  revert v. induction mask as [|b mask IH]; intros [|y v]; simpl;
    try by intros ?%elem_of_nil.
  destruct b; rewrite ?elem_of_cons; intros H; [destruct H as [->|H]|]; auto.
Qed.

Lemma select_in1d (ids wanted : list Z) (x : Z) :
  x ∈ select (np_in1d ids wanted) ids → x ∈ wanted.
Proof.
  unfold np_in1d. induction ids as [|y ids IH]; simpl;
    [by intros ?%elem_of_nil|].
  case_bool_decide; simpl; [|done].
  rewrite elem_of_cons. intros [->|]; auto.
Qed.

(** The ids picked after masking are a sublist of the ids picked on the
    whole table. *)
Lemma select_covers_sublist (time : Q) (mask : list bool) (ts te : list Q)
    (ids : list Z) :
  length ts = length mask → length te = length mask → length ids = length mask →
  select (covers time (select mask ts) (select mask te)) (select mask ids)
    `sublist_of` select (covers time ts te) ids.
Proof.
  revert ts te ids.
  induction mask as [|b mask IH]; intros [|s ts] [|e te] [|x ids]; simpl;
    try done.
  intros [= Hs] [= He] [= Hx]. specialize (IH ts te ids Hs He Hx).
  unfold covers in *. simpl.
  destruct b; simpl.
  - destruct (Qle_bool s time && (time <? e)); [by constructor | done].
  - destruct (Qle_bool s time && (time <? e)); [by constructor | done].
Qed.

Lemma np_unique_elem_of (ids : list Z) (x : Z) : x ∈ np_unique ids ↔ x ∈ ids.
Proof.
  unfold np_unique. rewrite merge_sort_Permutation. apply elem_of_remove_dups.
Qed.

Lemma covers_length (time : Q) (ts te : list Q) :
  length ts = length te → length (covers time ts te) = length ts.
Proof.
  intros H. unfold covers. rewrite length_zip_with, !length_fmap. lia.
Qed.

Lemma picked_count (time : Q) (mask : list bool) (ts te : list Q)
    (ids req : list Z) :
  length ts = length mask → length te = length mask → length ids = length mask →
  NoDup (select (covers time ts te) ids) →
  (∀ x, x ∈ select mask ids → x ∈ req) →
  (length (np_where (covers time (select mask ts) (select mask te)))
   <= length req)%nat.
Proof.
  intros Hs He Hi Hnd Hreq.
  set (C := covers time (select mask ts) (select mask te)).
  assert (length C = length (select mask ids)) as HC.
  { unfold C. rewrite covers_length.
    - apply select_length_mask; congruence.
    - apply select_length_mask; congruence. }
  unfold np_where. rewrite where_from_length.
  rewrite <- (select_length_mask C (select mask ids) C) by done.
  apply submseteq_length, NoDup_submseteq.
  - apply (sublist_NoDup _ (select (covers time ts te) ids));
      [exact Hnd | by apply select_covers_sublist].
  - intros x Hx. by apply Hreq, (select_elem_of C).
Qed.

(** ** Evaluation of a segment and of a query *)

Section Eval.
Variable chebeval : Q → list Q → Q * Q → bool → Q * Q.
Variable np_cos : Q → Q.
Variable np_radians : Q → Q.

Ltac plain_step H :=
  lazymatch type of H with
  | (let '(_, _) := ?c in _) = Raise _ => destruct c
  | _ ≫= _ = Raise _ => apply result_bind_Raise in H as [H|(? & ? & H)]
  | getitem _ _ = Raise _ => exact (getitem_plain _ _ _ H)
  | vector _ = Raise _ => exact (vector_plain _ _ H)
  | idvector _ = Raise _ => exact (idvector_plain _ _ H)
  | rowvector _ = Raise _ => exact (rowvector_plain _ _ H)
  | mask_index _ _ = Raise _ => exact (mask_index_plain _ _ _ H)
  | py_index _ _ = Raise _ => exact (py_index_plain _ _ _ H)
  | setcell _ _ _ _ = Raise _ => exact (setcell_plain _ _ _ _ _ H)
  | mret _ = Raise _ => discriminate H
  | OK _ = Raise _ => discriminate H
  end.

(** The coefficient list of quantity [k] for the segment at position
    [j] of the selection. *)
Lemma segment_coefficients (coeffs : gmap string ndarray) (t : table) (n : nat)
    (width : string → nat) (mask : list bool) (j : nat) (k : string) :
  represents coeffs t → well_formed t n width = true → length mask = n →
  (j < length (select mask (t_tStart t)))%nat → k ∈ coeff_cols →
  ∃ p, select mask (t_quantity t k) !! j = Some p ∧
       (a ← getitem coeffs k; r ← rowvector a;
        s ← mask_index r mask; py_index s (Z.of_nat j)) = OK p.
Proof.
  intros (_ & _ & _ & Hq) Hwf Hmask Hj Hk.
  apply well_formed_lengths in Hwf as (_ & Hts & _ & Hlen).
  destruct (Hq k Hk) as (m & Hm & Hrows).
  destruct (Hlen k Hk) as [Hn _].
  assert (is_Some (select mask (t_quantity t k) !! j)) as [p Hp].
  { apply lookup_lt_is_Some.
    rewrite (select_length_mask mask _ (t_tStart t)); [done| |]; congruence. }
  exists p. split; [done|].
  rewrite (getitem_Some _ _ _ Hm). simpl. rewrite Hrows.
  rewrite mask_index_ok by congruence. simpl. by apply py_index_nat.
Qed.

(** The run of [_evalSegment] on a stored segment. *)
Lemma evalSegment_run (coeffs : gmap string ndarray) (t : table) (n : nat)
    (width : string → nat) (subsetSegments : option (list bool))
    (mask : list bool) (j : nat) (time tS tE : Q) :
  represents coeffs t → well_formed t n width = true →
  mask = default (replicate n true) subsetSegments → length mask = n →
  select mask (t_tStart t) !! j = Some tS →
  select mask (t_tEnd t) !! j = Some tE →
  ∃ p_ra p_dec p_delta p_vmag p_elongation,
    select mask (t_ra t) !! j = Some p_ra ∧
    select mask (t_dec t) !! j = Some p_dec ∧
    select mask (t_delta t) !! j = Some p_delta ∧
    select mask (t_vmag t) !! j = Some p_vmag ∧
    select mask (t_elongation t) !! j = Some p_elongation ∧
    _evalSegment chebeval np_cos np_radians coeffs (Z.of_nat j) time subsetSegments
    = if (time <? tS) || (tE <? time) then Raise (ValueError out_of_bounds_msg)
      else
        let x := time - tS in
        let interval := (tS - tS, tE - tS) in
        OK (<["elongation" := fst (chebeval x p_elongation interval false)]> (
            <["vmag" := fst (chebeval x p_vmag interval false)]> (
            <["delta" := fst (chebeval x p_delta interval false)]> (
            <["dradt" := snd (chebeval x p_ra interval true)
                         * np_cos (np_radians (fst (chebeval x p_dec interval true)))]> (
            <["ddecdt" := snd (chebeval x p_dec interval true)]> (
            <["dec" := fst (chebeval x p_dec interval true)]> (
            <["dradt" := snd (chebeval x p_ra interval true)]> (
            <["ra" := fst (chebeval x p_ra interval true)]> ∅)))))))).
Proof.
  intros Hrep Hwf Hmask Hlen HtS HtE.
  assert (Hj : (j < length (select mask (t_tStart t)))%nat)
    by (eapply lookup_lt_Some; eauto).
  pose proof (segment_coefficients coeffs t n width mask j) as Hseg.
  destruct (Hseg "ra" Hrep Hwf Hlen Hj) as (p_ra & Hra & Era);
    [apply list_elem_of_In; simpl; tauto|].
  destruct (Hseg "dec" Hrep Hwf Hlen Hj) as (p_dec & Hdec & Edec);
    [apply list_elem_of_In; simpl; tauto|].
  destruct (Hseg "delta" Hrep Hwf Hlen Hj) as (p_delta & Hdelta & Edelta);
    [apply list_elem_of_In; simpl; tauto|].
  destruct (Hseg "vmag" Hrep Hwf Hlen Hj) as (p_vmag & Hvmag & Evmag);
    [apply list_elem_of_In; simpl; tauto|].
  destruct (Hseg "elongation" Hrep Hwf Hlen Hj) as (p_el & Hel & Eel);
    [apply list_elem_of_In; simpl; tauto|].
  exists p_ra, p_dec, p_delta, p_vmag, p_el.
  do 5 (split; [done|]).
  destruct Hrep as (Hid & Hts & Hte & _).
  apply well_formed_lengths in Hwf as (Lid & Lts & Lte & _).
  unfold _evalSegment.
  assert ((match subsetSegments with
           | None => a ← getitem coeffs "objId"; mret (replicate (np_len a) true)
           | Some mask => mret mask
           end) = OK mask) as ->.
  { subst mask. destruct subsetSegments; simpl; [done|].
    rewrite (getitem_Some _ _ _ Hid). simpl. by rewrite Lid. }
  simpl. rewrite (getitem_Some _ _ _ Hts), (getitem_Some _ _ _ Hte). simpl.
  rewrite !mask_index_ok by congruence. simpl.
  rewrite (py_index_nat _ _ _ HtS), (py_index_nat _ _ _ HtE). simpl.
  destruct ((time <? tS) || (tE <? time)); [done|].
  rewrite Era. simpl.
  destruct (chebeval (time - tS) p_ra (tS - tS, tE - tS) true) as [ra dradt].
  rewrite Edec. simpl.
  destruct (chebeval (time - tS) p_dec (tS - tS, tE - tS) true) as [dec ddecdt].
  rewrite (getitem_Some _ "dradt" dradt) by by simplify_map_eq.
  rewrite (getitem_Some _ "dec" dec) by by simplify_map_eq.
  simpl.
  rewrite Edelta. simpl.
  destruct (chebeval (time - tS) p_delta (tS - tS, tE - tS) false) as [delta ?].
  simpl. rewrite Evmag. simpl.
  destruct (chebeval (time - tS) p_vmag (tS - tS, tE - tS) false) as [vmag ?].
  simpl. rewrite Eel. simpl.
  destruct (chebeval (time - tS) p_el (tS - tS, tE - tS) false) as [el ?].
  reflexivity.
Qed.

(** A segment picked by line 139 passes the bounds test of
    [_evalSegment]: whatever the call raises is not a [ValueError]. *)
Lemma evalSegment_selected (coeffs : gmap string ndarray) (time : Q)
    (mask : list bool) (segs : list Z) (z : Z) (e : exn) :
  segments coeffs time mask = OK segs → z ∈ segs →
  _evalSegment chebeval np_cos np_radians coeffs z time (Some mask) = Raise e →
  plain e.
Proof.
  intros Hsegs Hz.
  apply segments_inv in Hsegs
    as (a_s & a_e & ts & te & Hs & Hts & Ls & He & Hte & Le & ->).
  apply covering_spec in Hz as (j & tS & tE & -> & HtS & HtE & H1 & H2).
  unfold _evalSegment. cbn [mbind result_bind mret result_ret].
  rewrite (getitem_Some _ _ _ Hs), (getitem_Some _ _ _ He).
  cbn [mbind result_bind]. rewrite Hts, Hte. cbn [mbind result_bind].
  rewrite !mask_index_ok by done. cbn [mbind result_bind].
  rewrite (py_index_nat _ _ _ HtS), (py_index_nat _ _ _ HtE).
  cbn [mbind result_bind].
  assert ((time <? tS) || (tE <? time) = false) as ->.
  { apply orb_false_iff. split; apply Qltb_ge; [done|].
    by apply Qlt_le_weak. }
  cbn [foldl]. intros H.
  repeat plain_step H.
Qed.

(** Lines 142-143 leave [ephemerides['objId']] alone and raise nothing
    but index and key errors. *)
Lemma setcells_objId (ephemeris : gmap string Q) (i : nat) (ks : list string)
    (acc : result (gmap string eph_column)) :
  "objId" ∉ ks →
  match foldl (λ acc k, e ← acc; v ← getitem ephemeris k; setcell e k i v) acc ks with
  | OK e' => ∃ e, acc = OK e ∧ e' !! "objId" = e !! "objId"
  | Raise x => (∀ x', acc = Raise x' → plain x') → plain x
  end.
Proof.
  revert acc. induction ks as [|k ks IH]; intros acc Hk; simpl.
  - destruct acc; eauto.
  - apply not_elem_of_cons in Hk as [Hk Hks].
    specialize (IH (e ← acc; v ← getitem ephemeris k; setcell e k i v) Hks).
    destruct (foldl _ _ ks) as [e'|x].
    + destruct IH as (e1 & H1 & Hobj).
      apply result_bind_OK in H1 as (e & -> & H1).
      apply result_bind_OK in H1 as (v & _ & H1).
      exists e. split; [done|]. rewrite Hobj.
      unfold setcell in H1. apply result_bind_OK in H1 as (c & _ & H1).
      destruct c; [done|]. case_bool_decide; [|done]. injection H1 as <-.
      by rewrite lookup_insert_ne.
    + intros Hacc. apply IH. intros x' H.
      repeat plain_step H; eauto.
Qed.

Lemma match_objIds_wp (coeffs : gmap string ndarray)
    (objIds : option objIds_arg) (h : heap) :
  wp (match_objIds coeffs objIds) h
    (λ r _, match r with
            | OK (_, ref, o) => o = None ∨ o = Some ref
            | Raise e => plain e
            end).
Proof.
  destruct objIds as [[id|ref]|];
    unfold wp, match_objIds, bind, lift, alloc, load, ret; simpl.
  - destruct (getitem coeffs "objId" ≫= _) eqn:H; simpl; [auto|].
    repeat plain_step H.
  - destruct (getitem coeffs "objId" ≫= _) eqn:H; simpl; [auto|].
    repeat plain_step H.
  - destruct (getitem coeffs "objId") eqn:H1; simpl; [|repeat plain_step H1].
    destruct (idvector a) eqn:H2; simpl; [auto|repeat plain_step H2].
Qed.

Lemma fill_row_wp (coeffs : gmap string ndarray) (time : Q) (objMatch : list bool)
    (segs : list Z) (ref : nat) (ephemerides : gmap string eph_column)
    (entry : nat * Z) (h : heap) :
  segments coeffs time objMatch = OK segs → entry ∈ imap pair segs →
  ephemerides !! "objId" = Some (IdsRef ref) →
  wp (fill_row chebeval np_cos np_radians coeffs time objMatch ephemerides entry) h
    (λ r _, match r with
            | OK e' => e' !! "objId" = Some (IdsRef ref)
            | Raise e => plain e
            end).
Proof.
  intros Hsegs Hentry Hobj. destruct entry as [i z].
  apply elem_of_lookup_imap in Hentry as (i' & z' & [= -> ->] & Hz).
  apply list_elem_of_lookup_2 in Hz.
  unfold fill_row. apply wp_bind, wp_lift.
  destruct (_evalSegment _ _ _ _ _ _ _) as [ephemeris|e] eqn:Heval;
    [|by eapply evalSegment_selected].
  apply wp_bind, wp_lift.
  pose proof (setcells_objId ephemeris i' ephemerisKeys (OK ephemerides)) as Hcells.
  destruct (foldl _ _ ephemerisKeys) as [e'|e].
  2:{ apply Hcells; [|done]. unfold ephemerisKeys. rewrite !not_elem_of_cons.
      repeat split; try done. apply not_elem_of_nil. }
  destruct Hcells as (e0 & [= <-] & Hobj').
  { unfold ephemerisKeys. rewrite !not_elem_of_cons.
    repeat split; try done. apply not_elem_of_nil. }
  apply wp_bind, wp_lift.
  destruct (getitem coeffs "objId" ≫= _) as [id|e] eqn:Hid;
    [|repeat plain_step Hid].
  apply wp_bind, wp_lift. rewrite Hobj in Hobj'.
  rewrite (getitem_Some _ _ _ Hobj').
  apply wp_bind. unfold wp, store. case_bool_decide; simpl; done.
Qed.

Lemma check_match_wp (ephemerides : gmap string eph_column) (ref : nat)
    (o : option nat) (h : heap) :
  ephemerides !! "objId" = Some (IdsRef ref) → o = None ∨ o = Some ref →
  check_match ephemerides o h = (OK tt, h).
Proof.
  intros Hobj [->| ->]; [done|].
  unfold check_match, bind, lift. rewrite (getitem_Some _ _ _ Hobj). simpl.
  by rewrite bool_decide_false by (intros H; by apply H).
Qed.

(** [getEphemerides] raises no [ValueError] at all: the bounds test of
    [_evalSegment] holds for every segment that line 139 selects, and
    the comparison of line 146 is between an object and itself. *)
Theorem getEphemerides_no_value_error (coeffs : gmap string ndarray) (time : Q)
    (objIds : option objIds_arg) (h : heap) (msg : string) :
  fst (getEphemerides chebeval np_cos np_radians coeffs time objIds h)
  ≠ Raise (ValueError msg).
Proof.
  enough (wp (getEphemerides chebeval np_cos np_radians coeffs time objIds) h
            (λ r _, ∀ e, r = Raise e → plain e)) as H.
  { intros Hr. by apply (H _ Hr msg). }
  unfold getEphemerides.
  apply (wp_bind_post _ _ _ _ _ (match_objIds_wp coeffs objIds h)).
  intros [[[objMatch ref] o]|e] h1 Hsel; [|congruence].
  apply wp_bind. unfold wp at 1, load. simpl.
  apply wp_bind, wp_lift.
  destruct (segments coeffs time objMatch) as [segs|e] eqn:Hsegs;
    [|intros ? [= <-]; by eapply segments_plain].
  apply wp_bind.
  apply (wp_foldM _ (λ e _, e !! "objId" = Some (IdsRef ref))).
  - unfold zero_filled. simpl. by simplify_map_eq.
  - intros b s x Hx Hb.
    pose proof (fill_row_wp coeffs time objMatch segs ref b x s Hsegs Hx Hb) as Hrow.
    unfold wp in *. destruct (fill_row _ _ _ _ _ _ _ _ s) as [[e'|e] s']; simpl in *;
      [done | congruence].
  - intros b s Hb. apply wp_bind. unfold wp at 1.
    rewrite (check_match_wp b ref o s Hb Hsel). simpl. unfold wp. simpl. done.
Qed.

(** C1 (the code departs from the claim).  The example table holds
    segments of the objects 1 and 2 only.  A query for the id 7 at time
    5 does not raise: it returns the arrays as they were initialised,
    one zero per quantity, under the id 7. *)
Theorem getEphemerides_unknown_id :
  getEphemerides chebeval np_cos np_radians example_coeffs 5
    (Some (ObjIdArray 0)) [[7]%Z]
  = (OK (zero_filled 0 1 5), [[7]%Z]).
Proof. vm_compute. reflexivity. Qed.

Lemma segments_run (coeffs : gmap string ndarray) (t : table) (n : nat)
    (width : string → nat) (mask : list bool) (time : Q) :
  represents coeffs t → well_formed t n width = true → length mask = n →
  segments coeffs time mask
  = OK (np_where (covers time (select mask (t_tStart t))
                                   (select mask (t_tEnd t)))).
Proof.
  intros (_ & Hts & Hte & _) Hwf Hmask.
  apply well_formed_lengths in Hwf as (_ & Ls & Le & _).
  unfold segments.
  rewrite (getitem_Some _ _ _ Hts), (getitem_Some _ _ _ Hte). simpl.
  by rewrite !mask_index_ok by congruence.
Qed.

Lemma zero_filled_sized (ref : nat) (time : Q) (h : heap) :
  sized ref (length (default [] (h !! ref)))
    (zero_filled ref (length (default [] (h !! ref))) time) h.
Proof.
  split; [|split; [|done]].
  - unfold zero_filled. simpl. by simplify_map_eq.
  - intros k Hk. unfold ephemerisKeys in Hk.
    rewrite !elem_of_cons, elem_of_nil in Hk.
    unfold zero_filled. simpl.
    destruct Hk as [->|[->|[->|[->|[->|[->|[->|[]]]]]]]];
      eexists; (split; [by simplify_map_eq | by rewrite length_replicate]).
Qed.

Lemma select_elem_of_lookup {A} (mask : list bool) (v : list A) (x : A) :
  x ∈ select mask v → ∃ i, mask !! i = Some true ∧ v !! i = Some x.
Proof.
  revert v. induction mask as [|b mask IH]; intros [|y v]; simpl;
    try by intros ?%elem_of_nil.
  destruct b.
  - rewrite elem_of_cons. intros [->|H]; [by exists 0%nat|].
    destruct (IH v H) as (i & ? & ?). by exists (S i).
  - intros H. destruct (IH v H) as (i & ? & ?). by exists (S i).
Qed.

Lemma select_NoDup {A} (mask : list bool) (v : list A) :
  (∀ i j x, i ≠ j → mask !! i = Some true → mask !! j = Some true →
            v !! i = Some x → v !! j = Some x → False) →
  NoDup (select mask v).
Proof.
  revert v. induction mask as [|b mask IH]; intros [|y v] H; simpl;
    try apply NoDup_nil_2.
  assert (NoDup (select mask v)) as Hrest.
  { apply IH. intros i j x Hij Hi Hj Hx Hx'.
    apply (H (S i) (S j) x); auto. }
  destruct b; [|done].
  apply NoDup_cons. split; [|done].
  intros (i & Hi & Hx)%select_elem_of_lookup.
  by apply (H 0%nat (S i) y).
Qed.

Lemma covers_lookup (time : Q) (ts te : list Q) (i : nat) :
  covers time ts te !! i = Some true →
  ∃ tS tE, ts !! i = Some tS ∧ te !! i = Some tE ∧ tS <= time ∧ time < tE.
Proof.
  unfold covers. intros (a & b & Hab & Ha & Hb)%lookup_zip_with_Some.
  apply list_lookup_fmap_Some in Ha as (tS & -> & HtS).
  apply list_lookup_fmap_Some in Hb as (tE & -> & HtE).
  symmetry in Hab. apply andb_true_iff in Hab as [H1 H2].
  exists tS, tE. repeat split; try done.
  - by apply Qle_bool_iff.
  - by apply Qltb_lt.
Qed.

(** In a table whose segments do not overlap, at most one segment of
    an object covers a given time. *)
Lemma non_overlapping_covering (t : table) (time : Q) :
  non_overlapping t → NoDup (covering_ids t time).
Proof.
  intros Hno. apply select_NoDup. intros i j id Hij Hi Hj Hid Hid'.
  apply covers_lookup in Hi as (tS & tE & HtS & HtE & H1 & H2).
  apply covers_lookup in Hj as (tS' & tE' & HtS' & HtE' & H1' & H2').
  destruct (Hno i j id tS tE tS' tE'); try done; lra.
Qed.

(** The run of [_evalSegment] on a stored segment, by its outcome: the
    out-of-bounds error outside the closed interval, the evaluation of
    the coefficients of the segment inside it. *)
Lemma evalSegment_evaluates (coeffs : gmap string ndarray) (t : table) (n : nat)
    (width : string → nat) (subsetSegments : option (list bool))
    (mask : list bool) (j : nat) (time tS tE : Q) :
  represents coeffs t → well_formed t n width = true →
  mask = default (replicate n true) subsetSegments → length mask = n →
  select mask (t_tStart t) !! j = Some tS →
  select mask (t_tEnd t) !! j = Some tE →
  ∃ p_ra p_dec p_delta p_vmag p_elongation,
    select mask (t_ra t) !! j = Some p_ra ∧
    select mask (t_dec t) !! j = Some p_dec ∧
    select mask (t_delta t) !! j = Some p_delta ∧
    select mask (t_vmag t) !! j = Some p_vmag ∧
    select mask (t_elongation t) !! j = Some p_elongation ∧
    (_evalSegment chebeval np_cos np_radians coeffs (Z.of_nat j) time subsetSegments
     = Raise (ValueError out_of_bounds_msg) ↔ time < tS ∨ tE < time) ∧
    (tS <= time → time <= tE →
     ∃ ephemeris,
       _evalSegment chebeval np_cos np_radians coeffs (Z.of_nat j) time
         subsetSegments = OK ephemeris ∧
       evaluates chebeval np_cos np_radians ephemeris time tS tE
         p_ra p_dec p_delta p_vmag p_elongation).
Proof.
  intros Hrep Hwf Hdef Hmask HtS HtE.
  destruct (evalSegment_run coeffs t n width subsetSegments mask j time tS tE)
    as (p_ra & p_dec & p_delta & p_vmag & p_el & Hra & Hdec & Hdelta & Hvmag
        & Hel & ->); try done.
  exists p_ra, p_dec, p_delta, p_vmag, p_el. do 5 (split; [done|]).
  assert (Hb : (time <? tS) || (tE <? time) = true ↔ time < tS ∨ tE < time).
  { by rewrite orb_true_iff, !Qltb_lt. }
  split.
  - destruct ((time <? tS) || (tE <? time)).
    + split; [intros _; by apply Hb | done].
    + split; [done|]. intros H. apply Hb in H. done.
  - intros H1 H2.
    assert ((time <? tS) || (tE <? time) = false) as ->.
    { apply orb_false_iff. split; by apply Qltb_ge. }
    eexists. split; [reflexivity|].
    unfold evaluates. cbv zeta.
    repeat (split; [by simplify_map_eq|]).
    rewrite !dom_insert_L, dom_empty_L. unfold ephemerisKeys. simpl.
    set_solver.
Qed.

(** C9.  For a stored segment, [_evalSegment] raises its out-of-bounds
    error exactly when the time is strictly below [tStart] or strictly
    above [tEnd]; at every time of the closed interval it returns the
    evaluation of the coefficients of the segment, in particular at
    [time = tEnd], which the lookup of line 139 does not resolve to the
    segment. *)
Theorem evalSegment_closed_interval (coeffs : gmap string ndarray) (t : table)
    (n : nat) (width : string → nat) (subsetSegments : option (list bool))
    (mask : list bool) (j : nat) (time tS tE : Q) :
  represents coeffs t → well_formed t n width = true →
  mask = default (replicate n true) subsetSegments → length mask = n →
  select mask (t_tStart t) !! j = Some tS →
  select mask (t_tEnd t) !! j = Some tE →
  ∃ p_ra p_dec p_delta p_vmag p_elongation,
    select mask (t_ra t) !! j = Some p_ra ∧
    select mask (t_dec t) !! j = Some p_dec ∧
    select mask (t_delta t) !! j = Some p_delta ∧
    select mask (t_vmag t) !! j = Some p_vmag ∧
    select mask (t_elongation t) !! j = Some p_elongation ∧
    (_evalSegment chebeval np_cos np_radians coeffs (Z.of_nat j) time subsetSegments
     = Raise (ValueError out_of_bounds_msg) ↔ time < tS ∨ tE < time) ∧
    (tS <= time ∧ time <= tE →
     ∃ ephemeris,
       _evalSegment chebeval np_cos np_radians coeffs (Z.of_nat j) time
         subsetSegments = OK ephemeris ∧
       evaluates chebeval np_cos np_radians ephemeris time tS tE
         p_ra p_dec p_delta p_vmag p_elongation) ∧
    (time == tE → tS <= tE →
     (∃ ephemeris,
        _evalSegment chebeval np_cos np_radians coeffs (Z.of_nat j) time
          subsetSegments = OK ephemeris ∧
        evaluates chebeval np_cos np_radians ephemeris time tS tE
          p_ra p_dec p_delta p_vmag p_elongation) ∧
     ∃ segs, segments coeffs time mask = OK segs ∧ Z.of_nat j ∉ segs).
Proof.
  intros Hrep Hwf Hdef Hmask HtS HtE.
  destruct (evalSegment_evaluates coeffs t n width subsetSegments mask j time tS tE)
    as (p_ra & p_dec & p_delta & p_vmag & p_el & Hra & Hdec & Hdelta & Hvmag
        & Hel & Hout & Hin); try done.
  exists p_ra, p_dec, p_delta, p_vmag, p_el. do 5 (split; [done|]).
  split; [done|]. split; [by intros []; apply Hin|].
  intros Heq Hle. split; [apply Hin; lra|].
  eexists. split; [by eapply segments_run|].
  rewrite covering_spec.
  intros (j' & tS' & tE' & Hj & HtS' & HtE' & H1 & H2).
  apply Nat2Z.inj in Hj as <-. simplify_eq. lra.
Qed.

(** C6.  For every evaluation of a stored segment, the returned
    [dradt] is the derivative [chebeval] gives for the [ra] expansion
    multiplied by [np.cos(np.radians(dec))] at the evaluated
    declination, and the returned [ddecdt] is the derivative [chebeval]
    gives for the [dec] expansion, unchanged. *)
Theorem evalSegment_rates (coeffs : gmap string ndarray) (t : table)
    (n : nat) (width : string → nat) (subsetSegments : option (list bool))
    (mask : list bool) (j : nat) (time tS tE : Q) :
  represents coeffs t → well_formed t n width = true →
  mask = default (replicate n true) subsetSegments → length mask = n →
  select mask (t_tStart t) !! j = Some tS →
  select mask (t_tEnd t) !! j = Some tE →
  tS <= time → time <= tE →
  ∃ p_ra p_dec ephemeris,
    select mask (t_ra t) !! j = Some p_ra ∧
    select mask (t_dec t) !! j = Some p_dec ∧
    _evalSegment chebeval np_cos np_radians coeffs (Z.of_nat j) time subsetSegments
    = OK ephemeris ∧
    let raw_ra := chebeval (time - tS) p_ra (tS - tS, tE - tS) true in
    let raw_dec := chebeval (time - tS) p_dec (tS - tS, tE - tS) true in
    ephemeris !! "dec" = Some (fst raw_dec) ∧
    ephemeris !! "dradt" = Some (snd raw_ra * np_cos (np_radians (fst raw_dec))) ∧
    ephemeris !! "ddecdt" = Some (snd raw_dec).
Proof.
  intros Hrep Hwf Hdef Hmask HtS HtE H1 H2.
  destruct (evalSegment_run coeffs t n width subsetSegments mask j time tS tE)
    as (p_ra & p_dec & ? & ? & ? & Hra & Hdec & _ & _ & _ & Hrun); try done.
  exists p_ra, p_dec. eexists. split; [done|]. split; [done|].
  split.
  { rewrite Hrun. replace ((time <? tS) || (tE <? time)) with false; [done|].
    symmetry. apply orb_false_iff. split; by apply Qltb_ge. }
  simpl. by simplify_map_eq.
Qed.
End Eval.

Lemma prefix_append (k s : string) : String.prefix k (k +:+ s) = true.
Proof.
  induction k as [|c k IH]; simpl; [by destruct s|].
  destruct (Ascii.ascii_dec c c); [done|congruence].
Qed.

Lemma prefix_ne (k x y : string) :
  String.prefix k x = true → String.prefix k y = false → x ≠ y.
Proof. congruence. Qed.

Lemma append_inj_l (k s s' : string) : k +:+ s = k +:+ s' → s = s'.
Proof. induction k; simpl; [done|]. intros [= H]. auto. Qed.

Lemma coeff_name_inj (k : string) (i i' : nat) :
  coeff_name k i = coeff_name k i' → i = i'.
Proof.
  unfold coeff_name. intros H.
  apply append_inj_l, append_inj_l in H.
  assert (NilEmpty.uint_of_string (NilEmpty.string_of_uint (Nat.to_uint i))
          = NilEmpty.uint_of_string (NilEmpty.string_of_uint (Nat.to_uint i'))) as H'
    by by rewrite H.
  rewrite !NilEmpty.usu in H'. injection H' as H'.
  by apply Unsigned.to_uint_inj.
Qed.

Lemma prefix_coeff_name (k : string) (i : nat) :
  String.prefix k (coeff_name k i) = true.
Proof. apply prefix_append. Qed.

Lemma prefix_coeff_name_other (k k' : string) (i : nat) :
  k ∈ coeff_cols → k' ∈ coeff_cols → k ≠ k' →
  String.prefix k (coeff_name k' i) = false.
Proof.
  unfold coeff_cols. rewrite !elem_of_cons, !elem_of_nil.
  intros [->|[->|[->|[->|[->|[]]]]]] [->|[->|[->|[->|[->|[]]]]]] Hne;
    try done.
Qed.

(** ** Columns of the persisted table *)

Lemma find_app_None {A} (P : A → bool) (l1 l2 : list A) :
  (∀ x, x ∈ l1 → P x = false) → find P (l1 ++ l2) = find P l2.
Proof.
  induction l1 as [|x l1 IH]; intros H; simpl; [done|].
  rewrite (H x) by apply list_elem_of_here.
  apply IH. intros y Hy. apply H. by apply list_elem_of_further.
Qed.

Lemma coeff_columns_names (k : string) (m : nat) (rs : list (list Q)) c :
  c ∈ coeff_columns k m rs → ∃ i, fst c = coeff_name k i.
Proof.
  unfold coeff_columns. intros (i & -> & _)%list_elem_of_fmap. eauto.
Qed.

Lemma find_coeff_columns (k : string) (m : nat) (rs : list (list Q)) (i : nat)
    (rest : dataframe) :
  (i < m)%nat →
  df_find (coeff_columns k m rs ++ rest) (coeff_name k i)
  = Some (FloatCol ((λ r, nth i r 0) <$> rs)).
Proof.
  unfold df_find, coeff_columns. intros Hi.
  assert (∀ a b, (a <= i < a + b)%nat →
    find (λ c : string * column, bool_decide (c.1 = coeff_name k i))
      (((λ i0, (coeff_name k i0, FloatCol ((λ r, nth i0 r 0) <$> rs))) <$> seq a b) ++ rest)
    = Some (coeff_name k i, FloatCol ((λ r, nth i r 0) <$> rs))) as H.
  { intros a b. revert a. induction b as [|b IH]; intros a Hab; [lia|].
    simpl. case_bool_decide as Hc.
    - apply coeff_name_inj in Hc as ->. done.
    - apply IH. assert (a ≠ i) by congruence. lia. }
  rewrite (H 0%nat m) by lia. done.
Qed.

Lemma find_coeff_columns_other (k k' : string) (m : nat) (rs : list (list Q))
    (i : nat) (rest : dataframe) :
  String.prefix k' (coeff_name k i) = false →
  df_find (coeff_columns k' m rs ++ rest) (coeff_name k i)
  = df_find rest (coeff_name k i).
Proof.
  intros Hp. unfold df_find. f_equal. apply find_app_None.
  intros c (i' & Hc)%coeff_columns_names.
  apply bool_decide_eq_false. rewrite Hc.
  eapply prefix_ne; [apply prefix_coeff_name|done].
Qed.

Lemma persisted_getitem (t : table) (width : string → nat) (k : string) (i : nat) :
  k ∈ coeff_cols → (i < width k)%nat →
  df_getitem (persisted t width) (coeff_name k i)
  = OK (FloatCol ((λ r, nth i r 0) <$> t_quantity t k)).
Proof.
  intros Hk Hi. unfold df_getitem, persisted.
  assert (∀ name c rest, String.prefix k name = false →
            df_find ((name, c) :: rest) (coeff_name k i)
            = df_find rest (coeff_name k i)) as Hhead.
  { intros name c rest Hp. unfold df_find. simpl.
    rewrite bool_decide_false; [done|].
    simpl. intros ->. by rewrite prefix_coeff_name in Hp. }
  assert (df_find [] (coeff_name k i) = None) as Hnil by done.
  assert (∀ k' rs, coeff_columns k' (width k') rs
                   = coeff_columns k' (width k') rs ++ []) as Hr
    by (intros; by rewrite app_nil_r).
  unfold coeff_cols in Hk. rewrite !elem_of_cons, elem_of_nil in Hk.
  cbn [app].
  destruct Hk as [->|[->|[->|[->|[->|[]]]]]];
    rewrite !Hhead by done;
    repeat (rewrite find_coeff_columns_other by done);
    first [rewrite find_coeff_columns by done
          |rewrite Hr, find_coeff_columns by done]; done.
Qed.

Lemma filter_all {A} (P : A → Prop) `{∀ x, Decision (P x)} (l : list A) :
  (∀ x, x ∈ l → P x) → filter P l = l.
Proof.
  induction l as [|x l IH]; intros HP; [done|].
  rewrite filter_cons_True by (apply HP, list_elem_of_here).
  f_equal. apply IH. intros y Hy. by apply HP, list_elem_of_further.
Qed.

Lemma filter_none {A} (P : A → Prop) `{∀ x, Decision (P x)} (l : list A) :
  (∀ x, x ∈ l → ¬ P x) → filter P l = [].
Proof.
  induction l as [|x l IH]; intros HP; [done|].
  rewrite filter_cons_False by (apply HP, list_elem_of_here).
  apply IH. intros y Hy. by apply HP, list_elem_of_further.
Qed.

Lemma coeff_columns_filter (k k' : string) (m : nat) (rs : list (list Q)) :
  k ∈ coeff_cols → k' ∈ coeff_cols →
  length (filter (λ x, String.prefix k x = true) (fst <$> coeff_columns k' m rs))
  = if decide (k = k') then m else 0%nat.
Proof.
  intros Hk Hk'. case_decide as Heq.
  - subst k'. rewrite filter_all.
    + unfold coeff_columns. by rewrite !length_fmap, length_seq.
    + intros x (c & -> & (i & ->)%coeff_columns_names)%list_elem_of_fmap.
      apply prefix_coeff_name.
  - rewrite filter_none; [done|].
    intros x (c & -> & (i & ->)%coeff_columns_names)%list_elem_of_fmap.
    by rewrite prefix_coeff_name_other.
Qed.

Lemma persisted_columns (t : table) (width : string → nat) (k : string) :
  k ∈ coeff_cols →
  length (filter (λ x, String.prefix k x = true) (df_columns (persisted t width)))
  = width k.
Proof.
  intros Hk. unfold df_columns, persisted.
  rewrite !fmap_app, !filter_app, !length_app.
  rewrite !coeff_columns_filter by (done || (apply list_elem_of_In; simpl; tauto)).
  unfold coeff_cols in Hk. rewrite !elem_of_cons, elem_of_nil in Hk.
  destruct Hk as [->|[->|[->|[->|[->|[]]]]]]; done.
Qed.

(** ** Transposition *)

Lemma fmap_nth_seq {A} (l : list A) (d : A) :
  (λ i, nth i l d) <$> seq 0 (length l) = l.
Proof.
  apply list_eq. intros i. rewrite list_lookup_fmap.
  destruct (decide (i < length l)%nat) as [Hi|Hi].
  - rewrite lookup_seq_lt by done. simpl.
    destruct (lookup_lt_is_Some_2 l i Hi) as [x Hx]. rewrite Hx.
    f_equal. by apply nth_lookup_Some with (d := d) in Hx.
  - rewrite lookup_seq_ge by lia. by rewrite lookup_ge_None_2 by lia.
Qed.

Lemma rectangular_spec (n m : nat) (rs : list (list Q)) :
  rectangular n m rs = true ↔ length rs = n ∧ Forall (λ r, length r = m) rs.
Proof.
  unfold rectangular. rewrite andb_true_iff, Nat.eqb_eq, forallb_forall, Forall_forall.
  setoid_rewrite Nat.eqb_eq. setoid_rewrite list_elem_of_In. done.
Qed.

Lemma transpose_transpose (n m : nat) (rs : list (list Q)) :
  rectangular n m rs = true → transpose n (transpose m rs) = rs.
Proof.
  intros [Hn Hm]%rectangular_spec. unfold transpose.
  transitivity ((λ j, nth j rs []) <$> seq 0 (length rs));
    [|apply fmap_nth_seq].
  rewrite Hn. apply list_fmap_ext. intros j ? Hj.
  apply lookup_seq in Hj as [-> Hj]. simpl.
  rewrite <- list_fmap_compose.
  assert (length (nth j rs []) = m) as Hlen.
  { destruct (lookup_lt_is_Some_2 rs j) as [r Hr]; [lia|].
    rewrite (nth_lookup_Some _ _ _ _ Hr).
    by eapply (proj1 (Forall_lookup _ _) Hm). }
  transitivity ((λ i, nth i (nth j rs []) 0) <$> seq 0 (length (nth j rs [])));
    [|apply fmap_nth_seq].
  rewrite Hlen. apply list_fmap_ext. intros i ? Hi.
  apply lookup_seq in Hi as [-> Hi]. simpl.
  pose proof (map_nth (λ r : list Q, nth i r 0) rs [] j) as H.
  destruct i; exact H.
Qed.

Lemma transpose_head (m : nat) (rs : list (list Q)) :
  (0 < m)%nat →
  ∃ rest, transpose m rs = ((λ r, nth 0 r 0) <$> rs) :: rest.
Proof. destruct m; [lia|]. intros _. unfold transpose. simpl. eauto. Qed.

(** ** The loops of [readCoefficients] *)

Lemma fill_rows (df : dataframe) (k : string) (m n : nat) (g : nat → list Q)
    (d : gmap string ndarray) (r0 : list (list Q)) :
  (∀ i, (i < m)%nat → ∃ c, df_getitem df (coeff_name k i) = OK c ∧ as_floats c = g i) →
  d !! k = Some (FloatMat (Mat m n r0)) → length r0 = m →
  for_each (seq 0 m)
    (λ i, do c <- lift (df_getitem df (coeff_name k i)); setrow k i c) d
  = (OK tt, <[k := FloatMat (Mat m n (g <$> seq 0 m))]> d).
Proof.
  intros Hcol Hk Hr0.
  assert (∀ b a r d, (a + b = m)%nat → d !! k = Some (FloatMat (Mat m n r)) →
            length r = m →
            for_each (seq a b)
              (λ i, do c <- lift (df_getitem df (coeff_name k i)); setrow k i c) d
            = (OK tt, <[k := FloatMat (Mat m n (take a r ++ (g <$> seq a b)))]> d))
    as Hgen.
  { clear d r0 Hk Hr0. induction b as [|b IH]; intros a r d Hab Hk Hr; simpl.
    - rewrite app_nil_r, take_ge by lia. by rewrite insert_id.
    - destruct (Hcol a) as (c & Hc & Hg); [lia|].
      unfold bind at 1 2, lift at 1, setrow at 1. rewrite Hc, Hk. simpl.
      rewrite bool_decide_true by lia.
      rewrite (IH (S a) (<[a := as_floats c]> r)); simpl.
      + rewrite insert_insert_eq. do 4 f_equal.
        rewrite (take_S_r _ _ (as_floats c)) by (apply list_lookup_insert_eq; lia).
        rewrite take_insert_ge by lia. rewrite <- app_assoc. simpl. by rewrite Hg.
      + lia.
      + by rewrite lookup_insert_eq.
      + by rewrite length_insert. }
  rewrite (Hgen m 0%nat r0 d) by done. done.
Qed.

(** ** [setCoefficients] and its check *)

Lemma missing_key_iff (d : gmap string pyval) :
  (0 < size ((list_to_set coeffKeys : gset string) ∖ dom (np_array <$> d)))%nat
  ↔ ∃ k, k ∈ coeffKeys ∧ d !! k = None.
Proof.
  rewrite dom_fmap_L.
  split.
  - intros H. apply size_pos_elem_of in H as [k Hk].
    exists k. apply elem_of_difference in Hk as [Hk1 Hk2].
    split; [by apply elem_of_list_to_set in Hk1|].
    by apply not_elem_of_dom in Hk2.
  - intros (k & Hk & Hnone).
    assert (k ∈ (list_to_set coeffKeys : gset string) ∖ dom d) as Hin.
    { apply elem_of_difference. split; [by apply elem_of_list_to_set|].
      by apply not_elem_of_dom. }
    destruct (decide (size ((list_to_set coeffKeys : gset string) ∖ dom d) = 0%nat)) as [Hz|Hz]; [|lia].
    apply size_empty_iff in Hz. apply Hz in Hin. by apply not_elem_of_empty in Hin.
Qed.

Lemma zero_order_no_value_error (d : gmap string ndarray) (k msg : string) :
  (a ← getitem d k; m ← swapaxes01 a; item0 m) ≠ Raise (ValueError msg).
Proof.
  unfold getitem, swapaxes01, item0, mbind, result_bind.
  destruct (d !! k) as [[| |m|]|]; try discriminate.
  simpl. destruct (transpose (ncol m) (rows m)); discriminate.
Qed.

(** C10.  [setCoefficients] raises its missing-keys error exactly when
    one of the eight required keys is absent from the supplied
    dictionary, and it raises it after [self.coeffs] has been replaced:
    the receiver then holds the supplied dictionary, converted to
    arrays, whatever it held before. *)
Theorem setCoefficients_not_atomic
    (chebyFits_coeffs : gmap string pyval) (previous : gmap string ndarray) :
  (fst (setCoefficients chebyFits_coeffs previous) = Raise (ValueError missing_keys_msg)
   ↔ ∃ k, k ∈ coeffKeys ∧ chebyFits_coeffs !! k = None) ∧
  (fst (setCoefficients chebyFits_coeffs previous) = Raise (ValueError missing_keys_msg) →
   snd (setCoefficients chebyFits_coeffs previous) = np_array <$> chebyFits_coeffs).
Proof.
  unfold setCoefficients, bind, put, get. simpl.
  case_bool_decide as Hmiss.
  - split; [|reflexivity]. split; [|reflexivity].
    intros _. by apply missing_key_iff.
  - rewrite missing_key_iff in Hmiss.
    assert (∀ r : result unit * gmap string ndarray,
              fst r ≠ Raise (ValueError missing_keys_msg) →
              (fst r = Raise (ValueError missing_keys_msg) ↔ ∃ k, k ∈ coeffKeys ∧ chebyFits_coeffs !! k = None) ∧
              (fst r = Raise (ValueError missing_keys_msg) → snd r = np_array <$> chebyFits_coeffs)) as Hno.
    { intros r Hr. split; [split|]; intros; done. }
    apply Hno. clear Hno Hmiss.
    unfold lift, setitem. simpl.
    destruct (a ← getitem (np_array <$> chebyFits_coeffs) "ra";
              m ← swapaxes01 a; item0 m) as [meanRA|e] eqn:Hra; simpl.
    + destruct (a ← getitem (<["meanRA" := meanRA]> (np_array <$> chebyFits_coeffs)) "dec";
                m ← swapaxes01 a; item0 m) as [meanDec|e] eqn:Hdec; simpl;
        [discriminate|].
      intros [= ->]. by apply zero_order_no_value_error in Hdec.
    + intros [= ->]. by apply zero_order_no_value_error in Hra.
Qed.


(** ** The two ways to load a table *)

Lemma np_array_rectangular (n m : nat) (rs : list (list Q)) :
  rectangular n m rs = true → (0 < n)%nat →
  np_array (PyLists rs) = FloatMat (Mat n m rs).
Proof.
  intros [Hn Hm]%rectangular_spec Hpos.
  destruct rs as [|r rs]; simpl in *; [lia|].
  apply Forall_cons in Hm as [Hr Hm].
  rewrite (proj2 (forallb_forall _ _)).
  - by rewrite Hr, Hn.
  - intros r' Hr'. apply Nat.eqb_eq. rewrite Hr.
    by apply (proj1 (Forall_forall _ _) Hm), list_elem_of_In.
Qed.

Lemma well_formed_quantity (t : table) (n : nat) (width : string → nat) (k : string) :
  well_formed t n width = true → k ∈ coeff_cols →
  rectangular n (width k) (t_quantity t k) = true.
Proof.
  unfold well_formed. rewrite !andb_true_iff, forallb_forall.
  intros [_ H] Hk. by apply H, list_elem_of_In.
Qed.

Lemma in_coeff_cols (k : string) :
  k ∈ coeff_cols ↔ k = "ra" ∨ k = "dec" ∨ k = "delta" ∨ k = "vmag" ∨ k = "elongation".
Proof. unfold coeff_cols. rewrite !elem_of_cons, elem_of_nil. tauto. Qed.

Lemma fit_coeffs_arrays (t : table) (n : nat) (width : string → nat) :
  well_formed t n width = true → (0 < n)%nat →
  np_array <$> fit_coeffs t
  = <["objId" := IntArr (t_objId t)]> (
    <["tStart" := FloatArr (t_tStart t)]> (
    <["tEnd" := FloatArr (t_tEnd t)]> (
    <["ra" := FloatMat (Mat n (width "ra") (t_ra t))]> (
    <["dec" := FloatMat (Mat n (width "dec") (t_dec t))]> (
    <["delta" := FloatMat (Mat n (width "delta") (t_delta t))]> (
    <["vmag" := FloatMat (Mat n (width "vmag") (t_vmag t))]> (
    <["elongation" := FloatMat (Mat n (width "elongation") (t_elongation t))]> ∅))))))).
Proof.
  intros Hwf Hn. unfold fit_coeffs. rewrite !fmap_insert, fmap_empty.
  pose proof (λ k Hk, np_array_rectangular n (width k) (t_quantity t k)
                        (well_formed_quantity t n width k Hwf Hk) Hn) as Hq.
  pose proof (Hq "ra") as H1. pose proof (Hq "dec") as H2.
  pose proof (Hq "delta") as H3. pose proof (Hq "vmag") as H4.
  pose proof (Hq "elongation") as H5.
  change (t_quantity t "ra") with (t_ra t) in H1.
  change (t_quantity t "dec") with (t_dec t) in H2.
  change (t_quantity t "delta") with (t_delta t) in H3.
  change (t_quantity t "vmag") with (t_vmag t) in H4.
  change (t_quantity t "elongation") with (t_elongation t) in H5.
  rewrite H1, H2, H3, H4, H5 by (apply in_coeff_cols; tauto).
  apply well_formed_lengths in Hwf as (Hid & _).
  assert (np_array (PyInts (t_objId t)) = IntArr (t_objId t)) as ->
    by (destruct (t_objId t); simpl in *; [lia|done]).
  done.
Qed.

Lemma setCoefficients_run (t : table) (n : nat) (width : string → nat)
    (previous : gmap string ndarray) :
  well_formed t n width = true → (0 < n)%nat →
  (0 < width "ra")%nat → (0 < width "dec")%nat →
  setCoefficients (fit_coeffs t) previous = (OK tt, loaded t n width).
Proof.
  intros Hwf Hn Hra Hdec.
  unfold setCoefficients, bind, put, get. simpl.
  rewrite bool_decide_false.
  2:{ rewrite missing_key_iff. intros (k & Hk & Hnone).
      unfold coeffKeys in Hk. rewrite !elem_of_cons, elem_of_nil in Hk.
      unfold fit_coeffs in Hnone.
      destruct Hk as [->|[->|[->|[->|[->|[->|[->|[->|[]]]]]]]]];
        by simplify_map_eq. }
  rewrite (fit_coeffs_arrays t n width Hwf Hn).
  unfold lift, setitem.
  destruct (transpose_head (width "ra") (t_ra t) Hra) as (rest_ra & Hhra).
  destruct (transpose_head (width "dec") (t_dec t) Hdec) as (rest_dec & Hhdec).
  rewrite (getitem_Some _ "ra" (FloatMat (Mat n (width "ra") (t_ra t))))
    by by simplify_map_eq.
  simpl. rewrite Hhra. simpl.
  rewrite (getitem_Some _ "dec" (FloatMat (Mat n (width "dec") (t_dec t))))
    by by simplify_map_eq.
  simpl. rewrite Hhdec. simpl. done.
Qed.

Lemma read_quantity (t : table) (n : nat) (width : string → nat) (k : string)
    (d : gmap string ndarray) :
  k ∈ coeff_cols →
  (setitem k (FloatMat (np_empty (width k) n)) ;;
   for_each (seq 0 (width k)) (λ i,
     do c <- lift (df_getitem (persisted t width) (coeff_name k i));
     setrow k i c)) d
  = (OK tt, <[k := FloatMat (Mat (width k) n
                      (transpose (width k) (t_quantity t k)))]> d).
Proof.
  intros Hk. unfold bind at 1, setitem.
  rewrite (fill_rows _ k (width k) n
             (λ i, (λ r, nth i r 0) <$> t_quantity t k) _
             (replicate (width k) (replicate n 0))).
  - by rewrite insert_insert_eq.
  - intros i Hi. eexists. split; [by apply persisted_getitem|done].
  - by rewrite lookup_insert_eq.
  - by rewrite length_replicate.
Qed.

Lemma swap_quantity (k : string) (m : matrix) (d : gmap string ndarray) :
  d !! k = Some (FloatMat m) →
  (do d <- get;
   do a <- lift (a ← getitem d k; swapaxes01 a);
   setitem k a) d
  = (OK tt, <[k := FloatMat (swapped m)]> d).
Proof.
  intros Hk. unfold bind, get, lift, setitem.
  by rewrite (getitem_Some _ _ _ Hk).
Qed.

Lemma swap_all (d : gmap string ndarray) (m_ra m_dec m_delta m_vmag m_el : matrix) :
  d !! "ra" = Some (FloatMat m_ra) → d !! "dec" = Some (FloatMat m_dec) →
  d !! "delta" = Some (FloatMat m_delta) → d !! "vmag" = Some (FloatMat m_vmag) →
  d !! "elongation" = Some (FloatMat m_el) →
  for_each coeff_cols (λ k,
    do d <- get;
    do m <- lift (a ← getitem d k; swapaxes01 a);
    setitem k m) d
  = (OK tt, <["elongation" := FloatMat (swapped m_el)]> (
            <["vmag" := FloatMat (swapped m_vmag)]> (
            <["delta" := FloatMat (swapped m_delta)]> (
            <["dec" := FloatMat (swapped m_dec)]> (
            <["ra" := FloatMat (swapped m_ra)]> d))))).
Proof.
  intros H1 H2 H3 H4 H5. unfold coeff_cols. cbn [for_each].
  assert (∀ k m d' (rest : M (gmap string ndarray) unit),
            d' !! k = Some (FloatMat m) →
            ((do d <- get;
              do a <- lift (a ← getitem d k; swapaxes01 a);
              setitem k a) ;; rest) d'
            = rest (<[k := FloatMat (swapped m)]> d')) as Hstep.
  { intros k m d' rest Hk. by rewrite (bind_run _ _ _ _ _ (swap_quantity k m d' Hk)). }
  rewrite (Hstep "ra" m_ra) by done.
  rewrite (Hstep "dec" m_dec) by (by rewrite !lookup_insert_ne).
  rewrite (Hstep "delta" m_delta) by (by rewrite !lookup_insert_ne).
  rewrite (Hstep "vmag" m_vmag) by (by rewrite !lookup_insert_ne).
  rewrite (Hstep "elongation" m_el) by (by rewrite !lookup_insert_ne).
  done.
Qed.

(** Without a segment, or without a coefficient for [ra] or [dec],
    the in-memory path does not build a dictionary at all. *)
Lemma setCoefficients_degenerate (t : table) (n : nat) (width : string → nat)
    (previous : gmap string ndarray) :
  well_formed t n width = true →
  (n = 0 ∨ width "ra" = 0 ∨ width "dec" = 0)%nat →
  ∃ e, fst (setCoefficients (fit_coeffs t) previous) = Raise e.
Proof.
  intros Hwf Hdeg.
  pose proof (well_formed_lengths _ _ _ Hwf) as (_ & _ & _ & Hq).
  destruct (Hq "ra") as [Lra Wra]; [apply in_coeff_cols; tauto|].
  destruct (Hq "dec") as [Ldec Wdec]; [apply in_coeff_cols; tauto|].
  change (t_quantity t "ra") with (t_ra t) in Lra, Wra.
  change (t_quantity t "dec") with (t_dec t) in Ldec, Wdec.
  unfold setCoefficients, bind, put, get. simpl.
  rewrite bool_decide_false.
  2:{ rewrite missing_key_iff. intros (k & Hk & Hnone).
      unfold coeffKeys in Hk. rewrite !elem_of_cons, elem_of_nil in Hk.
      unfold fit_coeffs in Hnone.
      destruct Hk as [->|[->|[->|[->|[->|[->|[->|[->|[]]]]]]]]];
        by simplify_map_eq. }
  unfold lift, setitem.
  destruct (decide (n = 0%nat)) as [->|Hn].
  { rewrite (getitem_Some _ "ra" (FloatArr [])); [simpl; eauto|].
    rewrite lookup_fmap. unfold fit_coeffs. simplify_map_eq.
    by destruct (t_ra t). }
  rewrite (fit_coeffs_arrays t n width Hwf) by lia.
  rewrite (getitem_Some _ "ra" (FloatMat (Mat n (width "ra") (t_ra t))))
    by by simplify_map_eq.
  destruct (decide (width "ra" = 0%nat)) as [Hra|Hra].
  { rewrite Hra. simpl. eauto. }
  destruct (transpose_head (width "ra") (t_ra t) ltac:(lia)) as (rest & Hhead).
  simpl. rewrite Hhead. simpl.
  rewrite (getitem_Some _ "dec" (FloatMat (Mat n (width "dec") (t_dec t))))
    by by simplify_map_eq.
  assert (width "dec" = 0%nat) as -> by lia. simpl. eauto.
Qed.

Lemma loaded_represents (t : table) (n : nat) (width : string → nat) :
  represents (loaded t n width) t.
Proof.
  unfold represents, loaded. repeat split; try by simplify_map_eq.
  intros k Hk. apply in_coeff_cols in Hk.
  destruct Hk as [->|[->|[->|[->| ->]]]]; eexists; by simplify_map_eq.
Qed.

End Values.

(** * chebyshev.py: further properties *)

Section Refinement.
Import Chebyshev.

(** X1.  For a window that straddles the wrap (minimum below 100,
    maximum above 270 degrees) and an angle in [[0, 360)], the unwrapped
    angle lies in [(-90, 270]], differs from the angle by 0 or by 360
    degrees, and is left alone by a second pass with the same window. *)
Theorem unwrap_range (element min max : Q) :
  min < 100 → 270 < max → 0 <= element → element < 360 →
  -90 < v_three_sixy_to_neg element min max ∧
  v_three_sixy_to_neg element min max <= 270 ∧
  (v_three_sixy_to_neg element min max = element ∨
   v_three_sixy_to_neg element min max = element - 360) ∧
  v_three_sixy_to_neg (v_three_sixy_to_neg element min max) min max
  = v_three_sixy_to_neg element min max.
Proof.
  intros Hmin Hmax H0 H360. unfold v_three_sixy_to_neg.
  apply Qltb_lt in Hmin, Hmax. rewrite Hmin, Hmax. simpl.
  destruct (270 <? element) eqn:E.
  - apply Qltb_lt in E.
    assert ((270 <? element - 360) = false) as -> by (apply Qltb_ge; lra).
    repeat split; try lra. by right.
  - rewrite E. apply Qltb_ge in E. repeat split; try lra. by left.
Qed.

(** X2.  [__init__] never completes: whatever the arguments, it stores
    [skyTolerance], then reads the local [ephfile] before any assignment
    and raises; [pyephems] is not set. *)
Lemma init_unbound_local (engine : Type)
    (PyEphemerides : option string → result engine)
    (os_getenv : string → option string)
    (os_path_join : option string → string → result string)
    (skyTolerance : Q) (ephFile : option string) (s : ChebyFits.instance engine) :
  ChebyFits.__init__ engine PyEphemerides os_getenv os_path_join skyTolerance ephFile s
  = (Raise (NameError "ephfile"),
     ChebyFits.Instance engine (Some skyTolerance) (ChebyFits.pyephems engine s)).
Proof. reflexivity. Qed.

(** X3.  The data flow of [_setGranularity] when the module binds a
    global [distance]: below 0.8 degrees per day the parameter decides
    (1/32 day); from 0.8 on the parameter is not read again and the
    global alone picks the band, never the slowest one.  The length is
    64 timesteps. *)
Theorem setGranularity_reads_global (globals : gmap string Q)
    (s : ChebyFits.self) (distance_moved distance : Q) :
  globals !! "distance" = Some distance →
  ∃ ts,
    ChebyFits._setGranularity globals distance_moved s
    = (OK tt, ChebyFits.Self (Some 64%Z) (Some ts) (Some (64 * ts))) ∧
    (distance_moved < 0.8 → ts == 0.03125) ∧
    (0.8 <= distance_moved →
     ts == 0.03125 * (1 # 2) ^ Z.of_nat (Nat.max 1 (band distance))).
Proof.
  intros Hg.
  unfold ChebyFits._setGranularity, load_global, bind, ChebyFits.set_ngran,
    ChebyFits.set_timestep, ChebyFits.set_length, ChebyFits.getattr, ret.
  rewrite Hg.
  destruct (distance_moved <? 0.8) eqn:Ed.
  { apply Qltb_lt in Ed. eexists. split; [reflexivity|].
    split; [reflexivity | lra]. }
  apply Qltb_ge in Ed.
  unfold band, speed_thresholds, Qltb. cbn [List.filter].
  destruct (Qle_bool 0.8 distance) eqn:E0.
  - repeat lazymatch goal with
    | |- context [negb (Qle_bool ?a distance)] =>
        let E := fresh "E" in
        destruct (Qle_bool a distance) eqn:E;
        [| repeat match goal with
           | |- context [Qle_bool ?b distance] =>
               rewrite (Qle_bool_false_mono a b distance
                          ltac:(discriminate) E)
           end ]
    end;
    (eexists; split; [reflexivity|]; split; [lra | intros _; reflexivity]).
  - assert (∀ b, 0.8 <= b → Qle_bool b distance = false) as Hb
      by (intros b Hb; by apply (Qle_bool_false_mono 0.8)).
    rewrite !Hb by discriminate. simpl.
    eexists; split; [reflexivity|]; split; [lra | intros _; reflexivity].
Qed.

(** The factor of lines 130-140 as a function of the residual. *)
Lemma factor_cases (p : Q) :
  let factor := (if 1000 <? p then 16 else if 100 <? p then 8
                 else if 15 <? p then 6 else if 5 <? p then 4
                 else if 2 <? p then 2 else 1) in
  1 <= factor ∧ factor <= 16 ∧ (2 < p → 2 <= factor).
Proof. simpl. repeat case_Qltb; lra. Qed.

Lemma factor_monotone (p p' : Q) :
  p <= p' →
  (if 1000 <? p then 16 else if 100 <? p then 8
   else if 15 <? p then 6 else if 5 <? p then 4
   else if 2 <? p then 2 else 1)
  <= (if 1000 <? p' then 16 else if 100 <? p' then 8
      else if 15 <? p' then 6 else if 5 <? p' then 4
      else if 2 <? p' then 2 else 1).
Proof. intros H. repeat case_Qltb; lra. Qed.

Lemma Qdiv_le_compat_l (x f g : Q) : 0 <= x → 0 < f → f <= g → x / g <= x / f.
Proof.
  intros Hx Hf Hfg. apply Qle_shift_div_l; [lra|].
  assert (x / g * f <= x / g * g) as H.
  { assert (0 <= x / g) by (apply Qle_shift_div_l; lra). nra. }
  assert (x / g * g == x) as Hg by (field; lra).
  lra.
Qed.

(** X4.  First pass and one refinement of a slow object (below 0.8
    degrees per day), whatever the instance held before: the call pair
    returns with [ngran = 64], a length of 64 timesteps, a timestep
    between 1/1024 and 1/32 day and a length of at most 2 days. *)
Theorem first_pass_then_refine (s : ChebyFits.self) (distance_moved p_resid dec : Q) :
  distance_moved < 0.8 →
  ∃ ts len,
    (ChebyFits._setGranularity module_globals distance_moved ;;
     ChebyFits._updateGranularity p_resid dec) s
    = (OK tt, ChebyFits.Self (Some 64%Z) (Some ts) (Some len)) ∧
    len == 64 * ts ∧ 0 < ts ∧ ts <= 0.03125 ∧ len <= 2 ∧
    0.03125 <= ts * 32.
Proof.
  intros Hd.
  rewrite (bind_run _ _ _ _ _ (setGranularity_slowest_band s distance_moved Hd)).
  destruct (updateGranularity_run
              (ChebyFits.Self (Some 64%Z) (Some 0.03125) (Some (64 * 0.03125)))
              0.03125 (64 * 0.03125) p_resid dec eq_refl eq_refl)
    as (f & Hf & ->).
  pose proof (factor_cases p_resid) as (F1 & F2 & _). cbv zeta in *.
  rewrite <- Hf in *. clear Hf. cbn [ChebyFits.ngran].
  assert (E1 : 0.03125 / f * f == 0.03125) by (field; lra).
  assert (E2 : 64 * 0.03125 / f * f == 64 * 0.03125) by (field; lra).
  assert (0 < 0.03125 / f) by (apply Qdiv_pos; lra).
  destruct ((dec <? -75) || (75 <? dec)); eexists _, _; (split; [reflexivity|]).
  - change (0.03125 / f / 2) with (0.03125 / f * (1 # 2)).
    change (64 * 0.03125 / f / 2) with (64 * 0.03125 / f * (1 # 2)).
    repeat split; nra.
  - repeat split; nra.
Qed.

(** X5.  On an instance without a [timestep], a first pass at 0.8
    degrees per day or more leaves only [ngran] behind, and the
    refinement that follows raises [AttributeError] for [timestep] and
    changes nothing. *)
Theorem refine_after_failed_first_pass (s : ChebyFits.self)
    (distance_moved p_resid dec : Q) :
  0.8 <= distance_moved → ChebyFits.timestep s = None →
  ChebyFits._updateGranularity p_resid dec
    (snd (ChebyFits._setGranularity module_globals distance_moved s))
  = (Raise (AttributeError "timestep"),
     ChebyFits.Self (Some 64%Z) None (ChebyFits.length s)).
Proof.
  intros Hd Hts. apply Qltb_ge in Hd.
  unfold ChebyFits._setGranularity, bind, ChebyFits.set_ngran.
  rewrite Hd. simpl. rewrite Hts.
  unfold ChebyFits._updateGranularity, bind, ChebyFits.getattr. reflexivity.
Qed.

(** X7.  A larger residual never gives a coarser grid: on the same
    instance and at the same declination, the timestep and the length
    that the call with the larger residual leaves are not larger. *)
Theorem updateGranularity_monotone (s : ChebyFits.self)
    (ts len p_resid p_resid' dec : Q) :
  ChebyFits.timestep s = Some ts → ChebyFits.length s = Some len →
  0 < ts → 0 < len → p_resid <= p_resid' →
  ∃ ts1 len1 ts2 len2,
    ChebyFits._updateGranularity p_resid dec s
    = (OK tt, ChebyFits.Self (ChebyFits.ngran s) (Some ts1) (Some len1)) ∧
    ChebyFits._updateGranularity p_resid' dec s
    = (OK tt, ChebyFits.Self (ChebyFits.ngran s) (Some ts2) (Some len2)) ∧
    ts2 <= ts1 ∧ len2 <= len1.
Proof.
  intros Hts Hlen Hpts Hplen Hp.
  destruct (updateGranularity_run s ts len p_resid dec Hts Hlen)
    as (f & Hf & ->).
  destruct (updateGranularity_run s ts len p_resid' dec Hts Hlen)
    as (f' & Hf' & ->).
  pose proof (factor_monotone p_resid p_resid' Hp) as Hmono.
  pose proof (factor_cases p_resid) as (F1 & _).
  cbv zeta in *. rewrite <- Hf, <- Hf' in *. clear Hf Hf'.
  assert (Hq : ∀ x, 0 < x → x / f' <= x / f).
  { intros x Hx. apply Qdiv_le_compat_l; lra. }
  pose proof (Hq ts Hpts) as T1. pose proof (Hq len Hplen) as L1.
  destruct ((dec <? -75) || (75 <? dec)); eexists _, _, _, _;
    (split; [reflexivity|]); (split; [reflexivity|]).
  - change (ts / f / 2) with (ts / f * (1 # 2)).
    change (len / f / 2) with (len / f * (1 # 2)).
    change (ts / f' / 2) with (ts / f' * (1 # 2)).
    change (len / f' / 2) with (len / f' * (1 # 2)).
    split; lra.
  - split; lra.
Qed.

End Refinement.

(** * chebyValues.py: loading *)

Section Loading.
Import ChebyValues.

Lemma for_each_ext {S A} (l : list A) (body body' : A → M S unit) (s : S) :
  (∀ x s, x ∈ l → body x s = body' x s) →
  for_each l body s = for_each l body' s.
Proof.
  revert s. induction l as [|x l IH]; intros s H; simpl; [done|].
  unfold bind. rewrite (H x s) by apply list_elem_of_here.
  destruct (body' x s) as [[[]|e] s']; [|done].
  apply IH. intros y s0 Hy. apply H. by apply list_elem_of_further.
Qed.

Lemma for_each_app {S A} (l1 l2 : list A) (body : A → M S unit) (s : S) :
  for_each (l1 ++ l2) body s
  = match for_each l1 body s with
    | (OK _, s') => for_each l2 body s'
    | (Raise e, s') => (Raise e, s')
    end.
Proof.
  revert s. induction l1 as [|x l1 IH]; intros s; simpl; [done|].
  unfold bind. destruct (body x s) as [[[]|e] s']; [apply IH | done].
Qed.

Lemma wp_for_each {S A} (body : A → M S unit) (P : exn → Prop)
    (l : list A) (s : S) :
  (∀ x s, wp (body x) s (λ r _, ∀ e, r = Raise e → P e)) →
  wp (for_each l body) s (λ r _, ∀ e, r = Raise e → P e).
Proof.
  intros Hbody. revert s. induction l as [|x l IH]; intros s; simpl.
  - by apply wp_ret.
  - apply wp_bind. specialize (Hbody x s). unfold wp in *.
    destruct (body x s) as [[[]|e] s']; simpl in *; [apply IH | done].
Qed.

Lemma wp_setitem {V} (k : string) (v : V) (d : gmap string V)
    (Q : result unit → gmap string V → Prop) :
  Q (OK tt) (<[k := v]> d) → wp (setitem k v) d Q.
Proof. done. Qed.

Lemma wp_get {S} (s : S) (Q : result S → S → Prop) :
  Q (OK s) s → wp get s Q.
Proof. done. Qed.

Lemma df_attr_not_io df name e : df_attr df name = Raise e → not_io e.
Proof. unfold df_attr. case_match; intros [= <-]; done. Qed.

Lemma df_getitem_not_io df name e : df_getitem df name = Raise e → not_io e.
Proof. unfold df_getitem. case_match; intros [= <-]; done. Qed.

Lemma getitem_not_io {V} (d : gmap string V) k e :
  getitem d k = Raise e → not_io e.
Proof. unfold getitem. case_match; intros [= <-]; done. Qed.

Lemma item0_not_io a e : item0 a = Raise e → not_io e.
Proof. unfold item0. repeat case_match; intros [= <-]; done. Qed.

Lemma swapaxes01_not_io a e : swapaxes01 a = Raise e → not_io e.
Proof. unfold swapaxes01. repeat case_match; intros [= <-]; done. Qed.

(** [readCoefficients] looks at a frame through the three named
    columns, the number of rows, the number of columns with the prefix
    of each quantity and the columns called [k_i]. *)
Lemma readCoefficients_ext (fs fs' : gmap string (result dataframe)) (path path' : string)
    (df df' : dataframe) (s : gmap string ndarray) :
  fs !! path = Some (OK df) → fs' !! path' = Some (OK df') →
  df_find df "objId" = df_find df' "objId" →
  df_find df "tStart" = df_find df' "tStart" →
  df_find df "tEnd" = df_find df' "tEnd" →
  df_len df = df_len df' →
  (∀ k, k ∈ coeff_cols →
     length (filter (λ x, String.prefix k x = true) (df_columns df))
     = length (filter (λ x, String.prefix k x = true) (df_columns df'))) →
  (∀ k i, k ∈ coeff_cols →
     df_find df (coeff_name k i) = df_find df' (coeff_name k i)) →
  readCoefficients fs path s = readCoefficients fs' path' s.
Proof.
  intros Hfs Hfs' Ho Hs He Hlen Hcols Hget.
  unfold readCoefficients. rewrite Hfs, Hfs', !bind_lift_OK. unfold df_attr.
  rewrite Ho, Hs, He, Hlen.
  unfold bind at 1 12, lift at 1 8.
  destruct (df_find df' "objId") as [c1|]; [|done].
  unfold bind at 1 11, setitem at 1 8.
  unfold bind at 1 10, lift at 1 7.
  destruct (df_find df' "tStart") as [c2|]; [|done].
  unfold bind at 1 9, setitem at 1 7.
  unfold bind at 1 8, lift at 1 6.
  destruct (df_find df' "tEnd") as [c3|]; [|done].
  unfold bind at 1 7, setitem at 1 6.
  unfold bind at 1 6.
  rewrite (for_each_ext coeff_cols _
    (λ k, setitem k (FloatMat (np_empty
            (length (filter (λ x, String.prefix k x = true) (df_columns df')))
            (df_len df'))) ;;
          for_each (seq 0 (length (filter (λ x, String.prefix k x = true)
                                      (df_columns df'))))
            (λ i, do c <- lift (df_getitem df' (coeff_name k i)); setrow k i c))).
  - done.
  - intros k s0 Hk. rewrite (Hcols k Hk). unfold bind at 1 3.
    unfold setitem at 1 2.
    apply for_each_ext. intros i s1 _. unfold df_getitem.
    by rewrite (Hget k i Hk).
Qed.

Lemma df_find_Some (df : dataframe) (name : string) (c : column) :
  NoDup (df_columns df) → (df_find df name = Some c ↔ (name, c) ∈ df).
Proof.
  unfold df_find, df_columns. induction df as [|[nm c'] df IH]; simpl.
  - intros _. split; [done | by intros ?%elem_of_nil].
  - intros [Hnm Hnd]%NoDup_cons. case_bool_decide as Hc; simpl in *.
    + subst nm. split.
      * intros [= ->]. apply list_elem_of_here.
      * intros [[= ->]|Hin]%elem_of_cons; [done|].
        exfalso. apply Hnm. apply list_elem_of_fmap. by exists (name, c).
    + rewrite IH by done. split.
      * intros. by apply list_elem_of_further.
      * intros [[= -> ->]|Hin]%elem_of_cons; done.
Qed.

Lemma df_find_perm (df df' : dataframe) (name : string) :
  df ≡ₚ df' → NoDup (df_columns df) → df_find df name = df_find df' name.
Proof.
  intros Hp Hnd.
  assert (NoDup (df_columns df')) as Hnd'.
  { unfold df_columns in *. by rewrite <- Hp. }
  destruct (df_find df name) as [c|] eqn:E.
  - symmetry. apply df_find_Some; [done|]. rewrite <- Hp. by apply df_find_Some.
  - destruct (df_find df' name) as [c|] eqn:E'; [|done].
    apply df_find_Some in E'; [|done]. rewrite <- Hp in E'.
    apply df_find_Some in E'; [|done]. congruence.
Qed.

Lemma df_len_uniform (df : dataframe) (n : nat) :
  Forall (λ c, length (as_floats (snd c)) = n) df → df ≠ [] → df_len df = n.
Proof.
  intros Hall Hne. destruct df as [|[nm c] df]; [done|].
  apply Forall_cons in Hall as [Hc _]. simpl in *.
  destruct c; simpl in *; [by rewrite length_fmap in Hc | done].
Qed.

Lemma df_find_app_other (df : dataframe) (name nm : string) (c : column) :
  nm ≠ name → df_find (df ++ [(name, c)]) nm = df_find df nm.
Proof.
  intros Hne. unfold df_find. f_equal.
  induction df as [|x df IH]; simpl.
  - by rewrite bool_decide_false by done.
  - by rewrite IH.
Qed.

Lemma df_find_app_l (df rest : dataframe) (name : string) :
  is_Some (df_find df name) → df_find (df ++ rest) name = df_find df name.
Proof.
  unfold df_find. induction df as [|x df IH]; simpl.
  - by intros [? ?].
  - case_bool_decide; [done|]. apply IH.
Qed.

(** The first [b] rows of the array under [k], filled from the columns
    [k_0 .. k_{b-1}]. *)
Lemma fill_rows_upto (df : dataframe) (k : string) (m n b : nat)
    (d : gmap string ndarray) (r0 : list (list Q)) :
  (∀ i, (i < b)%nat → is_Some (df_find df (coeff_name k i))) →
  d !! k = Some (FloatMat (Mat m n r0)) → length r0 = m → (b <= m)%nat →
  ∃ r, for_each (seq 0 b)
         (λ i, do c <- lift (df_getitem df (coeff_name k i)); setrow k i c) d
       = (OK tt, <[k := FloatMat (Mat m n r)]> d) ∧ length r = m.
Proof.
  intros Hcol Hk Hr0. induction b as [|b IH]; intros Hb.
  - exists r0. simpl. by rewrite insert_id.
  - destruct IH as (r & Hrun & Hr); [intros i Hi; apply Hcol; lia | lia |].
    rewrite seq_S, for_each_app, Hrun. simpl.
    destruct (Hcol b) as [c Hc]; [lia|].
    unfold bind, lift, df_getitem, setrow. rewrite Hc, lookup_insert_eq. simpl.
    rewrite bool_decide_true by lia.
    eexists. split; [by rewrite insert_insert_eq|]. by rewrite length_insert.
Qed.

Lemma persisted_find_None (t : table) (width : string → nat) (k : string) (i : nat) :
  k ∈ coeff_cols → (width k <= i)%nat →
  df_find (persisted t width) (coeff_name k i) = None.
Proof.
  intros Hk Hi. unfold df_find.
  destruct (find _ _) as [[nm c]|] eqn:E; [exfalso|done].
  apply find_some in E as [Hin Hnm].
  apply bool_decide_eq_true in Hnm. simpl in Hnm. subst nm.
  apply list_elem_of_In in Hin. unfold persisted in Hin.
  assert (∀ k' rs, k' ∈ coeff_cols →
            (coeff_name k i, c) ∈ coeff_columns k' (width k') rs → False) as Hno.
  { intros k' rs Hk' (i' & [= Hname _] & Hi')%list_elem_of_fmap.
    apply elem_of_seq in Hi'.
    destruct (decide (k = k')) as [->|Hne].
    - apply coeff_name_inj in Hname. lia.
    - pose proof (prefix_coeff_name k i) as Hp. rewrite Hname in Hp.
      by rewrite prefix_coeff_name_other in Hp. }
  rewrite !elem_of_app, !elem_of_cons, elem_of_nil in Hin.
  assert (∀ nm, String.prefix k nm = false → (coeff_name k i, c) ≠ (nm, c)) as Hhead.
  { intros nm Hp [= E]. by rewrite <- E, prefix_coeff_name in Hp. }
  apply in_coeff_cols in Hk as Hk'.
  destruct Hin as [[Hin|[Hin|[Hin|[]]]]|[Hin|[Hin|[Hin|[Hin|Hin]]]]];
    try (eapply Hno; [|exact Hin]; apply in_coeff_cols; tauto).
  all: injection Hin as Hin _;
    pose proof (prefix_coeff_name k i) as Hp; rewrite Hin in Hp;
    destruct Hk' as [->|[->|[->|[->| ->]]]]; discriminate.
Qed.

(** The run of [readCoefficients] on the persisted table, over whatever
    [self.coeffs] held. *)
Lemma readCoefficients_run_over (t : table) (n : nat) (width : string → nat)
    (fs : gmap string (result dataframe)) (path : string)
    (previous : gmap string ndarray) :
  well_formed t n width = true →
  (0 < width "ra")%nat → (0 < width "dec")%nat →
  fs !! path = Some (OK (persisted t width)) →
  readCoefficients fs path previous = (OK tt, loaded t n width ∪ previous).
Proof.
  intros Hwf Hra Hdec Hfs.
  pose proof (well_formed_lengths _ _ _ Hwf) as (Lid & _).
  unfold readCoefficients. rewrite Hfs, bind_lift_OK.
  assert (df_attr (persisted t width) "objId" = OK (IntCol (t_objId t))) as Ho by done.
  assert (df_attr (persisted t width) "tStart" = OK (FloatCol (t_tStart t))) as Hs by done.
  assert (df_attr (persisted t width) "tEnd" = OK (FloatCol (t_tEnd t))) as He by done.
  assert (df_len (persisted t width) = n) as Hlen by done.
  rewrite Ho, Hs, He, Hlen.
  unfold bind at 1. unfold lift at 1. cbn beta iota. unfold bind at 1, setitem at 1.
  unfold bind at 1. unfold lift at 1. cbn beta iota. unfold bind at 1, setitem at 1.
  unfold bind at 1. unfold lift at 1. cbn beta iota. unfold bind at 1, setitem at 1.
  set (d0 := <["tEnd" := _]> _).
  assert (∀ k, k ∈ coeff_cols →
            length (filter (λ x, String.prefix k x = true)
                      (df_columns (persisted t width))) = width k) as Hcols
    by (intros; by apply persisted_columns).
  assert (Hfill : for_each coeff_cols (λ k,
            setitem k (FloatMat (np_empty
              (length (filter (λ x, String.prefix k x = true)
                         (df_columns (persisted t width)))) n)) ;;
            for_each (seq 0 (length (filter (λ x, String.prefix k x = true)
                                        (df_columns (persisted t width)))))
              (λ i, do c <- lift (df_getitem (persisted t width) (coeff_name k i));
                    setrow k i c)) d0
          = (OK tt,
             <["elongation" := FloatMat (Mat (width "elongation") n
                 (transpose (width "elongation") (t_elongation t)))]> (
             <["vmag" := FloatMat (Mat (width "vmag") n
                 (transpose (width "vmag") (t_vmag t)))]> (
             <["delta" := FloatMat (Mat (width "delta") n
                 (transpose (width "delta") (t_delta t)))]> (
             <["dec" := FloatMat (Mat (width "dec") n
                 (transpose (width "dec") (t_dec t)))]> (
             <["ra" := FloatMat (Mat (width "ra") n
                 (transpose (width "ra") (t_ra t)))]> d0)))))).
  { unfold coeff_cols. cbn [for_each].
    rewrite !Hcols by (apply in_coeff_cols; tauto).
    rewrite (bind_run _ _ _ _ _ (read_quantity t n width "ra" _ ltac:(apply in_coeff_cols; tauto))).
    rewrite (bind_run _ _ _ _ _ (read_quantity t n width "dec" _ ltac:(apply in_coeff_cols; tauto))).
    rewrite (bind_run _ _ _ _ _ (read_quantity t n width "delta" _ ltac:(apply in_coeff_cols; tauto))).
    rewrite (bind_run _ _ _ _ _ (read_quantity t n width "vmag" _ ltac:(apply in_coeff_cols; tauto))).
    rewrite (bind_run _ _ _ _ _ (read_quantity t n width "elongation" _ ltac:(apply in_coeff_cols; tauto))).
    done. }
  rewrite (bind_run _ _ _ _ _ Hfill). clear Hfill.
  set (d1 := <["elongation" := _]> _).
  destruct (transpose_head (width "ra") (t_ra t) Hra) as (rest_ra & Hhra).
  destruct (transpose_head (width "dec") (t_dec t) Hdec) as (rest_dec & Hhdec).
  unfold bind at 1, get at 1. unfold bind at 1, lift at 1.
  rewrite (getitem_Some d1 "ra" (FloatMat (Mat (width "ra") n
             (transpose (width "ra") (t_ra t))))) by (subst d1; by simplify_map_eq).
  cbn [mbind result_bind item0 rows]. rewrite Hhra.
  unfold bind at 1, setitem at 1.
  unfold bind at 1, get at 1. unfold bind at 1, lift at 1.
  rewrite (getitem_Some _ "dec" (FloatMat (Mat (width "dec") n
             (transpose (width "dec") (t_dec t))))) by (subst d1; by simplify_map_eq).
  cbn [mbind result_bind item0 rows]. rewrite Hhdec.
  unfold bind at 1, setitem at 1.
  set (d2 := <["meanDec" := _]> _).
  rewrite (swap_all d2
    (Mat (width "ra") n (transpose (width "ra") (t_ra t)))
    (Mat (width "dec") n (transpose (width "dec") (t_dec t)))
    (Mat (width "delta") n (transpose (width "delta") (t_delta t)))
    (Mat (width "vmag") n (transpose (width "vmag") (t_vmag t)))
    (Mat (width "elongation") n
       (transpose (width "elongation") (t_elongation t))))
    by (subst d2 d1; by simplify_map_eq).
  f_equal. unfold swapped. cbn [nrow ncol rows].
  pose proof (λ k Hk, transpose_transpose n (width k) (t_quantity t k)
                        (well_formed_quantity t n width k Hwf Hk)) as Htt.
  pose proof (Htt "ra") as T1. pose proof (Htt "dec") as T2.
  pose proof (Htt "delta") as T3. pose proof (Htt "vmag") as T4.
  pose proof (Htt "elongation") as T5.
  change (t_quantity t "ra") with (t_ra t) in T1.
  change (t_quantity t "dec") with (t_dec t) in T2.
  change (t_quantity t "delta") with (t_delta t) in T3.
  change (t_quantity t "vmag") with (t_vmag t) in T4.
  change (t_quantity t "elongation") with (t_elongation t) in T5.
  rewrite T1, T2, T3, T4, T5 by (apply in_coeff_cols; tauto).
  subst d2 d1 d0.
  rewrite <- (left_id_L ∅ (∪) previous) at 1.
  rewrite !insert_union_l. by f_equal.
Qed.

(** X9.  [setCoefficients] gives its own result back: called again with
    the dictionary a first call left (the dictionary of the same
    [ChebyFits] object, which line 32 converted in place), it returns
    and leaves the same dictionary. *)
Theorem setCoefficients_idempotent (chebyFits_coeffs : gmap string pyval)
    (previous previous' d : gmap string ndarray) :
  setCoefficients chebyFits_coeffs previous = (OK tt, d) →
  setCoefficients (PyArray <$> d) previous' = (OK tt, d).
Proof.
  unfold setCoefficients, bind, put, get, lift, setitem. simpl.
  set (A := np_array <$> chebyFits_coeffs).
  assert (np_array <$> (PyArray <$> d) = d) as ->.
  { rewrite <- map_fmap_compose. apply map_fmap_id. }
  case_bool_decide as Hmiss; [done|].
  destruct (a ← getitem A "ra"; m ← swapaxes01 a; item0 m) as [x|e] eqn:Hx;
    [|done].
  destruct (a ← getitem (<["meanRA" := x]> A) "dec"; m ← swapaxes01 a; item0 m)
    as [y|e] eqn:Hy; [|done].
  intros [= <-].
  rewrite bool_decide_false.
  2:{ intros Hpos. apply Hmiss.
      eapply Nat.lt_le_trans; [exact Hpos|]. apply subseteq_size.
      rewrite !dom_insert_L. intros k [Hk1 Hk2]%elem_of_difference.
      apply elem_of_difference. split; [done|].
      intros Hd. apply Hk2. by do 2 apply elem_of_union_r. }
  assert (getitem (<["meanDec" := y]> (<["meanRA" := x]> A)) "ra" = getitem A "ra")
    as -> by (unfold getitem; by rewrite !lookup_insert_ne).
  rewrite Hx.
  assert (<["meanRA" := x]> (<["meanDec" := y]> (<["meanRA" := x]> A))
          = <["meanDec" := y]> (<["meanRA" := x]> A)) as ->.
  { apply insert_id. by rewrite lookup_insert_ne, lookup_insert_eq. }
  assert (getitem (<["meanDec" := y]> (<["meanRA" := x]> A)) "dec"
          = getitem (<["meanRA" := x]> A) "dec")
    as -> by (unfold getitem; by rewrite (lookup_insert_ne _ "meanDec")).
  rewrite Hy. f_equal. apply insert_id. by rewrite lookup_insert_eq.
Qed.

(** X11.  An [IOError] comes from line 48, for a path that is no file,
    or from [pd.read_table] itself, for a file that it cannot read; in
    both cases nothing has been written and [self.coeffs] is as it was.
    Once the frame is read, no line of the method raises an [IOError],
    whatever the frame holds. *)
Theorem readCoefficients_io_error (fs : gmap string (result dataframe)) (path : string)
    (previous : gmap string ndarray) :
  (fs !! path = None →
   readCoefficients fs path previous
   = (Raise (IOError "Could not find chebyFitsFile at %s"), previous)) ∧
  (∀ e, fs !! path = Some (Raise e) →
        readCoefficients fs path previous = (Raise e, previous)) ∧
  (∀ msg, fst (readCoefficients fs path previous) = Raise (IOError msg) →
          (fs !! path = None ∨ fs !! path = Some (Raise (IOError msg))) ∧
          snd (readCoefficients fs path previous) = previous).
Proof.
  split; [|split].
  - intros H. unfold readCoefficients. by rewrite H.
  - intros e H. unfold readCoefficients. by rewrite H.
  - intros msg Hio. destruct (fs !! path) as [[df|e]|] eqn:Hfs.
    3:{ split; [by left|]. unfold readCoefficients. by rewrite Hfs. }
    2:{ unfold readCoefficients in *. rewrite Hfs in *.
        injection Hio as ->. split; [by right | done]. }
    exfalso.
    enough (wp (readCoefficients fs path) previous
              (λ r _, ∀ e, r = Raise e → not_io e)) as H.
    { by apply (H _ Hio msg). }
    unfold readCoefficients. rewrite Hfs, bind_lift_OK.
    apply wp_bind, wp_lift.
    destruct (df_attr df "objId") eqn:E1; [|intros ? [= <-]; by eapply df_attr_not_io].
    apply wp_bind, wp_setitem, wp_bind, wp_lift.
    destruct (df_attr df "tStart") eqn:E2; [|intros ? [= <-]; by eapply df_attr_not_io].
    apply wp_bind, wp_setitem, wp_bind, wp_lift.
    destruct (df_attr df "tEnd") eqn:E3; [|intros ? [= <-]; by eapply df_attr_not_io].
    apply wp_bind, wp_setitem.
    eapply wp_bind_post.
    { apply (wp_for_each _ not_io). intros k s.
      apply wp_bind, wp_setitem. apply (wp_for_each _ not_io). intros i s'.
      apply wp_bind, wp_lift.
      destruct (df_getitem df _) eqn:E; [|intros ? [= <-]; by eapply df_getitem_not_io].
      unfold wp, setrow. repeat case_match; simpl; intros ? [= <-]; done. }
    intros [[]|e] s1 H1; [|by apply H1].
    apply wp_bind, wp_get, wp_bind, wp_lift.
    destruct (getitem s1 "ra" ≫= item0) as [x|e] eqn:E4.
    2:{ intros ? [= <-]. apply result_bind_Raise in E4 as [E4|(? & _ & E4)];
          [by eapply getitem_not_io | by eapply item0_not_io]. }
    apply wp_bind, wp_setitem, wp_bind, wp_get, wp_bind, wp_lift.
    destruct (getitem _ "dec" ≫= item0) as [y|e] eqn:E5.
    2:{ intros ? [= <-]. apply result_bind_Raise in E5 as [E5|(? & _ & E5)];
          [by eapply getitem_not_io | by eapply item0_not_io]. }
    apply wp_bind, wp_setitem.
    apply (wp_for_each _ not_io). intros k s.
    apply wp_bind, wp_get, wp_bind, wp_lift.
    destruct (getitem s k ≫= swapaxes01) as [m|e] eqn:E6.
    2:{ intros ? [= <-]. apply result_bind_Raise in E6 as [E6|(? & _ & E6)];
          [by eapply getitem_not_io | by eapply swapaxes01_not_io]. }
    by apply wp_setitem.
Qed.

(** X12.  The reader replaces [self.coeffs] entry by entry: a file
    without the column [objId] leaves it as it was, and a file with
    [objId] but without [tStart] (or with both but without [tEnd])
    raises [AttributeError] and leaves the entries written so far. *)
Theorem readCoefficients_not_atomic (fs : gmap string (result dataframe)) (path : string)
    (df : dataframe) (previous : gmap string ndarray) :
  fs !! path = Some (OK df) →
  (df_find df "objId" = None →
   readCoefficients fs path previous = (Raise (AttributeError "objId"), previous)) ∧
  (∀ objId, df_find df "objId" = Some objId → df_find df "tStart" = None →
   readCoefficients fs path previous
   = (Raise (AttributeError "tStart"), <["objId" := as_matrix objId]> previous)) ∧
  (∀ objId tStart,
   df_find df "objId" = Some objId → df_find df "tStart" = Some tStart →
   df_find df "tEnd" = None →
   readCoefficients fs path previous
   = (Raise (AttributeError "tEnd"),
      <["tStart" := as_matrix tStart]> (<["objId" := as_matrix objId]> previous))).
Proof.
  intros Hfs. unfold readCoefficients. rewrite Hfs, bind_lift_OK.
  unfold df_attr. split; [|split].
  - intros ->. reflexivity.
  - intros c -> ->. reflexivity.
  - intros c c' -> -> ->. reflexivity.
Qed.

(** X13.  The order of the columns in the file does not matter: two
    frames with the same, distinctly named columns give the same result
    and the same dictionary. *)
Theorem readCoefficients_column_order (fs fs' : gmap string (result dataframe))
    (path : string) (df df' : dataframe) (n : nat) (s : gmap string ndarray) :
  fs !! path = Some (OK df) → fs' !! path = Some (OK df') →
  df ≡ₚ df' → NoDup (df_columns df) →
  Forall (λ c, length (as_floats (snd c)) = n) df →
  readCoefficients fs path s = readCoefficients fs' path s.
Proof.
  intros Hfs Hfs' Hp Hnd Hall.
  apply (readCoefficients_ext fs fs' path path df df'); try done;
    try by apply df_find_perm.
  - destruct df as [|c df].
    + apply Permutation_nil_l in Hp. by subst.
    + rewrite (df_len_uniform (c :: df) n) by done.
      symmetry. apply df_len_uniform.
      * by rewrite <- Hp.
      * intros ->. by apply Permutation_nil_r in Hp.
  - intros k _. unfold df_columns. by rewrite Hp.
  - intros k i _. by apply df_find_perm.
Qed.

(** X14.  A further column that is none of [objId], [tStart], [tEnd] and
    whose name begins with the name of no quantity is ignored. *)
Theorem readCoefficients_ignores_column (fs fs' : gmap string (result dataframe))
    (path : string) (df : dataframe) (name : string) (c : column)
    (s : gmap string ndarray) :
  fs !! path = Some (OK df) → fs' !! path = Some (OK (df ++ [(name, c)])) →
  df ≠ [] → name ∉ ["objId"; "tStart"; "tEnd"] →
  (∀ k, k ∈ coeff_cols → String.prefix k name = false) →
  readCoefficients fs path s = readCoefficients fs' path s.
Proof.
  intros Hfs Hfs' Hne Hname Hpre.
  rewrite !not_elem_of_cons in Hname. destruct Hname as (N1 & N2 & N3 & _).
  apply (readCoefficients_ext fs fs' path path df (df ++ [(name, c)]));
    try done; try (symmetry; by apply df_find_app_other).
  - by destruct df.
  - intros k Hk. unfold df_columns. rewrite fmap_app, filter_app. simpl.
    rewrite (filter_cons_False _ name) by (rewrite (Hpre k Hk); done).
    by rewrite filter_nil, app_nil_r.
  - intros k i Hk. symmetry. apply df_find_app_other.
    intros <-. specialize (Hpre k Hk). by rewrite prefix_coeff_name in Hpre.
Qed.

(** X15.  A further column whose name begins with [ra] is counted as a
    coefficient of [ra] (line 56): unless it is the next coefficient
    column, line 65 looks for a column that does not exist and the
    reader raises [KeyError]. *)
Theorem readCoefficients_stray_prefix (t : table) (n : nat)
    (width : string → nat) (fs : gmap string (result dataframe)) (path name : string)
    (c : column) (previous : gmap string ndarray) :
  well_formed t n width = true →
  fs !! path = Some (OK (persisted t width ++ [(name, c)])) →
  String.prefix "ra" name = true → name ≠ coeff_name "ra" (width "ra") →
  fst (readCoefficients fs path previous)
  = Raise (KeyError (coeff_name "ra" (width "ra"))).
Proof.
  intros Hwf Hfs Hpre Hname.
  set (df := persisted t width ++ [(name, c)] : dataframe) in *.
  assert (fs !! path = Some (OK df)) as Hfs' by exact Hfs.
  assert (length (filter (λ x, String.prefix "ra" x = true) (df_columns df))
          = S (width "ra")) as Hcount.
  { unfold df, df_columns. rewrite fmap_app, filter_app, length_app.
    fold (df_columns (persisted t width)).
    rewrite persisted_columns by (apply in_coeff_cols; tauto).
    simpl. rewrite filter_cons_True by done. simpl. lia. }
  assert (∀ i, (i < width "ra")%nat → is_Some (df_find df (coeff_name "ra" i)))
    as Hcols.
  { intros i Hi.
    assert (is_Some (df_find (persisted t width) (coeff_name "ra" i))) as Hsome.
    { pose proof (persisted_getitem t width "ra" i) as H.
      unfold df_getitem in H. destruct (df_find _ _); [eauto|].
      discriminate H; [apply in_coeff_cols; tauto | done]. }
    unfold df. by rewrite df_find_app_l. }
  assert (df_find df (coeff_name "ra" (width "ra")) = None) as Hnone.
  { unfold df. rewrite df_find_app_other by done.
    apply persisted_find_None; [apply in_coeff_cols; tauto | done]. }
  assert (∀ d0 : gmap string ndarray, ∃ d',
    (setitem "ra" (FloatMat (np_empty (S (width "ra")) (df_len df))) ;;
     for_each (seq 0 (S (width "ra")))
       (λ i, do c <- lift (df_getitem df (coeff_name "ra" i)); setrow "ra" i c)) d0
    = (Raise (KeyError (coeff_name "ra" (width "ra"))), d')) as Hblock.
  { intros d0. unfold bind at 1, setitem at 1.
    destruct (fill_rows_upto df "ra" (S (width "ra")) (df_len df) (width "ra")
                (<["ra" := FloatMat (np_empty (S (width "ra")) (df_len df))]> d0)
                (replicate (S (width "ra")) (replicate (df_len df) 0)))
      as (r & Hrun & Hr); [done | by rewrite lookup_insert_eq
                          | by rewrite length_replicate | lia |].
    rewrite seq_S, for_each_app, Hrun. cbn [for_each Nat.add].
    unfold bind, lift, df_getitem. rewrite Hnone. eauto. }
  unfold readCoefficients. rewrite Hfs', bind_lift_OK.
  rewrite (bind_run (lift (df_attr df "objId")) _ previous previous
             (IntCol (t_objId t))) by done.
  rewrite (bind_run (setitem "objId" _) _ previous _ tt) by done.
  rewrite (bind_run (lift (df_attr df "tStart")) _ _ _
             (FloatCol (t_tStart t))) by done.
  rewrite (bind_run (setitem "tStart" _) _ _ _ tt) by done.
  rewrite (bind_run (lift (df_attr df "tEnd")) _ _ _
             (FloatCol (t_tEnd t))) by done.
  rewrite (bind_run (setitem "tEnd" _) _ _ _ tt) by done.
  unfold coeff_cols. cbn [for_each]. rewrite Hcount.
  match goal with
  | |- context [bind (bind ?m ?k1) ?k2 ?d0] =>
      destruct (Hblock d0) as (d' & Hd')
  end.
  unfold bind at 1. unfold bind at 1. by rewrite Hd'.
Qed.

(** X16.  The reader writes the eight coefficient entries and the two
    mean entries, and leaves every other entry of [self.coeffs] as it
    was: nothing clears the dictionary. *)
Theorem readCoefficients_keeps_other_keys (t : table) (n : nat)
    (width : string → nat) (fs : gmap string (result dataframe)) (path : string)
    (previous : gmap string ndarray) :
  well_formed t n width = true →
  (0 < width "ra")%nat → (0 < width "dec")%nat →
  fs !! path = Some (OK (persisted t width)) →
  ∃ d,
    readCoefficients fs path previous = (OK tt, d) ∧
    (∀ k, k ∈ coeffKeys ++ ["meanRA"; "meanDec"] →
       d !! k = loaded t n width !! k ∧ is_Some (d !! k)) ∧
    (∀ k, k ∉ coeffKeys ++ ["meanRA"; "meanDec"] → d !! k = previous !! k).
Proof.
  intros Hwf Hra Hdec Hfs. exists (loaded t n width ∪ previous).
  split; [by apply readCoefficients_run_over|]. split.
  - intros k Hk. rewrite lookup_union.
    assert (is_Some (loaded t n width !! k)) as [a Ha].
    { unfold coeffKeys in Hk. simpl in Hk.
      rewrite !elem_of_cons, elem_of_nil in Hk. unfold loaded.
      destruct Hk as [->|[->|[->|[->|[->|[->|[->|[->|[->|[->|[]]]]]]]]]]];
        by simplify_map_eq. }
    rewrite Ha. split; [|eauto]; by destruct (previous !! k).
  - intros k Hk. rewrite lookup_union.
    assert (loaded t n width !! k = None) as ->.
    { unfold coeffKeys in Hk. simpl in Hk.
      rewrite !not_elem_of_cons in Hk. unfold loaded.
      destruct Hk as (?&?&?&?&?&?&?&?&?&?&_). by simplify_map_eq. }
    by rewrite (left_id None _).
Qed.

(** X17.  Reading a second file after a first leaves what reading the
    second file alone leaves. *)
Theorem readCoefficients_twice (t1 t2 : table) (n1 n2 : nat)
    (width1 width2 : string → nat) (fs : gmap string (result dataframe))
    (path1 path2 : string) (previous : gmap string ndarray) :
  well_formed t1 n1 width1 = true →
  (0 < width1 "ra")%nat → (0 < width1 "dec")%nat →
  well_formed t2 n2 width2 = true →
  (0 < width2 "ra")%nat → (0 < width2 "dec")%nat →
  fs !! path1 = Some (OK (persisted t1 width1)) →
  fs !! path2 = Some (OK (persisted t2 width2)) →
  (readCoefficients fs path1 ;; readCoefficients fs path2) previous
  = readCoefficients fs path2 previous.
Proof.
  intros W1 R1 D1 W2 R2 D2 F1 F2.
  rewrite (bind_run _ _ _ _ _
             (readCoefficients_run_over t1 n1 width1 fs path1 previous W1 R1 D1 F1)).
  rewrite !(readCoefficients_run_over t2 n2 width2 fs path2) by done.
  f_equal. rewrite (assoc_L (∪)). by f_equal.
Qed.

(** C8 (as amended).  For a table with at least one segment and at
    least one [ra] and one [dec] coefficient, reading the persisted
    table and setting the coefficients from the in-memory lists both
    succeed and write the same ten entries: every quantity is an array
    of shape [(segments, coefficients)] with the rows of the table, and
    the entries of [meanRA] and [meanDec] are, segment by segment, the
    first coefficient of the [ra] and of the [dec] expansion.  The
    in-memory path leaves these entries only; the reader keeps what
    else [self.coeffs] held, so the two dictionaries are equal when the
    reader starts from the empty dictionary of [__init__]. *)
Theorem readCoefficients_matches_setCoefficients (t : table) (n : nat)
    (width : string → nat) (fs : gmap string (result dataframe)) (path : string)
    (previous previous' : gmap string ndarray) :
  well_formed t n width = true → (0 < n)%nat →
  (0 < width "ra")%nat → (0 < width "dec")%nat →
  fs !! path = Some (OK (persisted t width)) →
  ∃ d d' meanRA meanDec,
    setCoefficients (fit_coeffs t) previous = (OK tt, d) ∧
    readCoefficients fs path previous' = (OK tt, d') ∧
    (∀ k, k ∈ coeffKeys ++ ["meanRA"; "meanDec"] → d' !! k = d !! k) ∧
    (∀ k, k ∉ coeffKeys ++ ["meanRA"; "meanDec"] →
       d !! k = None ∧ d' !! k = previous' !! k) ∧
    (previous' = init_coeffs → d' = d) ∧
    (∀ k, k ∈ coeff_cols →
       d !! k = Some (FloatMat (Mat n (width k) (t_quantity t k))) ∧
       rectangular n (width k) (t_quantity t k) = true) ∧
    d !! "meanRA" = Some (FloatArr meanRA) ∧
    d !! "meanDec" = Some (FloatArr meanDec) ∧
    length meanRA = n ∧ length meanDec = n ∧
    (∀ s r, t_ra t !! s = Some r →
       ∃ c0, r !! 0%nat = Some c0 ∧ meanRA !! s = Some c0) ∧
    (∀ s r, t_dec t !! s = Some r →
       ∃ c0, r !! 0%nat = Some c0 ∧ meanDec !! s = Some c0).
Proof.
  intros Hwf Hn Hra Hdec Hfs.
  exists (loaded t n width), (loaded t n width ∪ previous'),
    ((λ r, nth 0 r 0) <$> t_ra t), ((λ r, nth 0 r 0) <$> t_dec t).
  split; [by apply setCoefficients_run|].
  split; [by apply readCoefficients_run_over|].
  pose proof (well_formed_lengths _ _ _ Hwf) as (_ & _ & _ & Hq).
  assert (∀ (rs : list (list Q)) m s r, (0 < m)%nat →
            Forall (λ r, length r = m) rs → rs !! s = Some r →
            ∃ c0, r !! 0%nat = Some c0 ∧
                  ((λ r, nth 0 r 0) <$> rs) !! s = Some c0) as Hmean.
  { intros rs m s r Hm Hall Hs.
    assert (length r = m) as Hr by by eapply (proj1 (Forall_lookup _ _) Hall).
    destruct r as [|c0 r]; simpl in Hr; [lia|].
    exists c0. split; [done|]. by rewrite list_lookup_fmap, Hs. }
  destruct (Hq "ra") as [Lra Wra]; [apply in_coeff_cols; tauto|].
  destruct (Hq "dec") as [Ldec Wdec]; [apply in_coeff_cols; tauto|].
  change (t_quantity t "ra") with (t_ra t) in Lra, Wra.
  change (t_quantity t "dec") with (t_dec t) in Ldec, Wdec.
  assert (Hother : ∀ k, k ∉ coeffKeys ++ ["meanRA"; "meanDec"] →
                        loaded t n width !! k = None).
  { intros k Hk. unfold coeffKeys in Hk. simpl in Hk.
    rewrite !not_elem_of_cons in Hk. unfold loaded.
    destruct Hk as (?&?&?&?&?&?&?&?&?&?&_). by simplify_map_eq. }
  split; [|split; [|split; [|split; [|split; [|split; [|split; [|split; [|split]]]]]]]].
  - intros k Hk. rewrite lookup_union.
    assert (is_Some (loaded t n width !! k)) as [a Ha].
    { unfold coeffKeys in Hk. simpl in Hk.
      rewrite !elem_of_cons, elem_of_nil in Hk. unfold loaded.
      destruct Hk as [->|[->|[->|[->|[->|[->|[->|[->|[->|[->|[]]]]]]]]]]];
        by simplify_map_eq. }
    rewrite Ha. by destruct (previous' !! k).
  - intros k Hk. split; [by apply Hother|].
    rewrite lookup_union, (Hother k Hk). by rewrite (left_id None _).
  - intros ->. unfold init_coeffs. by rewrite (right_id_L ∅ (∪)).
  - intros k Hk. split; [|by apply well_formed_quantity].
    apply in_coeff_cols in Hk. unfold loaded.
    destruct Hk as [->|[->|[->|[->| ->]]]]; by simplify_map_eq.
  - unfold loaded. by simplify_map_eq.
  - unfold loaded. by simplify_map_eq.
  - by rewrite length_fmap.
  - by rewrite length_fmap.
  - intros s r. by apply Hmean with (m := width "ra").
  - intros s r. by apply Hmean with (m := width "dec").
Qed.

End Loading.

(** * chebyValues.py: queries *)

Section Queries.
Import ChebyValues.
Variable chebeval : Q → list Q → Q * Q → bool → Q * Q.
Variable np_cos : Q → Q.
Variable np_radians : Q → Q.

Lemma foldM_run_inv {S A B} (body : B → A → M S B) (I : nat → B → S → Prop)
    (l : list A) (b : B) (s : S) :
  I 0%nat b s →
  (∀ i x b s, l !! i = Some x → I i b s →
     ∃ b' s', body b x s = (OK b', s') ∧ I (Datatypes.S i) b' s') →
  ∃ b' s', foldM body b l s = (OK b', s') ∧ I (length l) b' s'.
Proof.
  revert I b s. induction l as [|x l IH]; intros I b s H0 Hstep; simpl.
  - by exists b, s.
  - destruct (Hstep 0%nat x b s eq_refl H0) as (b1 & s1 & E & H1).
    unfold bind. rewrite E.
    apply (IH (λ i, I (Datatypes.S i))); [done|].
    intros i y b2 s2 Hy. by apply (Hstep (Datatypes.S i)).
Qed.

Lemma foldM_run_raise {S A B} (body : B → A → M S B) (I : nat → B → S → Prop)
    (e : exn) (N : nat) (l : list A) (x : A) (b : B) (s : S) :
  I 0%nat b s →
  (∀ i y b s, (i < N)%nat → l !! i = Some y → I i b s →
     ∃ b' s', body b y s = (OK b', s') ∧ I (Datatypes.S i) b' s') →
  l !! N = Some x →
  (∀ b s, I N b s → ∃ s', body b x s = (Raise e, s')) →
  ∃ s', foldM body b l s = (Raise e, s').
Proof.
  revert I l b s. induction N as [|N IH]; intros I l b s H0 Hstep Hx Hraise.
  - destruct l as [|y l]; [done|]. injection Hx as ->.
    destruct (Hraise b s H0) as (s' & E). exists s'. simpl. unfold bind.
    by rewrite E.
  - destruct l as [|y l]; [done|]. simpl in Hx.
    destruct (Hstep 0%nat y b s) as (b1 & s1 & E & H1); [lia|done|done|].
    simpl. unfold bind. rewrite E.
    apply (IH (λ i, I (Datatypes.S i))); try done.
    intros i y' b2 s2 Hi Hy. apply (Hstep (Datatypes.S i)); [lia|done].
Qed.

Lemma where_from_succ (i : nat) (mask : list bool) :
  where_from (S i) mask = Z.succ <$> where_from i mask.
Proof.
  revert i. induction mask as [|b mask IH]; intros i; simpl; [done|].
  destruct b; simpl; rewrite IH; [|done]. f_equal. lia.
Qed.

Lemma where_from_lookup (mask : list bool) (a i : nat) (z : Z) :
  where_from a mask !! i = Some z →
  ∃ j, z = Z.of_nat (a + j) ∧ mask !! j = Some true.
Proof.
  intros H. apply list_elem_of_lookup_2 in H. by apply where_from_spec in H.
Qed.

(** The entry at position [i] of a masked array is the entry of the
    array at the [i]-th position where the mask is [True]. *)
Lemma select_lookup_where {A} (mask : list bool) (v : list A) (a i j : nat) :
  length v = length mask →
  where_from a mask !! i = Some (Z.of_nat (a + j)) →
  select mask v !! i = v !! j.
Proof.
  revert v a i j. induction mask as [|b mask IH]; intros [|x v] a i j Hlen H;
    simpl in *; try done.
  injection Hlen as Hlen.
  destruct b.
  - destruct i as [|i]; simpl in *.
    + injection H as H. assert (j = 0%nat) as -> by lia. done.
    + destruct (where_from_lookup _ _ _ _ H) as (j' & Hj & _).
      assert (j = S j') as -> by lia. simpl.
      apply (IH v (S a)); [done|]. rewrite H. f_equal. lia.
  - destruct (where_from_lookup _ _ _ _ H) as (j' & Hj & _).
    assert (j = S j') as -> by lia. simpl.
    apply (IH v (S a)); [done|]. rewrite H. f_equal. lia.
Qed.

(** Masking twice: the positions picked among the masked entries,
    mapped back to positions of the whole array. *)
Lemma where_from_and (m c : list bool) (a : nat) :
  length c = length m →
  where_from a (zip_with andb m c)
  = (λ z, default 0%Z (where_from a m !! Z.to_nat z)) <$> where_from 0 (select m c).
Proof.
  revert c a. induction m as [|b m IH]; intros [|x c] a Hlen; simpl in *;
    try done.
  injection Hlen as Hlen.
  assert (∀ (W : list Z) (l : list Z) y,
            Forall (λ z, (0 <= z)%Z) l →
            (λ z, default 0%Z ((y :: W) !! Z.to_nat z)) <$> (Z.succ <$> l)
            = (λ z, default 0%Z (W !! Z.to_nat z)) <$> l) as Hshift.
  { intros W l y Hl. rewrite <- list_fmap_compose.
    apply Forall_fmap_ext_1. eapply Forall_impl; [exact Hl|].
    intros z Hz. cbv beta in Hz. unfold compose.
    by replace (Z.to_nat (Z.succ z)) with (S (Z.to_nat z)) by lia. }
  assert (∀ l, Forall (λ z, (0 <= z)%Z) (where_from 0 l)) as Hpos.
  { intros l. apply Forall_forall. intros z (j & -> & _)%where_from_spec. lia. }
  destruct b, x; cbn [where_from select zip_with andb].
  - rewrite (where_from_succ 0), fmap_cons, Hshift by apply Hpos.
    f_equal. by apply IH.
  - rewrite (where_from_succ 0), Hshift by apply Hpos. by apply IH.
  - by apply IH.
  - by apply IH.
Qed.

Lemma select_covers (time : Q) (m : list bool) (ts te : list Q) :
  length ts = length m → length te = length m →
  select m (covers time ts te) = covers time (select m ts) (select m te).
Proof.
  revert ts te. induction m as [|b m IH]; intros [|s ts] [|e te]; simpl;
    try done.
  intros [= Hs] [= He]. unfold covers in *. simpl.
  destruct b; simpl; by rewrite IH.
Qed.

(** The positions picked by a mask are as many as its [True] entries,
    and each of them is a position of the mask. *)
Lemma where_from_total (m : list bool) (a : nat) (z : nat) :
  (z < length (select m m))%nat → is_Some (where_from a m !! z).
Proof. intros H. apply lookup_lt_is_Some. by rewrite where_from_length. Qed.

Lemma select_replicate_true {A} (n : nat) (v : list A) :
  length v = n → select (replicate n true) v = v.
Proof. intros <-. apply select_all. Qed.

(** The positions picked by line 139 among the masked segments, as
    positions of the table. *)
Lemma masked_hits (time : Q) (m : list bool) (ts te : list Q) (i j : nat) :
  length ts = length m → length te = length m →
  np_where (zip_with andb m (covers time ts te)) !! i = Some (Z.of_nat j) →
  ∃ z, np_where (covers time (select m ts) (select m te)) !! i
       = Some (Z.of_nat z) ∧
       np_where m !! z = Some (Z.of_nat j).
Proof.
  intros Hs He Hj. unfold np_where in *.
  rewrite where_from_and in Hj by (rewrite covers_length; congruence).
  rewrite select_covers in Hj by done.
  apply list_lookup_fmap_Some in Hj as (zz & Hj & Hzz).
  destruct (where_from_lookup _ _ _ _ Hzz) as (z & -> & Hz).
  simpl in Hj, Hzz. rewrite Nat2Z.id in Hj.
  exists z. split; [done|].
  destruct (where_from_total m 0 z) as [J HJ].
  { apply lookup_lt_Some in Hz.
    rewrite covers_length in Hz by (apply select_length_mask; congruence).
    by rewrite (select_length_mask m m ts). }
  rewrite HJ in Hj. simpl in Hj. by subst J.
Qed.

Lemma masked_hits_length (time : Q) (m : list bool) (ts te : list Q) :
  length ts = length m → length te = length m →
  length (np_where (zip_with andb m (covers time ts te)))
  = length (np_where (covers time (select m ts) (select m te))).
Proof.
  intros Hs He. unfold np_where.
  rewrite where_from_and by (rewrite covers_length; congruence).
  by rewrite length_fmap, select_covers.
Qed.

Lemma py_index_elem_of {A} (v : list A) (i : Z) (x : A) :
  py_index v i = OK x → x ∈ v.
Proof.
  unfold py_index. case_match; [|done].
  destruct (v !! _) eqn:E; [|done]. intros [= <-].
  by eapply list_elem_of_lookup_2.
Qed.

Lemma py_index_out_of_range {A} (v : list A) (i : Z) :
  (Z.of_nat (length v) <= i ∨ i < - Z.of_nat (length v))%Z →
  py_index v i = Raise IndexError.
Proof.
  intros H. unfold py_index.
  destruct (i <? 0)%Z eqn:E.
  - apply Z.ltb_lt in E.
    replace (0 <=? i + Z.of_nat (length v))%Z with false; [done|].
    symmetry. apply Z.leb_gt. lia.
  - apply Z.ltb_ge in E.
    replace (i <? Z.of_nat (length v))%Z with false; [by rewrite andb_false_r|].
    symmetry. apply Z.ltb_ge. lia.
Qed.

Lemma py_index_negative {A} (v : list A) (i : Z) :
  (- Z.of_nat (length v) <= i < 0)%Z →
  py_index v i = py_index v (i + Z.of_nat (length v)).
Proof.
  intros H. unfold py_index.
  replace (i <? 0)%Z with true by (symmetry; apply Z.ltb_lt; lia).
  replace (i + Z.of_nat (length v) <? 0)%Z with false
    by (symmetry; apply Z.ltb_ge; lia).
  done.
Qed.

Lemma elem_of_insert_inv {A} (l : list A) (i : nat) (x y : A) :
  y ∈ <[i := x]> l → y = x ∨ y ∈ l.
Proof.
  intros (j & Hj)%list_elem_of_lookup_1.
  destruct (decide (i = j)) as [->|Hne].
  - destruct (decide (j < length l)%nat).
    + rewrite list_lookup_insert_eq in Hj by done. left. congruence.
    + rewrite lookup_ge_None_2 in Hj; [done|]. rewrite length_insert. lia.
  - rewrite list_lookup_insert_ne in Hj by done. right.
    by eapply list_elem_of_lookup_2.
Qed.

Lemma store_run (h : heap) (ref i : nat) (x : Z) (a : list Z) :
  h !! ref = Some a →
  store ref i x h
  = if bool_decide (i < length a)%nat
    then (OK tt, <[ref := <[i := x]> a]> h)
    else (Raise IndexError, h).
Proof. intros H. unfold store. unfold heap in *. by rewrite H. Qed.

Lemma heap_store_lookup (h : heap) (ref N : nat) (a' : list Z) :
  length (default [] (h !! ref)) = N → (0 < N)%nat →
  default [] (<[ref := a']> h !! ref) = a'.
Proof.
  intros Hlen HN. unfold heap in *.
  destruct (h !! ref) as [a|] eqn:Ha; simpl in *; [|lia].
  by rewrite list_lookup_insert_eq by (by eapply lookup_lt_Some).
Qed.

Lemma heap_after_alloc (h h' : heap) (u : list Z) :
  length h' = length (h ++ [u]) →
  (∀ r, r ≠ length h → h' !! r = (h ++ [u]) !! r) →
  h' = h ++ [default [] (h' !! length h)].
Proof.
  unfold heap in *. intros Hlen Hother. rewrite length_app in Hlen. simpl in Hlen.
  apply list_eq. intros r.
  destruct (decide (r = length h)) as [->|Hr].
  - rewrite list_lookup_middle by done.
    destruct (lookup_lt_is_Some_2 h' (length h)) as [a Ha]; [lia|].
    by rewrite Ha.
  - rewrite Hother by done.
    destruct (decide (r < length h)%nat).
    + by rewrite !lookup_app_l by done.
    + rewrite !lookup_ge_None_2; [done|rewrite length_app; simpl; lia
                                  |rewrite length_app; simpl; lia].
Qed.

Lemma heap_after_store (h h' : heap) (ref : nat) :
  (ref < length h)%nat → length h' = length h →
  (∀ r, r ≠ ref → h' !! r = h !! r) →
  h' = <[ref := default [] (h' !! ref)]> h.
Proof.
  unfold heap in *. intros Href Hlen Hother. apply list_eq. intros r.
  destruct (decide (r = ref)) as [->|Hr].
  - rewrite list_lookup_insert_eq by done.
    destruct (lookup_lt_is_Some_2 h' ref) as [a Ha]; [lia|]. by rewrite Ha.
  - rewrite list_lookup_insert_ne by done. by apply Hother.
Qed.

Lemma well_formed_empty (t : table) (width : string → nat) :
  well_formed t 0 width = true → t = Table [] [] [] [] [] [] [] [].
Proof.
  intros Hwf. apply well_formed_lengths in Hwf as (H1 & H2 & H3 & Hq).
  destruct (Hq "ra") as [Q1 _]; [apply in_coeff_cols; tauto|].
  destruct (Hq "dec") as [Q2 _]; [apply in_coeff_cols; tauto|].
  destruct (Hq "delta") as [Q3 _]; [apply in_coeff_cols; tauto|].
  destruct (Hq "vmag") as [Q4 _]; [apply in_coeff_cols; tauto|].
  destruct (Hq "elongation") as [Q5 _]; [apply in_coeff_cols; tauto|].
  destruct t as [a b c d e f g i]. simpl in *.
  change (t_quantity _ "ra") with d in Q1.
  change (t_quantity _ "dec") with e in Q2.
  change (t_quantity _ "delta") with f in Q3.
  change (t_quantity _ "vmag") with g in Q4.
  change (t_quantity _ "elongation") with i in Q5.
  apply nil_length_inv in H1, H2, H3, Q1, Q2, Q3, Q4, Q5. by subst.
Qed.

Lemma ephemerisKeys_NoDup : NoDup ephemerisKeys.
Proof. apply (bool_decide_unpack _). by vm_compute. Qed.

Lemma setcells_effect (ephemeris : gmap string Q) (i : nat) (ks : list string)
    (eph : gmap string eph_column) :
  NoDup ks →
  (∀ k, k ∈ ks → ∃ v x, eph !! k = Some (Floats v) ∧ (i < length v)%nat ∧
                        ephemeris !! k = Some x) →
  ∃ eph',
    foldl (λ acc k, e ← acc; v ← getitem ephemeris k; setcell e k i v)
      (OK eph) ks = OK eph' ∧
    (∀ k, k ∈ ks → ∃ v x, eph !! k = Some (Floats v) ∧ ephemeris !! k = Some x ∧
                          eph' !! k = Some (Floats (<[i := x]> v))) ∧
    (∀ k, k ∉ ks → eph' !! k = eph !! k).
Proof.
  revert eph. induction ks as [|k ks IH]; intros eph Hnd Hks; simpl.
  - exists eph. split; [done|]. split; [by intros k ?%elem_of_nil | done].
  - apply NoDup_cons in Hnd as [Hk Hnd].
    destruct (Hks k) as (v & x & Hv & Hi & Hx); [apply list_elem_of_here|].
    rewrite (getitem_Some _ _ _ Hx). simpl.
    unfold setcell. rewrite (getitem_Some _ _ _ Hv). simpl.
    rewrite bool_decide_true by done.
    destruct (IH (<[k := Floats (<[i := x]> v)]> eph) Hnd) as (eph' & Hrun & Hin & Hout).
    { intros k' Hk'. rewrite lookup_insert_ne by (intros ->; done).
      apply Hks. by apply list_elem_of_further. }
    exists eph'. split; [done|]. split.
    + intros k' [->|Hk']%elem_of_cons.
      * exists v, x. split; [done|]. split; [done|].
        rewrite Hout by done. by rewrite lookup_insert_eq.
      * destruct (Hin k' Hk') as (v' & x' & Hv' & Hx' & He).
        rewrite lookup_insert_ne in Hv' by (intros ->; done). eauto.
    + intros k' [Hne Hk']%not_elem_of_cons.
      rewrite Hout by done. by rewrite lookup_insert_ne.
Qed.

(** The effect of one pass through the loop body of lines 141-144. *)
Lemma fill_row_effect (coeffs : gmap string ndarray) (t : table) (n : nat)
    (width : string → nat) (time : Q) (objMatch : list bool)
    (ref N i : nat) (z : Z) (eph : gmap string eph_column) (h : heap) :
  represents coeffs t → well_formed t n width = true → length objMatch = n →
  np_where (covers time (select objMatch (t_tStart t))
                        (select objMatch (t_tEnd t))) !! i = Some z →
  (i < N)%nat → sized ref N eph h →
  ∃ ephemeris id eph',
    _evalSegment chebeval np_cos np_radians coeffs z time (Some objMatch)
    = OK ephemeris ∧
    select objMatch (t_objId t) !! Z.to_nat z = Some id ∧
    fill_row chebeval np_cos np_radians coeffs time objMatch eph (i, z) h
    = (OK eph', <[ref := <[i := id]> (default [] (h !! ref))]> h) ∧
    (∀ k, k ∈ ephemerisKeys →
       ∃ v x, eph !! k = Some (Floats v) ∧ ephemeris !! k = Some x ∧
              eph' !! k = Some (Floats (<[i := x]> v))) ∧
    (∀ k, k ∉ ephemerisKeys → eph' !! k = eph !! k).
Proof.
  intros Hrep Hwf Hmask Hz Hi Hsized.
  apply list_elem_of_lookup_2 in Hz.
  apply covering_spec in Hz as (j & tS & tE & -> & HtS & HtE & H1 & H2).
  destruct (evalSegment_run chebeval np_cos np_radians coeffs t n width
              (Some objMatch) objMatch j time tS tE)
    as (p1 & p2 & p3 & p4 & p5 & _ & _ & _ & _ & _ & Hrun); try done.
  replace ((time <? tS) || (tE <? time)) with false in Hrun.
  2:{ symmetry. apply orb_false_iff. split; apply Qltb_ge; [done|].
      by apply Qlt_le_weak. }
  cbv zeta in Hrun.
  match type of Hrun with _ = OK ?m => set (ephemeris := m) in * end.
  destruct Hsized as (Hobj & Hcols & Hh).
  destruct (setcells_effect ephemeris i ephemerisKeys eph ephemerisKeys_NoDup)
    as (eph' & Hcells & Hin & Hout).
  { intros k Hk. destruct (Hcols k Hk) as (v & Hv & Hlen).
    assert (is_Some (ephemeris !! k)) as [x Hx].
    { unfold ephemerisKeys in Hk.
      rewrite !elem_of_cons, elem_of_nil in Hk. subst ephemeris.
      destruct Hk as [->|[->|[->|[->|[->|[->|[->|[]]]]]]]]; by simplify_map_eq. }
    exists v, x. split; [done|]. split; [lia|done]. }
  pose proof Hrep as (Hid & _).
  pose proof (well_formed_lengths _ _ _ Hwf) as (Lid & Ls & _).
  assert (is_Some (select objMatch (t_objId t) !! j)) as [id Hidj].
  { apply lookup_lt_is_Some.
    rewrite (select_length_mask objMatch _ (t_tStart t)) by congruence.
    by eapply lookup_lt_Some. }
  exists ephemeris, id, eph'. split; [done|]. rewrite Nat2Z.id.
  split; [done|]. split; [|done].
  unfold fill_row. rewrite (bind_run _ _ _ _ _ (f_equal (λ r, (r, h)) Hrun)).
  rewrite (bind_run _ _ _ _ _ (f_equal (λ r, (r, h)) Hcells)).
  assert ((a ← getitem coeffs "objId"; v ← idvector a;
           s ← mask_index v objMatch; py_index s (Z.of_nat j)) = OK id) as Hget.
  { rewrite (getitem_Some _ _ _ Hid). simpl.
    rewrite mask_index_ok by congruence. simpl. by apply py_index_nat. }
  rewrite (bind_run _ _ _ _ _ (f_equal (λ r, (r, h)) Hget)).
  assert (eph' !! "objId" = Some (IdsRef ref)) as Hobj'.
  { rewrite Hout; [done|]. unfold ephemerisKeys. rewrite !not_elem_of_cons.
    repeat split; try done. apply not_elem_of_nil. }
  rewrite (bind_run _ _ _ _ _ (f_equal (λ r, (r, h)) (getitem_Some _ _ _ Hobj'))).
  unfold bind, store, ret. by rewrite bool_decide_true by lia.
Qed.

(** A row beyond the arrays created by lines 136-138: the first
    assignment of line 143 is out of range. *)
Lemma fill_row_overflow (coeffs : gmap string ndarray) (t : table) (n : nat)
    (width : string → nat) (time : Q) (objMatch : list bool)
    (ref N i : nat) (z : Z) (eph : gmap string eph_column) (h : heap) :
  represents coeffs t → well_formed t n width = true → length objMatch = n →
  np_where (covers time (select objMatch (t_tStart t))
                        (select objMatch (t_tEnd t))) !! i = Some z →
  (N <= i)%nat → sized ref N eph h →
  fill_row chebeval np_cos np_radians coeffs time objMatch eph (i, z) h
  = (Raise IndexError, h).
Proof.
  intros Hrep Hwf Hmask Hz Hi Hsized.
  apply list_elem_of_lookup_2 in Hz.
  apply covering_spec in Hz as (j & tS & tE & -> & HtS & HtE & H1 & H2).
  destruct (evalSegment_run chebeval np_cos np_radians coeffs t n width
              (Some objMatch) objMatch j time tS tE)
    as (p1 & p2 & p3 & p4 & p5 & _ & _ & _ & _ & _ & Hrun); try done.
  replace ((time <? tS) || (tE <? time)) with false in Hrun.
  2:{ symmetry. apply orb_false_iff. split; apply Qltb_ge; [done|].
      by apply Qlt_le_weak. }
  cbv zeta in Hrun.
  match type of Hrun with _ = OK ?m => set (ephemeris := m) in * end.
  destruct Hsized as (Hobj & Hcols & Hh).
  unfold fill_row. rewrite (bind_run _ _ _ _ _ (f_equal (λ r, (r, h)) Hrun)).
  destruct (Hcols "ra") as (v & Hv & Hlen); [apply list_elem_of_here|].
  assert (foldl (λ acc k, e ← acc; v ← getitem ephemeris k; setcell e k i v)
            (OK eph) ephemerisKeys = Raise IndexError) as Hcells.
  { unfold ephemerisKeys. cbn [foldl].
    rewrite (getitem_Some ephemeris "ra" (fst (chebeval (time - tS) p1 (tS - tS, tE - tS) true)))
      by (subst ephemeris; by simplify_map_eq).
    cbn [mbind result_bind].
    assert (∀ x, setcell eph "ra" i x = Raise IndexError) as ->; [|done].
    intros x. unfold setcell. rewrite (getitem_Some _ _ _ Hv).
    cbn [mbind result_bind]. by rewrite bool_decide_false by lia. }
  unfold bind at 1, lift at 1. by rewrite Hcells.
Qed.

Lemma match_objIds_None (coeffs : gmap string ndarray) (t : table) (n : nat)
    (width : string → nat) (h : heap) :
  represents coeffs t → well_formed t n width = true →
  match_objIds coeffs None h
  = (OK (replicate n true, length h, None), h ++ [np_unique (t_objId t)]).
Proof.
  intros (Hid & _) Hwf. apply well_formed_lengths in Hwf as (Lid & _).
  unfold match_objIds, bind, lift, alloc, ret.
  rewrite (getitem_Some _ _ _ Hid). simpl. by rewrite Lid.
Qed.

Lemma match_objIds_array (coeffs : gmap string ndarray) (t : table)
    (ref : nat) (h : heap) :
  represents coeffs t →
  match_objIds coeffs (Some (ObjIdArray ref)) h
  = (OK (np_in1d (t_objId t) (default [] (h !! ref)), ref, Some ref), h).
Proof.
  intros (Hid & _). unfold match_objIds, bind, lift, load, ret.
  by rewrite (getitem_Some _ _ _ Hid).
Qed.

Lemma match_objIds_scalar (coeffs : gmap string ndarray) (t : table)
    (id : Z) (h : heap) :
  represents coeffs t →
  match_objIds coeffs (Some (ObjId id)) h
  = (OK (np_in1d (t_objId t) [id], length h, Some (length h)), h ++ [[id]]).
Proof.
  intros (Hid & _). unfold match_objIds, bind, lift, load, alloc, ret.
  rewrite (getitem_Some _ _ _ Hid). simpl. unfold heap in *.
  by rewrite list_lookup_middle.
Qed.

(** The run of [getEphemerides] once lines 128-135 have fixed the mask
    [objMatch] and the id array behind [ref], when the rows suffice
    for the segments picked by line 139. *)
Lemma getEphemerides_rows (coeffs : gmap string ndarray) (t : table) (n : nat)
    (width : string → nat) (time : Q) (objIds : option objIds_arg)
    (h h1 : heap) (objMatch : list bool) (ref : nat) (o : option nat) :
  represents coeffs t → well_formed t n width = true →
  match_objIds coeffs objIds h = (OK (objMatch, ref, o), h1) →
  length objMatch = n → o = None ∨ o = Some ref →
  (length (np_where (covers time (select objMatch (t_tStart t))
                                 (select objMatch (t_tEnd t))))
   <= length (default [] (h1 !! ref)))%nat →
  ∃ eph h',
    getEphemerides chebeval np_cos np_radians coeffs time objIds h = (OK eph, h') ∧
    eph !! "objId" = Some (IdsRef ref) ∧
    eph !! "time"
    = Some (Floats ((λ z, z + time)
                      <$> replicate (length (default [] (h1 !! ref))) 0)) ∧
    length h' = length h1 ∧ (∀ r, r ≠ ref → h' !! r = h1 !! r) ∧
    length (default [] (h' !! ref)) = length (default [] (h1 !! ref)) ∧
    (∀ k, k ∈ ephemerisKeys →
       ∃ v, eph !! k = Some (Floats v) ∧
            length v = length (default [] (h1 !! ref))) ∧
    (∀ i z,
       np_where (covers time (select objMatch (t_tStart t))
                             (select objMatch (t_tEnd t))) !! i = Some z →
       default [] (h' !! ref) !! i = select objMatch (t_objId t) !! Z.to_nat z ∧
       ∃ ephemeris,
         _evalSegment chebeval np_cos np_radians coeffs z time (Some objMatch)
         = OK ephemeris ∧
         ∀ k, k ∈ ephemerisKeys →
           ∃ v x, eph !! k = Some (Floats v) ∧ ephemeris !! k = Some x ∧
                  v !! i = Some x) ∧
    (∀ i,
       (length (np_where (covers time (select objMatch (t_tStart t))
                                      (select objMatch (t_tEnd t)))) <= i)%nat →
       default [] (h' !! ref) !! i = default [] (h1 !! ref) !! i ∧
       ∀ k, k ∈ ephemerisKeys →
         ∃ v, eph !! k = Some (Floats v) ∧
              v !! i = replicate (length (default [] (h1 !! ref))) 0 !! i).
Proof.
  intros Hrep Hwf Hsel Hmask Ho Hcount.
  set (segs := np_where _) in *.
  set (ids0 := default [] (h1 !! ref)) in *.
  set (N := length ids0) in *.
  pose proof (segments_run coeffs t n width objMatch time Hrep Hwf Hmask) as Hsegs.
  fold segs in Hsegs.
  unfold getEphemerides. rewrite (bind_run _ _ _ _ _ Hsel).
  unfold bind at 1, load at 1. fold ids0. fold N.
  unfold bind at 1, lift at 1. rewrite Hsegs.
  set (I := λ (m : nat) (eph : gmap string eph_column) (hp : heap),
    sized ref N eph hp ∧
    eph !! "time" = Some (Floats ((λ z, z + time) <$> replicate N 0)) ∧
    length hp = length h1 ∧
    (∀ r, r ≠ ref → hp !! r = h1 !! r) ∧
    (∀ i z, (i < m)%nat → segs !! i = Some z →
       default [] (hp !! ref) !! i = select objMatch (t_objId t) !! Z.to_nat z ∧
       ∃ ephemeris,
         _evalSegment chebeval np_cos np_radians coeffs z time (Some objMatch)
         = OK ephemeris ∧
         ∀ k, k ∈ ephemerisKeys →
           ∃ v x, eph !! k = Some (Floats v) ∧ ephemeris !! k = Some x ∧
                  v !! i = Some x) ∧
    (∀ i, (m <= i)%nat →
       default [] (hp !! ref) !! i = ids0 !! i ∧
       ∀ k, k ∈ ephemerisKeys →
         ∃ v, eph !! k = Some (Floats v) ∧ v !! i = replicate N 0 !! i)).
  destruct (foldM_run_inv (fill_row chebeval np_cos np_radians coeffs time objMatch)
              I (imap pair segs) (zero_filled ref N time) h1)
    as (eph & h' & Hloop & Hfinal).
  - split; [apply zero_filled_sized|]. split; [by unfold zero_filled|].
    split; [done|]. split; [done|].
    split; [intros; lia|]. intros i _. split; [done|].
    intros k Hk. destruct (zero_filled_sized ref time h1) as (_ & Hcols & _).
    unfold ephemerisKeys in Hk. rewrite !elem_of_cons, elem_of_nil in Hk.
    unfold zero_filled. simpl.
    destruct Hk as [->|[->|[->|[->|[->|[->|[->|[]]]]]]]];
      eexists; (split; [by simplify_map_eq | done]).
  - intros m [m' z] eph hp Hx (Hsized & Htime & Hlen & Hother & Hdone & Htodo).
    apply list_lookup_imap_Some in Hx as (z' & Hz & [= -> ->]).
    assert (m < N)%nat as Hm by (apply lookup_lt_Some in Hz; lia).
    destruct (fill_row_effect coeffs t n width time objMatch ref N m z' eph hp)
      as (ephemeris & id & eph' & Heval & Hid & Hrow & Hin & Hout); try done.
    eexists _, _. split; [exact Hrow|].
    pose proof Hsized as (Hobj & Hcols & Hh).
    assert (Hstore : default [] (<[ref := <[m := id]> (default [] (hp !! ref))]> hp !! ref)
                     = <[m := id]> (default [] (hp !! ref))).
    { apply (heap_store_lookup hp ref N); [done | lia]. }
    split; [|split; [|split; [|split; [|split]]]].
    + split; [|split].
      * rewrite Hout; [done|]. unfold ephemerisKeys. rewrite !not_elem_of_cons.
        repeat split; try done. apply not_elem_of_nil.
      * intros k Hk. destruct (Hin k Hk) as (v & x & Hv & _ & ->).
        destruct (Hcols k Hk) as (v' & Hv' & Hlen').
        rewrite Hv in Hv'. injection Hv' as <-.
        eexists. split; [done|]. by rewrite length_insert.
      * rewrite Hstore. by rewrite length_insert.
    + rewrite Hout; [done|]. unfold ephemerisKeys. rewrite !not_elem_of_cons.
      repeat split; try done. apply not_elem_of_nil.
    + unfold heap in *. by rewrite length_insert.
    + intros r Hr. unfold heap in *. rewrite list_lookup_insert_ne by done.
      by apply Hother.
    + intros i z Hi Hzi. rewrite Hstore.
      destruct (decide (i = m)) as [->|Hne].
      * rewrite Hz in Hzi. injection Hzi as <-.
        split.
        -- rewrite list_lookup_insert_eq by lia. done.
        -- exists ephemeris. split; [done|]. intros k Hk.
           destruct (Hin k Hk) as (v & x & Hv & Hx & ->).
           destruct (Hcols k Hk) as (v' & Hv' & Hlen').
           rewrite Hv in Hv'. injection Hv' as <-.
           eexists _, x. split; [done|]. split; [done|].
           by rewrite list_lookup_insert_eq by lia.
      * destruct (Hdone i z) as (Hidi & ephemeris' & Heval' & Hvals);
          [lia | done |].
        split.
        -- by rewrite list_lookup_insert_ne by done.
        -- exists ephemeris'. split; [done|]. intros k Hk.
           destruct (Hin k Hk) as (v & x & Hv & Hx & ->).
           destruct (Hvals k Hk) as (v' & x' & Hv' & Hx' & Hvi).
           rewrite Hv in Hv'. injection Hv' as <-.
           eexists _, x'. split; [done|]. split; [done|].
           by rewrite list_lookup_insert_ne by done.
    + intros i Hi. rewrite Hstore.
      destruct (Htodo i) as (Hidi & Hvals); [lia|].
      split.
      * by rewrite list_lookup_insert_ne by lia.
      * intros k Hk. destruct (Hin k Hk) as (v & x & Hv & Hx & ->).
        destruct (Hvals k Hk) as (v' & Hv' & Hvi).
        rewrite Hv in Hv'. injection Hv' as <-.
        eexists. split; [done|]. by rewrite list_lookup_insert_ne by lia.
  - rewrite (bind_run _ _ _ _ _ Hloop).
    rewrite length_imap in Hfinal.
    destruct Hfinal as (Hsized & Htime & Hlen & Hother & Hdone & Htodo).
    pose proof Hsized as (Hobj & Hcols & Hh).
    rewrite (bind_run _ _ _ _ _ (check_match_wp eph ref o h' Hobj Ho)).
    exists eph, h'. split; [done|]. split; [done|]. split; [done|].
    split; [done|]. split; [done|]. split; [done|]. split; [done|]. split.
    + intros i z Hz. apply Hdone; [|done]. by eapply lookup_lt_Some.
    + done.
Qed.

Lemma getEphemerides_overflow (coeffs : gmap string ndarray) (t : table) (n : nat)
    (width : string → nat) (time : Q) (objIds : option objIds_arg)
    (h h1 : heap) (objMatch : list bool) (ref : nat) (o : option nat) :
  represents coeffs t → well_formed t n width = true →
  match_objIds coeffs objIds h = (OK (objMatch, ref, o), h1) →
  length objMatch = n →
  (length (default [] (h1 !! ref))
   < length (np_where (covers time (select objMatch (t_tStart t))
                                   (select objMatch (t_tEnd t)))))%nat →
  fst (getEphemerides chebeval np_cos np_radians coeffs time objIds h)
  = Raise IndexError.
Proof.
  intros Hrep Hwf Hsel Hmask Hcount.
  set (segs := np_where _) in *.
  set (N := length (default [] (h1 !! ref))) in *.
  pose proof (segments_run coeffs t n width objMatch time Hrep Hwf Hmask) as Hsegs.
  fold segs in Hsegs.
  unfold getEphemerides. rewrite (bind_run _ _ _ _ _ Hsel).
  unfold bind at 1, load at 1. fold N.
  unfold bind at 1, lift at 1. rewrite Hsegs.
  destruct (lookup_lt_is_Some_2 segs N Hcount) as [z Hz].
  destruct (foldM_run_raise (fill_row chebeval np_cos np_radians coeffs time objMatch)
              (λ _ eph hp, sized ref N eph hp) IndexError N
              (imap pair segs) (N, z) (zero_filled ref N time) h1)
    as (s' & Hloop).
  - apply zero_filled_sized.
  - intros i [i' z'] eph hp Hi Hy Hsized.
    apply list_lookup_imap_Some in Hy as (z'' & Hz' & [= -> ->]).
    destruct (fill_row_effect coeffs t n width time
                objMatch ref N i z'' eph hp)
      as (ephemeris & id & eph' & _ & _ & Hrow & Hin & Hout); try done.
    eexists _, _. split; [exact Hrow|].
    destruct Hsized as (Hobj & Hcols & Hh).
    split; [|split].
    + rewrite Hout; [done|]. unfold ephemerisKeys. rewrite !not_elem_of_cons.
      repeat split; try done. apply not_elem_of_nil.
    + intros k Hk. destruct (Hin k Hk) as (v & x & Hv & _ & ->).
      destruct (Hcols k Hk) as (v' & Hv' & Hlen').
      rewrite Hv in Hv'. injection Hv' as <-.
      eexists. split; [done|]. by rewrite length_insert.
    + rewrite (heap_store_lookup hp ref N) by (done || lia).
      by rewrite length_insert.
  - rewrite list_lookup_imap, Hz. done.
  - intros eph hp Hsized. exists hp.
    by apply (fill_row_overflow coeffs t n width time objMatch ref N).
  - unfold bind. by rewrite Hloop.
Qed.

Lemma evalSegment_None (coeffs : gmap string ndarray) (t : table) (n : nat)
    (width : string → nat) (z : Z) (time : Q) :
  represents coeffs t → well_formed t n width = true →
  _evalSegment chebeval np_cos np_radians coeffs z time None
  = _evalSegment chebeval np_cos np_radians coeffs z time (Some (replicate n true)).
Proof.
  intros (Hid & _) Hwf. apply well_formed_lengths in Hwf as (Lid & _).
  unfold _evalSegment. rewrite (getitem_Some _ _ _ Hid). simpl. by rewrite Lid.
Qed.

(** A mask only renumbers the segments: position [z] of the selection is
    the segment at the [z]-th position where the mask is [True]. *)
Lemma evalSegment_renumbered (coeffs : gmap string ndarray) (t : table) (n : nat)
    (width : string → nat) (mask : list bool) (z j : nat) (time : Q) :
  represents coeffs t → well_formed t n width = true → length mask = n →
  np_where mask !! z = Some (Z.of_nat j) →
  _evalSegment chebeval np_cos np_radians coeffs (Z.of_nat z) time (Some mask)
  = _evalSegment chebeval np_cos np_radians coeffs (Z.of_nat j) time None.
Proof.
  intros Hrep Hwf Hmask Hz.
  pose proof (well_formed_lengths _ _ _ Hwf) as (Lid & Ls & Le & Lq).
  assert (j < n)%nat as Hj.
  { destruct (where_from_lookup _ _ _ _ Hz) as (j' & Hj' & Hm).
    apply lookup_lt_Some in Hm. lia. }
  assert (∀ A (v : list A), length v = n → select mask v !! z = v !! j) as Hsel.
  { intros A v Hv. apply (select_lookup_where mask v 0); [congruence|done]. }
  assert (∀ A (v : list A), length v = n →
            select (replicate n true) v !! j = v !! j) as Hall.
  { intros A v Hv. by rewrite select_replicate_true. }
  destruct (lookup_lt_is_Some_2 (t_tStart t) j) as [tS HtS]; [lia|].
  destruct (lookup_lt_is_Some_2 (t_tEnd t) j) as [tE HtE]; [lia|].
  destruct (evalSegment_run chebeval np_cos np_radians coeffs t n width
              (Some mask) mask z time tS tE)
    as (p1 & p2 & p3 & p4 & p5 & H1 & H2 & H3 & H4 & H5 & ->); try done;
    [by rewrite Hsel | by rewrite Hsel |].
  destruct (evalSegment_run chebeval np_cos np_radians coeffs t n width
              None (replicate n true) j time tS tE)
    as (q1 & q2 & q3 & q4 & q5 & G1 & G2 & G3 & G4 & G5 & ->); try done;
    [by rewrite length_replicate | by rewrite Hall | by rewrite Hall |].
  assert (∀ k, k ∈ coeff_cols → length (t_quantity t k) = n) as Lk
    by (intros k Hk; by destruct (Lq k Hk)).
  pose proof (Lk "ra" ltac:(apply in_coeff_cols; tauto)) as L1.
  pose proof (Lk "dec" ltac:(apply in_coeff_cols; tauto)) as L2.
  pose proof (Lk "delta" ltac:(apply in_coeff_cols; tauto)) as L3.
  pose proof (Lk "vmag" ltac:(apply in_coeff_cols; tauto)) as L4.
  pose proof (Lk "elongation" ltac:(apply in_coeff_cols; tauto)) as L5.
  change (t_quantity t "ra") with (t_ra t) in L1.
  change (t_quantity t "dec") with (t_dec t) in L2.
  change (t_quantity t "delta") with (t_delta t) in L3.
  change (t_quantity t "vmag") with (t_vmag t) in L4.
  change (t_quantity t "elongation") with (t_elongation t) in L5.
  rewrite Hsel in H1, H2, H3, H4, H5 by done.
  rewrite Hall in G1, G2, G3, G4, G5 by done.
  by simplify_eq.
Qed.

(** C2 (as amended).  The lookup of line 139 is right-open: among the
    segments that the object mask selects, a segment is picked exactly
    when [tStart <= time < tEnd].  So a query at [time = tStart] (with
    [tStart < tEnd]) resolves to the segment, and [_evalSegment] returns
    the evaluation of its coefficients; a query at [time = tEnd] does
    not resolve to it.  A query for all objects at a time that the
    segment covers, on a table whose segments do not overlap per
    object, returns with a row that holds this evaluation and the id of
    the segment.  No range error follows for a time that a segment does
    not cover: [getEphemerides] never raises the out-of-bounds error of
    [_evalSegment], and a query for all objects at a time that no
    segment covers returns the zero-initialised arrays. *)
Theorem segment_lookup_right_open (coeffs : gmap string ndarray) (t : table)
    (n : nat) (width : string → nat) (mask : list bool) (time : Q)
    (j : nat) (tS tE : Q) :
  represents coeffs t → well_formed t n width = true → length mask = n →
  select mask (t_tStart t) !! j = Some tS →
  select mask (t_tEnd t) !! j = Some tE →
  ∃ segs p_ra p_dec p_delta p_vmag p_elongation,
    segments coeffs time mask = OK segs ∧
    select mask (t_ra t) !! j = Some p_ra ∧
    select mask (t_dec t) !! j = Some p_dec ∧
    select mask (t_delta t) !! j = Some p_delta ∧
    select mask (t_vmag t) !! j = Some p_vmag ∧
    select mask (t_elongation t) !! j = Some p_elongation ∧
    (Z.of_nat j ∈ segs ↔ tS <= time ∧ time < tE) ∧
    (time == tS → tS < tE →
     Z.of_nat j ∈ segs ∧
     ∃ ephemeris,
       _evalSegment chebeval np_cos np_radians coeffs (Z.of_nat j) time
         (Some mask) = OK ephemeris ∧
       evaluates chebeval np_cos np_radians ephemeris time tS tE
         p_ra p_dec p_delta p_vmag p_elongation) ∧
    (time == tE → Z.of_nat j ∉ segs) ∧
    (mask = replicate n true → tS <= time → time < tE → non_overlapping t →
     ∀ h, ∃ ephemerides ids i ephemeris,
       getEphemerides chebeval np_cos np_radians coeffs time None h
       = (OK ephemerides, h ++ [ids]) ∧
       segs !! i = Some (Z.of_nat j) ∧
       ids !! i = t_objId t !! j ∧
       evaluates chebeval np_cos np_radians ephemeris time tS tE
         p_ra p_dec p_delta p_vmag p_elongation ∧
       ∀ k, k ∈ ephemerisKeys →
         ∃ v x, ephemerides !! k = Some (Floats v) ∧
                ephemeris !! k = Some x ∧ v !! i = Some x) ∧
    (∀ objIds h,
       fst (getEphemerides chebeval np_cos np_radians coeffs time objIds h)
       ≠ Raise (ValueError out_of_bounds_msg)) ∧
    (segments coeffs time (replicate n true) = OK [] →
     ∀ h, getEphemerides chebeval np_cos np_radians coeffs time None h
          = (OK (zero_filled (length h) (length (np_unique (t_objId t))) time),
             h ++ [np_unique (t_objId t)])).
Proof.
  intros Hrep Hwf Hmask HtS HtE.
  destruct (evalSegment_evaluates chebeval np_cos np_radians coeffs t n width
              (Some mask) mask j time tS tE)
    as (p_ra & p_dec & p_delta & p_vmag & p_el & Hra & Hdec & Hdelta & Hvmag
        & Hel & _ & Heval); try done.
  eexists. exists p_ra, p_dec, p_delta, p_vmag, p_el.
  split; [by eapply segments_run|]. do 5 (split; [done|]).
  assert (Hin : Z.of_nat j ∈ np_where (covers time (select mask (t_tStart t))
                                                     (select mask (t_tEnd t)))
          ↔ tS <= time ∧ time < tE).
  { rewrite covering_spec. split.
    - intros (j' & tS' & tE' & Hj & HtS' & HtE' & H1 & H2).
      apply Nat2Z.inj in Hj as <-. by simplify_eq.
    - intros [H1 H2]. by exists j, tS, tE. }
  split; [done|]. split; [|split; [|split; [|split]]].
  - intros Heq Hlt. split; [apply Hin; lra|]. apply Heval; lra.
  - intros Heq. rewrite Hin. lra.
  - intros -> H1 H2 Hno h.
    pose proof (well_formed_lengths _ _ _ Hwf) as (Lid & Ls & Le & _).
    pose proof (match_objIds_None coeffs t n width h Hrep Hwf) as Hsel.
    assert (default [] ((h ++ [np_unique (t_objId t)]) !! length h)
            = np_unique (t_objId t)) as Hu.
    { unfold heap in *. by rewrite list_lookup_middle. }
    destruct (getEphemerides_rows coeffs t n width time
                None h _ _ _ _ Hrep Hwf Hsel)
      as (eph & h' & Hrun & Hobj & Htime & Hlen & Hother & Hsize & Hcols
          & Hrows & Hrest).
    { by rewrite length_replicate. }
    { by left. }
    { unfold heap in *. rewrite Hu. apply picked_count with (ids := t_objId t);
        rewrite ?length_replicate; try done.
      - by apply non_overlapping_covering.
      - intros x Hx. apply np_unique_elem_of. by eapply select_elem_of. }
    assert (Z.of_nat j ∈ np_where (covers time (select (replicate n true) (t_tStart t))
                                     (select (replicate n true) (t_tEnd t))))
      as [i Hi]%list_elem_of_lookup_1 by by apply Hin.
    destruct (Hrows i _ Hi) as (Hidj & ephemeris & Hev & Hvals).
    destruct (Heval H1 (Qlt_le_weak _ _ H2)) as (ephemeris' & Hev' & Hcontent).
    rewrite Hev in Hev'. injection Hev' as <-.
    exists eph, (default [] (h' !! length h)), i, ephemeris.
    split; [|split; [done|split; [|split; [done|done]]]].
    + rewrite Hrun. f_equal. by eapply heap_after_alloc.
    + rewrite Hidj. rewrite Nat2Z.id. by rewrite select_replicate_true by done.
  - intros objIds h. apply getEphemerides_no_value_error.
  - intros Hnone h. destruct Hrep as (Hid & _).
    apply well_formed_lengths in Hwf as (Lid & _).
    unfold getEphemerides, match_objIds, bind, lift, alloc, load, ret.
    rewrite (getitem_Some _ _ _ Hid). simpl. rewrite Lid, Hnone. simpl.
    unfold heap in *. by rewrite list_lookup_middle by done.
Qed.
(** X18.  A dictionary returned by [_evalSegment] has exactly the keys
    of [ephemerisKeys], whatever the coefficients are. *)
Theorem evalSegment_keys (coeffs : gmap string ndarray) (segmentIdx : Z)
    (time : Q) (subsetSegments : option (list bool)) (ephemeris : gmap string Q) :
  _evalSegment chebeval np_cos np_radians coeffs segmentIdx time subsetSegments
  = OK ephemeris →
  dom ephemeris = list_to_set ephemerisKeys.
Proof.
  unfold _evalSegment. intros H.
  apply result_bind_OK in H as (mask & _ & H).
  apply result_bind_OK in H as (tS & _ & H).
  apply result_bind_OK in H as (tE & _ & H).
  destruct ((time <? tS) || (tE <? time)); [done|].
  apply result_bind_OK in H as (p_ra & _ & H).
  destruct (chebeval (time - tS) p_ra _ true) as [ra dradt].
  apply result_bind_OK in H as (p_dec & _ & H).
  destruct (chebeval (time - tS) p_dec _ true) as [dec ddecdt].
  apply result_bind_OK in H as (x & _ & H).
  apply result_bind_OK in H as (y & _ & H).
  cbn [foldl] in H.
  apply result_bind_OK in H as (e3 & H & H3).
  apply result_bind_OK in H as (e2 & H & H2).
  apply result_bind_OK in H as (e1 & H & H1).
  injection H as <-.
  apply result_bind_OK in H1 as (p1 & _ & H1).
  destruct (chebeval (time - tS) p1 _ false) as [v1 ?]. injection H1 as <-.
  apply result_bind_OK in H2 as (p2 & _ & H2).
  destruct (chebeval (time - tS) p2 _ false) as [v2 ?]. injection H2 as <-.
  apply result_bind_OK in H3 as (p3 & _ & H3).
  destruct (chebeval (time - tS) p3 _ false) as [v3 ?]. injection H3 as <-.
  unfold ephemerisKeys. rewrite !dom_insert_L, dom_empty_L. set_solver.
Qed.

(** X19.  [_evalSegment] indexes the segments as Python indexes a
    sequence: an index outside [-n .. n-1] raises [IndexError], and a
    negative index counts from the last segment. *)
Theorem evalSegment_index (coeffs : gmap string ndarray) (t : table) (n : nat)
    (width : string → nat) (segmentIdx : Z) (time : Q) :
  represents coeffs t → well_formed t n width = true →
  ((Z.of_nat n <= segmentIdx ∨ segmentIdx < - Z.of_nat n)%Z →
   _evalSegment chebeval np_cos np_radians coeffs segmentIdx time None
   = Raise IndexError) ∧
  ((- Z.of_nat n <= segmentIdx < 0)%Z →
   _evalSegment chebeval np_cos np_radians coeffs segmentIdx time None
   = _evalSegment chebeval np_cos np_radians coeffs
       (segmentIdx + Z.of_nat n) time None).
Proof.
  intros Hrep Hwf.
  pose proof (well_formed_lengths _ _ _ Hwf) as (Lid & Ls & Le & Lq).
  pose proof Hrep as (Hid & Hts & Hte & Hq).
  assert (Hmask : (a ← getitem coeffs "objId"; mret (replicate (np_len a) true))
                  = OK (replicate n true)).
  { rewrite (getitem_Some _ _ _ Hid). simpl. by rewrite Lid. }
  assert (HtS : ∀ z, (a ← getitem coeffs "tStart"; v ← vector a;
                      s ← mask_index v (replicate n true); py_index s z)
                     = py_index (t_tStart t) z).
  { intros z. rewrite (getitem_Some _ _ _ Hts). simpl.
    rewrite mask_index_ok by (by rewrite length_replicate). simpl.
    by rewrite select_replicate_true. }
  assert (HtE : ∀ z, (a ← getitem coeffs "tEnd"; v ← vector a;
                      s ← mask_index v (replicate n true); py_index s z)
                     = py_index (t_tEnd t) z).
  { intros z. rewrite (getitem_Some _ _ _ Hte). simpl.
    rewrite mask_index_ok by (by rewrite length_replicate). simpl.
    by rewrite select_replicate_true. }
  assert (Hseg : ∀ k z, k ∈ coeff_cols →
            (a ← getitem coeffs k; r ← rowvector a;
             s ← mask_index r (replicate n true); py_index s z)
            = py_index (t_quantity t k) z).
  { intros k z Hk. destruct (Hq k Hk) as (m & Hm & Hrows).
    destruct (Lq k Hk) as [Lk _].
    rewrite (getitem_Some _ _ _ Hm). simpl. rewrite Hrows.
    rewrite mask_index_ok by (by rewrite length_replicate). simpl.
    by rewrite select_replicate_true. }
  split.
  - intros Hout. unfold _evalSegment. rewrite Hmask. cbn [mbind result_bind].
    rewrite HtS, py_index_out_of_range by (rewrite Ls; done). done.
  - intros Hneg. unfold _evalSegment. rewrite Hmask. cbn [mbind result_bind].
    rewrite !HtS. rewrite (py_index_negative (t_tStart t)) by (rewrite Ls; done).
    rewrite Ls. destruct (py_index (t_tStart t) _) as [tS|e]; [|done].
    cbn [mbind result_bind].
    rewrite !HtE. rewrite (py_index_negative (t_tEnd t)) by (rewrite Le; done).
    rewrite Le. destruct (py_index (t_tEnd t) _) as [tE|e]; [|done].
    cbn [mbind result_bind].
    destruct ((time <? tS) || (tE <? time)); [done|].
    assert (∀ k, k ∈ coeff_cols →
              py_index (t_quantity t k) segmentIdx
              = py_index (t_quantity t k) (segmentIdx + Z.of_nat n)) as Hk.
    { intros k Hk. destruct (Lq k Hk) as [Lk _].
      rewrite py_index_negative by (rewrite Lk; done). by rewrite Lk. }
    cbv zeta. cbn [foldl].
    rewrite !Hseg by (apply in_coeff_cols; tauto).
    rewrite !(Hk "ra"), !(Hk "dec"), !(Hk "delta"), !(Hk "vmag"),
      !(Hk "elongation") by (apply in_coeff_cols; tauto).
    done.
Qed.

(** X20.  The mask [subsetSegments] only renumbers the segments: the
    evaluation at position [z] of the selection is the evaluation of
    the segment at the [z]-th position where the mask is [True]. *)
Theorem evalSegment_masked (coeffs : gmap string ndarray) (t : table) (n : nat)
    (width : string → nat) (mask : list bool) (z j : nat) (time : Q) :
  represents coeffs t → well_formed t n width = true → length mask = n →
  np_where mask !! z = Some (Z.of_nat j) →
  _evalSegment chebeval np_cos np_radians coeffs (Z.of_nat z) time (Some mask)
  = _evalSegment chebeval np_cos np_radians coeffs (Z.of_nat j) time None.
Proof. apply evalSegment_renumbered. Qed.

(** X21.  Before any coefficients are loaded there is no entry [objId]:
    every query, and every evaluation of a segment without a mask,
    raises [KeyError]. *)
Theorem getEphemerides_unloaded (coeffs : gmap string ndarray) (time : Q)
    (objIds : option objIds_arg) (h : heap) :
  coeffs !! "objId" = None →
  fst (getEphemerides chebeval np_cos np_radians coeffs time objIds h)
  = Raise (KeyError "objId") ∧
  ∀ segmentIdx,
    _evalSegment chebeval np_cos np_radians coeffs segmentIdx time None
    = Raise (KeyError "objId").
Proof.
  intros Hnone. split.
  - unfold getEphemerides, match_objIds, bind, lift, alloc, ret, getitem.
    destruct objIds as [[id|ref]|]; by rewrite Hnone.
  - intros z. unfold _evalSegment, getitem. by rewrite Hnone.
Qed.

(** X22.  A query reads the eight coefficient entries only: two
    dictionaries that agree on them give the same result and the same
    effect, whatever [meanRA], [meanDec] or any other entry hold. *)
Theorem getEphemerides_reads_coeffKeys (coeffs coeffs' : gmap string ndarray)
    (time : Q) (objIds : option objIds_arg) (h : heap) :
  (∀ k, k ∈ coeffKeys → coeffs !! k = coeffs' !! k) →
  getEphemerides chebeval np_cos np_radians coeffs time objIds h
  = getEphemerides chebeval np_cos np_radians coeffs' time objIds h.
Proof.
  intros Hagree.
  assert (∀ k, k ∈ coeffKeys → getitem coeffs k = getitem coeffs' k) as Hget.
  { intros k Hk. unfold getitem. by rewrite Hagree. }
  unfold getEphemerides, match_objIds, segments, fill_row, _evalSegment.
  cbv zeta. cbn [foldl].
  rewrite !(Hget "objId"), !(Hget "tStart"), !(Hget "tEnd"), !(Hget "ra"),
    !(Hget "dec"), !(Hget "delta"), !(Hget "vmag"), !(Hget "elongation")
    by (apply list_elem_of_In; simpl; tauto).
  reflexivity.
Qed.

(** X23.  A query for all objects on a table whose segments do not
    overlap returns, with one row per object id.  Row [i] holds the
    evaluation and the id of the [i]-th segment, in table order, that
    covers the time; the rows after the last such segment keep the zeros
    of line 138 and the ids that [np.unique] put there.  The id array is
    a fresh one. *)
Theorem getEphemerides_all_objects (coeffs : gmap string ndarray) (t : table)
    (n : nat) (width : string → nat) (time : Q) (h : heap) :
  represents coeffs t → well_formed t n width = true → non_overlapping t →
  ∃ eph ids,
    getEphemerides chebeval np_cos np_radians coeffs time None h
    = (OK eph, h ++ [ids]) ∧
    eph !! "objId" = Some (IdsRef (length h)) ∧
    eph !! "time" = Some (Floats ((λ z, z + time) <$> replicate (length ids) 0)) ∧
    length ids = length (np_unique (t_objId t)) ∧
    (∀ i j,
       np_where (covers time (t_tStart t) (t_tEnd t)) !! i = Some (Z.of_nat j) →
       ids !! i = t_objId t !! j ∧
       ∃ ephemeris,
         _evalSegment chebeval np_cos np_radians coeffs (Z.of_nat j) time None
         = OK ephemeris ∧
         ∀ k, k ∈ ephemerisKeys →
           ∃ v x, eph !! k = Some (Floats v) ∧ ephemeris !! k = Some x ∧
                  v !! i = Some x) ∧
    (∀ i,
       (length (np_where (covers time (t_tStart t) (t_tEnd t))) <= i
        < length ids)%nat →
       ids !! i = np_unique (t_objId t) !! i ∧
       ∀ k, k ∈ ephemerisKeys →
         ∃ v, eph !! k = Some (Floats v) ∧ v !! i = Some 0).
Proof.
  intros Hrep Hwf Hno.
  pose proof (well_formed_lengths _ _ _ Hwf) as (Lid & Ls & Le & _).
  pose proof (match_objIds_None coeffs t n width h Hrep Hwf) as Hsel.
  assert (default [] ((h ++ [np_unique (t_objId t)]) !! length h)
          = np_unique (t_objId t)) as Hu.
  { unfold heap in *. by rewrite list_lookup_middle. }
  destruct (getEphemerides_rows coeffs t n width time
              None h _ _ _ _ Hrep Hwf Hsel)
    as (eph & h' & Hrun & Hobj & Htime & Hlen & Hother & Hsize & Hcols & Hrows & Hrest).
  { by rewrite length_replicate. }
  { by left. }
  { unfold heap in *. rewrite Hu. apply picked_count with (ids := t_objId t);
      rewrite ?length_replicate; try done.
    - by apply non_overlapping_covering.
    - intros x Hx. apply np_unique_elem_of. by eapply select_elem_of. }
  unfold heap in *. rewrite Hu in *.
  rewrite !select_replicate_true in Hrows, Hrest by done.
  exists eph, (default [] (h' !! length h)).
  split; [|split; [done|split; [by rewrite Hsize|split; [done|split]]]].
  - rewrite Hrun. f_equal. by eapply heap_after_alloc.
  - intros i j Hj. destruct (Hrows i _ Hj) as (Hidj & ephemeris & Heval & Hvals).
    rewrite Nat2Z.id, select_replicate_true in Hidj by done. split; [done|].
    exists ephemeris. split; [|done].
    by rewrite (evalSegment_None coeffs t n width).
  - intros i [Hi1 Hi2]. destruct (Hrest i Hi1) as (Hidi & Hvals).
    split; [done|]. intros k Hk. destruct (Hvals k Hk) as (v & Hv & Hvi).
    exists v. split; [done|]. rewrite Hvi. apply lookup_replicate_2. lia.
Qed.

(** X24.  A query for an array of ids on a table whose segments do not
    overlap returns, with one row per requested entry.  Row [i] holds
    the evaluation and the id of the [i]-th segment, in table order,
    whose id is requested and which covers the time; the other rows keep
    their zeros.  The ids are written into the array the caller passed,
    which the result shares. *)
Theorem getEphemerides_requested (coeffs : gmap string ndarray) (t : table)
    (n : nat) (width : string → nat) (time : Q) (ref : nat) (wanted : list Z)
    (h : heap) :
  represents coeffs t → well_formed t n width = true → non_overlapping t →
  h !! ref = Some wanted →
  ∃ eph ids,
    getEphemerides chebeval np_cos np_radians coeffs time
      (Some (ObjIdArray ref)) h
    = (OK eph, <[ref := ids]> h) ∧
    eph !! "objId" = Some (IdsRef ref) ∧
    eph !! "time" = Some (Floats ((λ z, z + time) <$> replicate (length ids) 0)) ∧
    length ids = length wanted ∧
    (∀ i j,
       np_where (zip_with andb (np_in1d (t_objId t) wanted)
                   (covers time (t_tStart t) (t_tEnd t))) !! i
       = Some (Z.of_nat j) →
       ids !! i = t_objId t !! j ∧
       ∃ ephemeris,
         _evalSegment chebeval np_cos np_radians coeffs (Z.of_nat j) time None
         = OK ephemeris ∧
         ∀ k, k ∈ ephemerisKeys →
           ∃ v x, eph !! k = Some (Floats v) ∧ ephemeris !! k = Some x ∧
                  v !! i = Some x) ∧
    (∀ i,
       (length (np_where (zip_with andb (np_in1d (t_objId t) wanted)
                            (covers time (t_tStart t) (t_tEnd t)))) <= i
        < length wanted)%nat →
       ids !! i = wanted !! i ∧
       ∀ k, k ∈ ephemerisKeys →
         ∃ v, eph !! k = Some (Floats v) ∧ v !! i = Some 0).
Proof.
  intros Hrep Hwf Hno Href.
  pose proof (well_formed_lengths _ _ _ Hwf) as (Lid & Ls & Le & _).
  pose proof (match_objIds_array coeffs t ref h Hrep) as Hsel.
  unfold heap in *. rewrite Href in Hsel. simpl in Hsel.
  set (m := np_in1d (t_objId t) wanted) in *.
  assert (length m = n) as Hm by (unfold m, np_in1d; by rewrite length_fmap).
  destruct (getEphemerides_rows coeffs t n width time
              (Some (ObjIdArray ref)) h _ _ _ _ Hrep Hwf Hsel Hm)
    as (eph & h' & Hrun & Hobj & Htime & Hlen & Hother & Hsize & Hcols & Hrows & Hrest).
  { by right. }
  { unfold heap in *. rewrite Href. simpl.
    apply picked_count with (ids := t_objId t); try congruence.
    - by apply non_overlapping_covering.
    - apply select_in1d. }
  unfold heap in *. rewrite Href in *. simpl in *.
  exists eph, (default [] (h' !! ref)).
  split; [|split; [done|split; [by rewrite Hsize|split; [done|split]]]].
  - rewrite Hrun. f_equal. apply heap_after_store; try done.
    by eapply lookup_lt_Some.
  - intros i j Hj.
    destruct (masked_hits time m (t_tStart t) (t_tEnd t) i j)
      as (z & Hz & Hzj); [congruence..|done|].
    destruct (Hrows i _ Hz) as (Hidj & ephemeris & Heval & Hvals).
    rewrite Nat2Z.id in Hidj.
    rewrite (select_lookup_where m (t_objId t) 0 z j) in Hidj by (congruence || done).
    split; [done|]. exists ephemeris. split; [|done].
    by rewrite <- (evalSegment_renumbered coeffs t n width m z j).
  - intros i [Hi1 Hi2].
    rewrite masked_hits_length in Hi1 by congruence.
    destruct (Hrest i Hi1) as (Hidi & Hvals).
    split; [done|]. intros k Hk. destruct (Hvals k Hk) as (v & Hv & Hvi).
    exists v. split; [done|]. rewrite Hvi. apply lookup_replicate_2. lia.
Qed.

(** X25.  A query for one id (an [int]) on a table whose segments do not
    overlap returns one row and leaves the caller's arrays alone: the
    row is the evaluation of the segment of that object that covers the
    time, and all zeros when there is none. *)
Theorem getEphemerides_single_object (coeffs : gmap string ndarray) (t : table)
    (n : nat) (width : string → nat) (time : Q) (id : Z) (h : heap) :
  represents coeffs t → well_formed t n width = true → non_overlapping t →
  ∃ eph,
    getEphemerides chebeval np_cos np_radians coeffs time (Some (ObjId id)) h
    = (OK eph, h ++ [[id]]) ∧
    eph !! "objId" = Some (IdsRef (length h)) ∧
    (∀ j tS tE,
       t_objId t !! j = Some id →
       t_tStart t !! j = Some tS → t_tEnd t !! j = Some tE →
       tS <= time → time < tE →
       ∃ ephemeris,
         _evalSegment chebeval np_cos np_radians coeffs (Z.of_nat j) time None
         = OK ephemeris ∧
         ∀ k, k ∈ ephemerisKeys →
           ∃ x, ephemeris !! k = Some x ∧ eph !! k = Some (Floats [x])) ∧
    ((∀ j tS tE,
        t_objId t !! j = Some id →
        t_tStart t !! j = Some tS → t_tEnd t !! j = Some tE →
        ¬ (tS <= time ∧ time < tE)) →
     ∀ k, k ∈ ephemerisKeys → eph !! k = Some (Floats [0])).
Proof.
  intros Hrep Hwf Hno.
  pose proof (well_formed_lengths _ _ _ Hwf) as (Lid & Ls & Le & _).
  pose proof (match_objIds_scalar coeffs t id h Hrep) as Hsel.
  set (m := np_in1d (t_objId t) [id]) in *.
  assert (length m = n) as Hm by (unfold m, np_in1d; by rewrite length_fmap).
  assert (default [] ((h ++ [[id]]) !! length h) = [id]) as Hu.
  { unfold heap in *. by rewrite list_lookup_middle. }
  set (segs := np_where (covers time (select m (t_tStart t)) (select m (t_tEnd t)))).
  assert (length segs <= 1)%nat as Hcount.
  { change 1%nat with (length [id]).
    apply picked_count with (ids := t_objId t); try congruence.
    - by apply non_overlapping_covering.
    - apply select_in1d. }
  destruct (getEphemerides_rows coeffs t n width time
              (Some (ObjId id)) h _ _ _ _ Hrep Hwf Hsel Hm)
    as (eph & h' & Hrun & Hobj & Htime & Hlen & Hother & Hsize & Hcols & Hrows & Hrest).
  { by right. }
  { unfold heap in *. by rewrite Hu. }
  unfold heap in *. rewrite Hu in *. fold segs in Hrows, Hrest.
  assert (∀ k v, k ∈ ephemerisKeys → eph !! k = Some (Floats v) →
            ∃ x, v = [x]) as Hone.
  { intros k v Hk Hv. destruct (Hcols k Hk) as (v' & Hv' & Hlen').
    rewrite Hv in Hv'. injection Hv' as <-.
    destruct v as [|x [|? ?]]; simpl in Hlen'; try lia. eauto. }
  assert (default [] (h' !! length h) = [id]) as Hids.
  { destruct (default [] (h' !! length h)) as [|a [|? ?]] eqn:E; simpl in Hsize;
      try lia. f_equal.
    destruct segs as [|z segs'] eqn:Es.
    - destruct (Hrest 0%nat) as (H0 & _); [simpl; lia|]. by injection H0.
    - destruct (Hrows 0%nat z eq_refl) as (H0 & _). simpl in H0.
      symmetry in H0. apply list_elem_of_lookup_2, select_in1d in H0.
      by apply list_elem_of_singleton in H0. }
  exists eph. split; [|split; [done|split]].
  - rewrite Hrun. f_equal. rewrite <- Hids. by eapply heap_after_alloc.
  - intros j tS tE Hj HtS HtE H1 H2.
    assert (Z.of_nat j ∈ np_where (zip_with andb m (covers time (t_tStart t) (t_tEnd t))))
      as Hin.
    { apply where_from_spec. exists j. split; [done|].
      apply lookup_zip_with_Some. exists true, true. split; [done|]. split.
      - unfold m, np_in1d. rewrite list_lookup_fmap, Hj. simpl.
        f_equal. apply bool_decide_eq_true. apply list_elem_of_here.
      - assert (Z.of_nat j ∈ np_where (covers time (t_tStart t) (t_tEnd t))) as Hc
          by (apply covering_spec; by exists j, tS, tE).
        apply where_from_spec in Hc as (j' & Hj' & Hc).
        by replace j with j' by lia. }
    apply list_elem_of_lookup_1 in Hin as (i & Hi).
    destruct (masked_hits time m (t_tStart t) (t_tEnd t) i j)
      as (z & Hz & Hzj); [congruence..|done|].
    fold segs in Hz.
    assert (i = 0%nat) as -> by (apply lookup_lt_Some in Hz; lia).
    destruct (Hrows 0%nat _ Hz) as (_ & ephemeris & Heval & Hvals).
    exists ephemeris. split.
    + by rewrite <- (evalSegment_renumbered coeffs t n width m z j).
    + intros k Hk. destruct (Hvals k Hk) as (v & x & Hv & Hx & Hv0).
      exists x. split; [done|]. rewrite Hv.
      destruct (Hone k v Hk Hv) as (y & ->). by injection Hv0 as ->.
  - intros Hnone k Hk.
    assert (segs = []) as Hsegs.
    { destruct segs as [|z segs'] eqn:Es; [done|]. exfalso.
      assert (z ∈ segs) as Hz by (rewrite Es; apply list_elem_of_here).
      unfold segs in Hz.
      apply covering_spec in Hz as (zz & tS & tE & -> & HtS & HtE & H1 & H2).
      destruct (where_from_total m 0 zz) as [J HJ].
      { apply lookup_lt_Some in HtS.
        by rewrite (select_length_mask m m (t_tStart t)) by congruence. }
      destruct (where_from_lookup _ _ _ _ HJ) as (j & -> & Hmj). simpl in HJ.
      rewrite (select_lookup_where m (t_tStart t) 0 zz j) in HtS by (congruence || done).
      rewrite (select_lookup_where m (t_tEnd t) 0 zz j) in HtE by (congruence || done).
      unfold m, np_in1d in Hmj. apply list_lookup_fmap_Some in Hmj as (a & Ha & Hja).
      symmetry in Ha. apply bool_decide_eq_true in Ha.
      apply list_elem_of_singleton in Ha as ->.
      by apply (Hnone j tS tE). }
    destruct (Hrest 0%nat) as (_ & Hvals); [rewrite Hsegs; simpl; lia|].
    destruct (Hvals k Hk) as (v & Hv & Hv0). rewrite Hv.
    destruct (Hone k v Hk Hv) as (y & ->). simpl in Hv0. by injection Hv0 as ->.
Qed.

(** X26.  On a well-formed table a query either returns or raises
    [IndexError], the latter exactly when line 139 picks more segments
    than the result has rows: more covering segments than distinct ids
    (all objects), or more covering segments with a requested id than
    entries in the request. *)
Theorem getEphemerides_index_error (coeffs : gmap string ndarray) (t : table)
    (n : nat) (width : string → nat) (time : Q) (h : heap) :
  represents coeffs t → well_formed t n width = true →
  ((length (np_where (covers time (t_tStart t) (t_tEnd t)))
    <= length (np_unique (t_objId t)))%nat →
   ∃ eph h',
     getEphemerides chebeval np_cos np_radians coeffs time None h = (OK eph, h')) ∧
  ((length (np_unique (t_objId t))
    < length (np_where (covers time (t_tStart t) (t_tEnd t))))%nat →
   fst (getEphemerides chebeval np_cos np_radians coeffs time None h)
   = Raise IndexError) ∧
  (∀ ref wanted, h !! ref = Some wanted →
     ((length (np_where (zip_with andb (np_in1d (t_objId t) wanted)
                           (covers time (t_tStart t) (t_tEnd t))))
       <= length wanted)%nat →
      ∃ eph h',
        getEphemerides chebeval np_cos np_radians coeffs time
          (Some (ObjIdArray ref)) h = (OK eph, h')) ∧
     ((length wanted
       < length (np_where (zip_with andb (np_in1d (t_objId t) wanted)
                             (covers time (t_tStart t) (t_tEnd t)))))%nat →
      fst (getEphemerides chebeval np_cos np_radians coeffs time
             (Some (ObjIdArray ref)) h)
      = Raise IndexError)).
Proof.
  intros Hrep Hwf.
  pose proof (well_formed_lengths _ _ _ Hwf) as (Lid & Ls & Le & _).
  pose proof (match_objIds_None coeffs t n width h Hrep Hwf) as Hnone.
  assert (default [] ((h ++ [np_unique (t_objId t)]) !! length h)
          = np_unique (t_objId t)) as Hu.
  { unfold heap in *. by rewrite list_lookup_middle. }
  split; [|split].
  - intros Hc.
    destruct (getEphemerides_rows coeffs t n width time
                None h _ _ _ _ Hrep Hwf Hnone) as (eph & h' & Hrun & _).
    + by rewrite length_replicate.
    + by left.
    + unfold heap in *. rewrite Hu. by rewrite !select_replicate_true.
    + eauto.
  - intros Hc.
    apply (getEphemerides_overflow coeffs t n width
             time None h _ _ _ _ Hrep Hwf Hnone).
    + by rewrite length_replicate.
    + unfold heap in *. rewrite Hu. by rewrite !select_replicate_true.
  - intros ref wanted Href.
    pose proof (match_objIds_array coeffs t ref h Hrep) as Hsel.
    unfold heap in *. rewrite Href in Hsel. cbn [default] in Hsel.
    assert (length (np_in1d (t_objId t) wanted) = n) as Hm
      by (unfold np_in1d; by rewrite length_fmap).
    rewrite masked_hits_length by congruence.
    split; intros Hc.
    + destruct (getEphemerides_rows coeffs t n width
                  time (Some (ObjIdArray ref)) h _ _ _ _ Hrep Hwf Hsel Hm)
        as (eph & h' & Hrun & _); [by right| |eauto].
      unfold heap in *. by rewrite Href.
    + apply (getEphemerides_overflow coeffs t n width
               time (Some (ObjIdArray ref)) h _ _ _ _ Hrep Hwf Hsel Hm).
      unfold heap in *. by rewrite Href.
Qed.

(** X27.  With an array of ids, [getEphemerides] writes to that array
    only, keeps its length, and writes nothing but ids that the array
    held when the call began, whatever the coefficients are and however
    the call ends. *)
Theorem getEphemerides_writes_requested_ids (coeffs : gmap string ndarray)
    (time : Q) (ref : nat) (wanted : list Z) (h : heap) :
  h !! ref = Some wanted →
  ∃ ids,
    snd (getEphemerides chebeval np_cos np_radians coeffs time
           (Some (ObjIdArray ref)) h)
    = <[ref := ids]> h ∧
    length ids = length wanted ∧
    ∀ x, x ∈ ids → x ∈ wanted.
Proof.
  intros Href.
  set (P := λ hp : heap, ∃ ids, hp = <[ref := ids]> h ∧
                               length ids = length wanted ∧
                               ∀ x, x ∈ ids → x ∈ wanted).
  assert (P h) as HP0.
  { exists wanted. split; [|done]. unfold heap in *. by rewrite list_insert_id. }
  enough (wp (getEphemerides chebeval np_cos np_radians coeffs time
                (Some (ObjIdArray ref))) h (λ _ hp, P hp)) as H by exact H.
  unfold getEphemerides, match_objIds.
  apply wp_bind, wp_bind, wp_ret, wp_bind, wp_lift.
  destruct (getitem coeffs "objId" ≫= idvector) as [ids|e] eqn:Hids; [|done].
  apply wp_bind. unfold wp at 1. unfold load. cbn [fst snd].
  unfold heap in *. rewrite !Href.
  change (default [] (Some wanted)) with wanted.
  apply wp_ret, wp_bind. unfold wp at 1. cbn [fst snd].
  apply wp_bind, wp_lift.
  destruct (segments coeffs time (np_in1d ids wanted)) as [segs|e] eqn:Hsegs;
    [|done].
  apply wp_bind.
  apply (wp_foldM _ (λ eph hp, eph !! "objId" = Some (IdsRef ref) ∧ P hp)).
  - split; [|done]. unfold zero_filled. simpl. by simplify_map_eq.
  - intros eph hp [i z] _ [Hobj HP]. unfold fill_row.
    apply wp_bind, wp_lift.
    destruct (_evalSegment _ _ _ _ _ _ _) as [ephemeris|e]; [|done].
    apply wp_bind, wp_lift.
    pose proof (setcells_objId ephemeris i ephemerisKeys (OK eph)) as Hcells.
    destruct (foldl _ _ ephemerisKeys) as [eph'|e]; [|done].
    destruct Hcells as (e0 & [= <-] & Hobj').
    { unfold ephemerisKeys. rewrite !not_elem_of_cons.
      repeat split; try done. apply not_elem_of_nil. }
    apply wp_bind, wp_lift.
    lazymatch goal with
    | |- match ?r with _ => _ end =>
        destruct r as [id|e] eqn:Hid; [|done]
    end.
    assert (id ∈ wanted) as Hin.
    { unfold getitem in Hids, Hid.
      destruct (coeffs !! "objId") as [a|]; [|done]. simpl in Hids, Hid.
      rewrite Hids in Hid. simpl in Hid.
      unfold mask_index in Hid. case_match; [|done]. simpl in Hid.
      apply py_index_elem_of in Hid. by apply select_in1d in Hid. }
    apply wp_bind, wp_lift. rewrite Hobj in Hobj'.
    rewrite (getitem_Some _ _ _ Hobj').
    apply wp_bind.
    destruct HP as (ids' & -> & Hlen & Hsub).
    assert (ref < length h)%nat as Hlt by (by eapply lookup_lt_Some).
    unfold wp at 1. rewrite (store_run _ ref i id ids')
      by (unfold heap in *; by rewrite list_lookup_insert_eq).
    case_bool_decide; cbn [fst snd].
    + apply wp_ret. split; [done|].
      exists (<[i := id]> ids'). unfold heap in *.
      split; [by rewrite list_insert_insert_eq|].
      split; [by rewrite length_insert|].
      intros x [->|Hx]%elem_of_insert_inv; auto.
    + by exists ids'.
  - intros eph hp [Hobj HP]. apply wp_bind.
    unfold check_match. apply wp_bind, wp_lift.
    rewrite (getitem_Some _ _ _ Hobj).
    apply wp_bind. unfold wp at 1, load at 1. cbn [fst snd].
    apply wp_bind. unfold wp at 1, load at 1. cbn [fst snd].
    case_bool_decide; [done|]. by apply wp_ret, wp_ret.
Qed.

(** X10.  A table without segments: the file loads and a query for all
    objects returns empty arrays, while the in-memory path stops at
    [swapaxes] with the dictionary already replaced. *)
Theorem empty_table (t : table) (width : string → nat)
    (fs : gmap string (result dataframe)) (path : string)
    (previous : gmap string ndarray) (time : Q) (h : heap) :
  well_formed t 0 width = true →
  (0 < width "ra")%nat → (0 < width "dec")%nat →
  fs !! path = Some (OK (persisted t width)) →
  ∃ d,
    readCoefficients fs path previous = (OK tt, d) ∧
    getEphemerides chebeval np_cos np_radians d time None h
    = (OK (zero_filled (length h) 0 time), h ++ [[]]) ∧
    setCoefficients (fit_coeffs t) previous
    = (Raise AxisError, np_array <$> fit_coeffs t).
Proof.
  intros Hwf Hra Hdec Hfs.
  exists (loaded t 0 width ∪ previous).
  split; [by apply readCoefficients_run_over|].
  apply well_formed_empty in Hwf as ->. split.
  - unfold getEphemerides, match_objIds, segments, bind, lift, alloc, load, ret.
    rewrite !(getitem_Some _ "objId" (IntArr []))
      by (by apply lookup_union_Some_l).
    simpl.
    rewrite (getitem_Some _ "tStart" (FloatArr []))
      by (by apply lookup_union_Some_l).
    rewrite (getitem_Some _ "tEnd" (FloatArr []))
      by (by apply lookup_union_Some_l).
    simpl. unfold heap in *. by rewrite list_lookup_middle.
  - reflexivity.
Qed.

End Queries.

(** * The example table *)

Section Examples.
Import ChebyValues.

Lemma example_well_formed : well_formed example_table 3 example_width = true.
Proof. reflexivity. Qed.

Lemma example_coeffs_loaded :
  example_coeffs = loaded example_table 3 example_width.
Proof.
  unfold example_coeffs.
  rewrite (setCoefficients_run example_table 3 example_width init_coeffs
             example_well_formed); [done | cbv; lia..].
Qed.

Lemma example_represents : represents example_coeffs example_table.
Proof. rewrite example_coeffs_loaded. apply loaded_represents. Qed.

Lemma example_non_overlapping : non_overlapping example_table.
Proof.
  intros i j id tS tE tS' tE' Hij Hi Hj HtS HtE HtS' HtE'.
  destruct i as [|[|[|i]]], j as [|[|[|j]]]; simpl in *; simplify_eq;
    first [left; discriminate | right; discriminate].
Qed.

(** Object 1 at time 10: the lookup skips the segment [[0, 10)] and
    picks the segment [[10, 20)]; the query for all objects returns,
    and the row of that segment holds the evaluation of its
    coefficients at time 10, under the id 1. *)
Lemma segment_lookup_right_open_witness :
  ∃ segs,
    segments example_coeffs 10 [true; true; true] = OK segs ∧
    1%Z ∈ segs ∧ (0%Z ∉ segs) ∧
    ∃ ephemerides ids i ephemeris,
      getEphemerides example_chebeval example_cos example_radians
        example_coeffs 10 None [] = (OK ephemerides, [ids]) ∧
      segs !! i = Some 1%Z ∧ ids !! i = Some 1%Z ∧
      evaluates example_chebeval example_cos example_radians ephemeris
        10 10 20 [20; 1] [5; 1] [2] [19] [95] ∧
      ∀ k, k ∈ ephemerisKeys →
        ∃ v x, ephemerides !! k = Some (Floats v) ∧
               ephemeris !! k = Some x ∧ v !! i = Some x.
Proof.
  destruct (segment_lookup_right_open example_chebeval example_cos
              example_radians example_coeffs example_table 3 example_width
              [true; true; true] 10 1 10 20
              example_represents example_well_formed eq_refl eq_refl eq_refl)
    as (segs & p_ra & p_dec & p_delta & p_vmag & p_el & Hsegs & Hra & Hdec
        & Hdelta & Hvmag & Hel & _ & Hstart & _ & Hquery & _).
  injection Hra as <-. injection Hdec as <-. injection Hdelta as <-.
  injection Hvmag as <-. injection Hel as <-.
  destruct (segment_lookup_right_open example_chebeval example_cos
              example_radians example_coeffs example_table 3 example_width
              [true; true; true] 10 0 0 10
              example_represents example_well_formed eq_refl eq_refl eq_refl)
    as (segs' & ? & ? & ? & ? & ? & Hsegs' & _ & _ & _ & _ & _ & _ & _ & Hend & _).
  exists segs. split; [exact Hsegs|]. split; [|split].
  - apply (Hstart (Qeq_refl 10)). reflexivity.
  - rewrite Hsegs in Hsegs'. injection Hsegs' as <-. apply Hend. reflexivity.
  - apply (Hquery eq_refl); [discriminate | reflexivity | exact example_non_overlapping].
Defined.

(** The claim of C2 as it was stated fails at the end of the last
    segment of object 1: a query for all objects at time 20, which no
    segment covers, returns the zero-initialised arrays and raises
    nothing. *)
Lemma lookup_at_tEnd_returns :
  getEphemerides example_chebeval example_cos example_radians
    example_coeffs 20 None []
  = (OK (zero_filled 0 2 20), [[1; 2]%Z]) ∧
  ∀ e, fst (getEphemerides example_chebeval example_cos example_radians
              example_coeffs 20 None []) ≠ Raise e.
Proof.
  assert (getEphemerides example_chebeval example_cos example_radians
            example_coeffs 20 None []
          = (OK (zero_filled 0 2 20), [[1; 2]%Z])) as H
    by (vm_compute; reflexivity).
  split; [exact H|]. rewrite H. discriminate.
Qed.

(** Segment 0 of the table at its own [tEnd]: the evaluation of its
    coefficients at time 10. *)
Lemma evalSegment_closed_interval_witness :
  ∃ ephemeris,
    _evalSegment example_chebeval example_cos example_radians
      example_coeffs 0 10 None = OK ephemeris ∧
    evaluates example_chebeval example_cos example_radians ephemeris 10 0 10
      [10; 1] [-5; 1] [2] [18] [90].
Proof.
  destruct (evalSegment_closed_interval example_chebeval example_cos
              example_radians example_coeffs example_table 3 example_width
              None [true; true; true] 0 10 0 10
              example_represents example_well_formed eq_refl eq_refl
              eq_refl eq_refl)
    as (p_ra & p_dec & p_delta & p_vmag & p_el & Hra & Hdec & Hdelta & Hvmag
        & Hel & _ & _ & Hend).
  injection Hra as <-. injection Hdec as <-. injection Hdelta as <-.
  injection Hvmag as <-. injection Hel as <-.
  destruct (Hend (Qeq_refl 10)) as [Hok _]; [discriminate|].
  exact Hok.
Defined.

(** Segment 2 of the table (declination 60 degrees) at time 5. *)
Lemma evalSegment_rates_witness :
  ∃ ephemeris,
    _evalSegment example_chebeval example_cos example_radians
      example_coeffs 2 5 None = OK ephemeris ∧
    ephemeris !! "dradt"
    = Some (snd (example_chebeval (5 - 0) [30; 2] (0 - 0, 10 - 0) true)
            * example_cos (example_radians
                (fst (example_chebeval (5 - 0) [60; 0] (0 - 0, 10 - 0) true)))) ∧
    ephemeris !! "ddecdt"
    = Some (snd (example_chebeval (5 - 0) [60; 0] (0 - 0, 10 - 0) true)).
Proof.
  destruct (evalSegment_rates example_chebeval example_cos
              example_radians example_coeffs example_table 3 example_width
              None [true; true; true] 2 5 0 10
              example_represents example_well_formed eq_refl eq_refl
              eq_refl eq_refl)
    as (p_ra & p_dec & ephemeris & Hra & Hdec & Hrun & _ & Hdradt & Hddecdt);
    [discriminate..|].
  injection Hra as <-. injection Hdec as <-.
  exists ephemeris. split; [exact Hrun|]. split; [exact Hdradt | exact Hddecdt].
Defined.

(** A dictionary without [dec], given to an instance that held the
    example table. *)
Lemma setCoefficients_not_atomic_witness :
  snd (setCoefficients {["objId" := PyInts [4]%Z]} example_coeffs)
  = {["objId" := IntArr [4]%Z]}.
Proof.
  rewrite (proj2 (setCoefficients_not_atomic
                    {["objId" := PyInts [4]%Z]} example_coeffs)).
  - rewrite map_fmap_singleton. reflexivity.
  - apply (proj1 (setCoefficients_not_atomic
                    {["objId" := PyInts [4]%Z]} example_coeffs)).
    exists "dec". split; [|reflexivity].
    apply list_elem_of_In. simpl. tauto.
Defined.

(** The example table, written to a file and read back by a fresh
    instance. *)
Lemma readCoefficients_matches_setCoefficients_witness :
  ∃ d,
    setCoefficients (fit_coeffs example_table) init_coeffs = (OK tt, d) ∧
    readCoefficients
      {["coeffs.txt" := OK (persisted example_table example_width)]}
      "coeffs.txt" init_coeffs = (OK tt, d) ∧
    d !! "meanRA" = Some (FloatArr [10; 20; 30]).
Proof.
  destruct (readCoefficients_matches_setCoefficients example_table 3
              example_width
              {["coeffs.txt" := OK (persisted example_table example_width)]}
              "coeffs.txt" init_coeffs init_coeffs example_well_formed)
    as (d & d' & meanRA & meanDec & Hset & Hread & _ & _ & Heq & _ & Hra & _);
    [cbv; lia.. | apply lookup_singleton_eq |].
  rewrite (Heq eq_refl) in Hread.
  exists d. split; [exact Hset|]. split; [exact Hread|].
  assert (Some (FloatArr meanRA) = Some (FloatArr [10; 20; 30])) as Heq'.
  { rewrite <- Hra.
    assert (d = snd (setCoefficients (fit_coeffs example_table) init_coeffs)) as ->
      by by rewrite Hset.
    vm_compute. reflexivity. }
  rewrite Hra. exact Heq'.
Defined.

(** The claim of C8 as it was stated fails for a table without
    segments: the reader returns, with arrays of shape [(0, k)], while
    [setCoefficients] stops at [swapaxes], holding one-dimensional
    arrays and no [meanRA]. *)
Lemma loaders_differ_without_segments :
  readCoefficients
    {["empty.txt" := OK (persisted (Table [] [] [] [] [] [] [] []) example_width)]}
    "empty.txt" init_coeffs
  = (OK tt, loaded (Table [] [] [] [] [] [] [] []) 0 example_width) ∧
  loaded (Table [] [] [] [] [] [] [] []) 0 example_width !! "ra"
  = Some (FloatMat (Mat 0 2 [])) ∧
  setCoefficients (fit_coeffs (Table [] [] [] [] [] [] [] [])) init_coeffs
  = (Raise AxisError, np_array <$> fit_coeffs (Table [] [] [] [] [] [] [] [])) ∧
  (np_array <$> fit_coeffs (Table [] [] [] [] [] [] [] [])) !! "ra"
  = Some (FloatArr []) ∧
  (np_array <$> fit_coeffs (Table [] [] [] [] [] [] [] [])) !! "meanRA" = None.
Proof.
  split; [|split; [|split; [|split]]].
  - vm_compute. reflexivity.
  - reflexivity.
  - reflexivity.
  - reflexivity.
  - reflexivity.
Qed.
End Examples.

(** * Further examples *)

Section MoreExamples.
Import Chebyshev ChebyValues.

(** An angle of 350 degrees in a window from 10 to 355 degrees. *)
Lemma unwrap_range_witness :
  -90 < v_three_sixy_to_neg 350 10 355 ∧
  v_three_sixy_to_neg 350 10 355 <= 270.
Proof.
  destruct (unwrap_range 350 10 355) as (H1 & H2 & _);
    [reflexivity | reflexivity | discriminate | reflexivity |].
  split; [exact H1 | exact H2].
Defined.

(** A module whose global [distance] is 1 degree per day. *)
Lemma setGranularity_reads_global_witness :
  ∃ ts,
    ChebyFits._setGranularity {["distance" := 1]} 1
      (ChebyFits.Self None None None)
    = (OK tt, ChebyFits.Self (Some 64%Z) (Some ts) (Some (64 * ts))) ∧
    ts == 0.015625.
Proof.
  destruct (setGranularity_reads_global {["distance" := 1]}
              (ChebyFits.Self None None None) 1 1)
    as (ts & Hrun & _ & Hfast); [apply lookup_singleton_eq|].
  exists ts. split; [exact Hrun|]. rewrite Hfast; [reflexivity | discriminate].
Defined.

(** A main-belt object: half a degree per day, residual 20 mas,
    declination -80 degrees. *)
Lemma first_pass_then_refine_witness :
  ∃ ts len,
    (ChebyFits._setGranularity module_globals 0.5 ;;
     ChebyFits._updateGranularity 20 (-80)) (ChebyFits.Self None None None)
    = (OK tt, ChebyFits.Self (Some 64%Z) (Some ts) (Some len)) ∧
    len == 64 * ts.
Proof.
  destruct (first_pass_then_refine (ChebyFits.Self None None None) 0.5 20 (-80))
    as (ts & len & Hrun & Hlen & _); [reflexivity|].
  exists ts, len. split; [exact Hrun | exact Hlen].
Defined.

(** A fresh instance and an object at one degree per day. *)
Lemma refine_after_failed_first_pass_witness :
  ChebyFits._updateGranularity 20 0
    (snd (ChebyFits._setGranularity module_globals 1
            (ChebyFits.Self None None None)))
  = (Raise (AttributeError "timestep"), ChebyFits.Self (Some 64%Z) None None).
Proof.
  apply (refine_after_failed_first_pass (ChebyFits.Self None None None) 1 20 0);
    [discriminate | reflexivity].
Defined.

(** Residuals of 3 and of 20 mas on the first pass of a slow object. *)
Lemma updateGranularity_monotone_witness :
  ∃ ts1 ts2,
    fst (ChebyFits._updateGranularity 3 0
           (ChebyFits.Self (Some 64%Z) (Some 0.03125) (Some 2))) = OK tt ∧
    ChebyFits.timestep
      (snd (ChebyFits._updateGranularity 3 0
              (ChebyFits.Self (Some 64%Z) (Some 0.03125) (Some 2)))) = Some ts1 ∧
    ChebyFits.timestep
      (snd (ChebyFits._updateGranularity 20 0
              (ChebyFits.Self (Some 64%Z) (Some 0.03125) (Some 2)))) = Some ts2 ∧
    ts2 <= ts1.
Proof.
  destruct (updateGranularity_monotone
              (ChebyFits.Self (Some 64%Z) (Some 0.03125) (Some 2))
              0.03125 2 3 20 0 eq_refl eq_refl)
    as (ts1 & len1 & ts2 & len2 & H1 & H2 & Hts & _);
    [reflexivity | reflexivity | discriminate |].
  exists ts1, ts2. rewrite H1, H2. repeat split; try reflexivity. exact Hts.
Defined.

(** The dictionary of the example table, given again. *)
Lemma setCoefficients_idempotent_witness :
  setCoefficients (PyArray <$> example_coeffs) init_coeffs
  = (OK tt, example_coeffs).
Proof.
  apply (setCoefficients_idempotent (fit_coeffs example_table) init_coeffs).
  rewrite example_coeffs_loaded.
  apply (setCoefficients_run example_table 3 example_width init_coeffs
           example_well_formed); cbv; lia.
Defined.

(** A file with a header and no rows. *)
Lemma empty_table_witness :
  ∃ d,
    readCoefficients
      {["empty.txt" := OK (persisted (Table [] [] [] [] [] [] [] []) example_width)]}
      "empty.txt" init_coeffs = (OK tt, d) ∧
    getEphemerides example_chebeval example_cos example_radians d 5 None []
    = (OK (zero_filled 0 0 5), [[]]).
Proof.
  destruct (empty_table example_chebeval example_cos example_radians
              (Table [] [] [] [] [] [] [] []) example_width
              {["empty.txt" := OK (persisted (Table [] [] [] [] [] [] [] []) example_width)]}
              "empty.txt" init_coeffs 5 [])
    as (d & Hread & Hquery & _);
    [reflexivity | cbv; lia | cbv; lia | apply lookup_singleton_eq |].
  exists d. split; [exact Hread | exact Hquery].
Defined.

(** A directory with one file that cannot be read: the instance that
    held the example table keeps it, for that file and for a path that
    names no file. *)
Lemma readCoefficients_io_error_witness :
  readCoefficients {["locked.txt" := Raise (IOError "Permission denied")]}
    "coeffs.txt" example_coeffs
  = (Raise (IOError "Could not find chebyFitsFile at %s"), example_coeffs) ∧
  readCoefficients {["locked.txt" := Raise (IOError "Permission denied")]}
    "locked.txt" example_coeffs
  = (Raise (IOError "Permission denied"), example_coeffs) ∧
  snd (readCoefficients {["locked.txt" := Raise (IOError "Permission denied")]}
         "locked.txt" example_coeffs)
  = example_coeffs.
Proof.
  split; [|split].
  - apply (proj1 (readCoefficients_io_error
                    {["locked.txt" := Raise (IOError "Permission denied")]}
                    "coeffs.txt" example_coeffs)).
    reflexivity.
  - apply (proj1 (proj2 (readCoefficients_io_error
                    {["locked.txt" := Raise (IOError "Permission denied")]}
                    "locked.txt" example_coeffs))).
    apply lookup_singleton_eq.
  - apply (proj2 (proj2 (readCoefficients_io_error
                    {["locked.txt" := Raise (IOError "Permission denied")]}
                    "locked.txt" example_coeffs)) "Permission denied").
    reflexivity.
Defined.

(** A file with the column [objId] only, read by an instance that
    held the example table. *)
Lemma readCoefficients_not_atomic_witness :
  readCoefficients {["ids.txt" := OK [("objId", IntCol [4]%Z)]]} "ids.txt"
    example_coeffs
  = (Raise (AttributeError "tStart"), <["objId" := IntArr [4]%Z]> example_coeffs).
Proof.
  destruct (readCoefficients_not_atomic
              {["ids.txt" := OK [("objId", IntCol [4]%Z)]]} "ids.txt"
              [("objId", IntCol [4]%Z)] example_coeffs)
    as (_ & H & _); [apply lookup_singleton_eq|].
  apply (H (IntCol [4]%Z)); reflexivity.
Defined.

(** The columns of the example file, written in the opposite order. *)
Lemma readCoefficients_column_order_witness :
  readCoefficients
    {["coeffs.txt" := OK (persisted example_table example_width)]}
    "coeffs.txt" init_coeffs
  = readCoefficients
      {["coeffs.txt" := OK (reverse (persisted example_table example_width))]}
      "coeffs.txt" init_coeffs.
Proof.
  apply (readCoefficients_column_order _ _ "coeffs.txt"
           (persisted example_table example_width)
           (reverse (persisted example_table example_width)) 3).
  - apply lookup_singleton_eq.
  - apply lookup_singleton_eq.
  - symmetry. apply reverse_Permutation.
  - apply (bool_decide_unpack _). vm_compute. exact I.
  - apply (bool_decide_unpack _). vm_compute. exact I.
Defined.

(** The example file with a column of remarks. *)
Lemma readCoefficients_ignores_column_witness :
  readCoefficients
    {["coeffs.txt" := OK (persisted example_table example_width)]}
    "coeffs.txt" init_coeffs
  = readCoefficients
      {["coeffs.txt" := OK (persisted example_table example_width
                            ++ [("flag", IntCol [0; 0; 1]%Z)])]}
      "coeffs.txt" init_coeffs.
Proof.
  apply (readCoefficients_ignores_column _ _ "coeffs.txt"
           (persisted example_table example_width) "flag" (IntCol [0; 0; 1]%Z)).
  - apply lookup_singleton_eq.
  - apply lookup_singleton_eq.
  - discriminate.
  - apply (bool_decide_unpack _). vm_compute. exact I.
  - intros k Hk. apply in_coeff_cols in Hk.
    destruct Hk as [->|[->|[->|[->| ->]]]]; reflexivity.
Defined.

(** The example file with a column called [range]. *)
Lemma readCoefficients_stray_prefix_witness :
  fst (readCoefficients
         {["coeffs.txt" := OK (persisted example_table example_width
                               ++ [("range", FloatCol [1; 2; 3])])]}
         "coeffs.txt" init_coeffs)
  = Raise (KeyError "ra_2").
Proof.
  apply (readCoefficients_stray_prefix example_table 3 example_width
           _ "coeffs.txt" "range" (FloatCol [1; 2; 3]) init_coeffs).
  - reflexivity.
  - apply lookup_singleton_eq.
  - reflexivity.
  - discriminate.
Defined.

(** An entry [note] survives the reading of the example file. *)
Lemma readCoefficients_keeps_other_keys_witness :
  ∃ d,
    readCoefficients
      {["coeffs.txt" := OK (persisted example_table example_width)]}
      "coeffs.txt" {["note" := IntArr [1]%Z]} = (OK tt, d) ∧
    d !! "note" = Some (IntArr [1]%Z).
Proof.
  destruct (readCoefficients_keeps_other_keys example_table 3 example_width
              {["coeffs.txt" := OK (persisted example_table example_width)]}
              "coeffs.txt" {["note" := IntArr [1]%Z]})
    as (d & Hread & _ & Hother);
    [reflexivity | cbv; lia | cbv; lia | apply lookup_singleton_eq |].
  exists d. split; [exact Hread|].
  rewrite Hother; [apply lookup_singleton_eq|].
  apply (bool_decide_unpack _). vm_compute. exact I.
Defined.

(** The file of the overlapping table, then the example file. *)
Lemma readCoefficients_twice_witness :
  (readCoefficients
     {["a.txt" := OK (persisted overlapping_table example_width);
       "b.txt" := OK (persisted example_table example_width)]} "a.txt" ;;
   readCoefficients
     {["a.txt" := OK (persisted overlapping_table example_width);
       "b.txt" := OK (persisted example_table example_width)]} "b.txt") init_coeffs
  = readCoefficients
      {["a.txt" := OK (persisted overlapping_table example_width);
        "b.txt" := OK (persisted example_table example_width)]} "b.txt" init_coeffs.
Proof.
  apply (readCoefficients_twice overlapping_table example_table 2 3
           example_width example_width).
  - reflexivity.
  - cbv; lia.
  - cbv; lia.
  - reflexivity.
  - cbv; lia.
  - cbv; lia.
  - apply lookup_insert_eq.
  - rewrite lookup_insert_ne by discriminate. apply lookup_singleton_eq.
Defined.

(** Segment 2 of the example table at time 5. *)
Lemma evalSegment_keys_witness :
  ∃ ephemeris,
    _evalSegment example_chebeval example_cos example_radians
      example_coeffs 2 5 None = OK ephemeris ∧
    dom ephemeris = list_to_set ephemerisKeys.
Proof.
  destruct (_evalSegment example_chebeval example_cos example_radians
              example_coeffs 2 5 None) as [ephemeris|e] eqn:E.
  - exists ephemeris. split; [reflexivity|].
    exact (evalSegment_keys example_chebeval example_cos example_radians
             example_coeffs 2 5 None ephemeris E).
  - vm_compute in E. discriminate E.
Defined.

(** The example table has three segments. *)
Lemma evalSegment_index_witness :
  _evalSegment example_chebeval example_cos example_radians
    example_coeffs 3 5 None = Raise IndexError ∧
  _evalSegment example_chebeval example_cos example_radians
    example_coeffs (-1) 5 None
  = _evalSegment example_chebeval example_cos example_radians
      example_coeffs (-1 + 3) 5 None.
Proof.
  destruct (evalSegment_index example_chebeval example_cos example_radians
              example_coeffs example_table 3 example_width 3 5
              example_represents example_well_formed) as [Hout _].
  destruct (evalSegment_index example_chebeval example_cos example_radians
              example_coeffs example_table 3 example_width (-1) 5
              example_represents example_well_formed) as [_ Hneg].
  split; [apply Hout; left; reflexivity || lia | apply Hneg; lia].
Defined.

(** The segments of object 1 and 2 that start at 10 and at 0: the
    first of them is segment 1 of the table. *)
Lemma evalSegment_masked_witness :
  _evalSegment example_chebeval example_cos example_radians
    example_coeffs 0 12 (Some [false; true; true])
  = _evalSegment example_chebeval example_cos example_radians
      example_coeffs 1 12 None.
Proof.
  apply (evalSegment_masked example_chebeval example_cos example_radians
           example_coeffs example_table 3 example_width
           [false; true; true] 0 1 12
           example_represents example_well_formed); reflexivity.
Defined.

Lemma getEphemerides_unloaded_witness :
  fst (getEphemerides example_chebeval example_cos example_radians
         init_coeffs 5 None [])
  = Raise (KeyError "objId").
Proof.
  apply (getEphemerides_unloaded example_chebeval example_cos example_radians
           init_coeffs 5 None []).
  apply lookup_empty.
Defined.

(** The example dictionary without its entry [meanRA]. *)
Lemma getEphemerides_reads_coeffKeys_witness :
  getEphemerides example_chebeval example_cos example_radians
    example_coeffs 5 None []
  = getEphemerides example_chebeval example_cos example_radians
      (delete "meanRA" example_coeffs) 5 None [].
Proof.
  apply (getEphemerides_reads_coeffKeys example_chebeval example_cos
           example_radians example_coeffs (delete "meanRA" example_coeffs)).
  intros k Hk. rewrite lookup_delete_ne; [reflexivity|].
  intros <-. revert Hk. apply (bool_decide_unpack _). vm_compute. exact I.
Defined.

(** All objects at time 5: the segments 0 and 2 of the example table. *)
Lemma getEphemerides_all_objects_witness :
  ∃ eph ids,
    getEphemerides example_chebeval example_cos example_radians
      example_coeffs 5 None []
    = (OK eph, [ids]) ∧
    ids !! 1%nat = Some 2%Z.
Proof.
  destruct (getEphemerides_all_objects example_chebeval example_cos
              example_radians example_coeffs example_table 3 example_width 5 []
              example_represents example_well_formed example_non_overlapping)
    as (eph & ids & Hrun & _ & _ & _ & Hrows & _).
  exists eph, ids. split; [exact Hrun|].
  destruct (Hrows 1%nat 2%nat) as [Hid _]; [reflexivity|]. exact Hid.
Defined.

(** The ids 2 and 1, in this order, at time 5: the array comes back as
    1, 2. *)
Lemma getEphemerides_requested_witness :
  ∃ eph ids,
    getEphemerides example_chebeval example_cos example_radians
      example_coeffs 5 (Some (ObjIdArray 0)) [[2; 1]%Z]
    = (OK eph, [ids]) ∧
    ids !! 0%nat = Some 1%Z ∧ ids !! 1%nat = Some 2%Z.
Proof.
  destruct (getEphemerides_requested example_chebeval example_cos
              example_radians example_coeffs example_table 3 example_width 5
              0 [2; 1]%Z [[2; 1]%Z]
              example_represents example_well_formed example_non_overlapping
              eq_refl)
    as (eph & ids & Hrun & _ & _ & _ & Hrows & _).
  exists eph, ids. split; [exact Hrun|].
  destruct (Hrows 0%nat 0%nat) as [H0 _]; [reflexivity|].
  destruct (Hrows 1%nat 2%nat) as [H1 _]; [reflexivity|].
  split; [exact H0 | exact H1].
Defined.

(** Object 2 at time 5. *)
Lemma getEphemerides_single_object_witness :
  ∃ eph x,
    getEphemerides example_chebeval example_cos example_radians
      example_coeffs 5 (Some (ObjId 2)) []
    = (OK eph, [[2]%Z]) ∧
    eph !! "ra" = Some (Floats [x]).
Proof.
  destruct (getEphemerides_single_object example_chebeval example_cos
              example_radians example_coeffs example_table 3 example_width 5
              2 [] example_represents example_well_formed
              example_non_overlapping)
    as (eph & Hrun & _ & Hhit & _).
  destruct (Hhit 2%nat 0 10) as (ephemeris & Heval & Hvals);
    [reflexivity | reflexivity | reflexivity | discriminate | reflexivity |].
  destruct (Hvals "ra") as (x & Hx & Hra); [apply list_elem_of_here|].
  exists eph, x. split; [exact Hrun | exact Hra].
Defined.

(** The overlapping table at time 7: two segments of the one object. *)
Lemma getEphemerides_index_error_witness :
  fst (getEphemerides example_chebeval example_cos example_radians
         (loaded overlapping_table 2 example_width) 7 None [])
  = Raise IndexError.
Proof.
  destruct (getEphemerides_index_error example_chebeval example_cos
              example_radians (loaded overlapping_table 2 example_width)
              overlapping_table 2 example_width 7 []
              (loaded_represents overlapping_table 2 example_width) eq_refl)
    as (_ & Hover & _).
  apply Hover. vm_compute. lia.
Defined.

(** The ids 7 and 1 at time 5: the one segment of object 1 that covers
    the time is row 0, so the 7 is overwritten with a 1. *)
Lemma getEphemerides_writes_requested_ids_witness :
  snd (getEphemerides example_chebeval example_cos example_radians
         example_coeffs 5 (Some (ObjIdArray 0)) [[7; 1]%Z])
  = [[1; 1]%Z] ∧
  ∃ ids,
    snd (getEphemerides example_chebeval example_cos example_radians
           example_coeffs 5 (Some (ObjIdArray 0)) [[7; 1]%Z])
    = <[0%nat := ids]> [[7; 1]%Z] ∧
    length ids = 2%nat ∧
    ∀ x, x ∈ ids → x ∈ [7; 1]%Z.
Proof.
  split; [vm_compute; reflexivity|].
  apply (getEphemerides_writes_requested_ids example_chebeval example_cos
           example_radians example_coeffs 5 0 [7; 1]%Z [[7; 1]%Z] eq_refl).
Defined.

End MoreExamples.
